(** * graph_def_editor: the mutable graph container and the transformer

    A shallow embedding of [pge/graph.py] (class [Graph]) and of
    [graph_def_editor/transform.py] (handlers, [TransformerInfo],
    [Transformer._copy_ops], [graph_replace]).

    Conventions.
    - A Python [str] is a [string]; node names are ASCII, so [str.lower] is
      the byte-wise map of [A-Z] onto [a-z].
    - A Python [dict] is an association list in insertion order: the order
      of [self.nodes], of the traversal queue and of the linear scans of
      [TransformerInfo] all follow it.
    - A Python exception does not roll the object back: a method is a
      function from the state before the call to an outcome and to the state
      at the moment the call returns or raises. *)

From Stdlib Require Import List String Ascii Bool Arith Lia PeanoNat.
From Stdlib Require Import DecimalString DecimalNat Decimal Finite Permutation.
Import ListNotations.

Local Open Scope string_scope.
Local Open Scope list_scope.
Local Open Scope nat_scope.

(* ------------------------------------------------------------------ *)
(** ** Strings *)

Module Str.

(** [c.lower()] on one ASCII character. *)
Definition lower_ascii (c : ascii) : ascii :=
  let n := nat_of_ascii c in
  if ((65 <=? n) && (n <=? 90))%nat then ascii_of_nat (n + 32) else c.

(** [s.lower()] *)
Fixpoint lower (s : string) : string :=
  match s with
  | EmptyString => EmptyString
  | String c s' => String (lower_ascii c) (lower s')
  end.

(** [s.startswith(p)] *)
Definition startswith (s p : string) : bool := String.prefix p s.

(** [s[n:]] *)
Fixpoint drop (n : nat) (s : string) : string :=
  match n, s with
  | 0, _ => s
  | S _, EmptyString => EmptyString
  | S n', String _ s' => drop n' s'
  end.

(** [str(i)] for a non-negative integer. *)
Definition of_nat (i : nat) : string := NilEmpty.string_of_uint (Nat.to_uint i).

(** ["{}_{}".format(name, i)] *)
Definition format_name_i (name : string) (i : nat) : string :=
  (name ++ "_" ++ of_nat i)%string.

(** [x in l] for a list of strings. *)
Definition mem (x : string) (l : list string) : bool :=
  existsb (String.eqb x) l.

End Str.

(* ------------------------------------------------------------------ *)
(** ** Exceptions and outcomes *)

Inductive Exn : Type :=
| ValueError (msg : string)
| TypeError (msg : string)
| RuntimeError (msg : string)
| KeyError
| IndexError
| NotImplementedError.

(** What a call does: return a value, raise, or (for the bounded rendering of
    a [while] loop) exhaust its iteration budget. *)
Inductive outcome (A : Type) : Type :=
| Return (a : A)
| Raise (e : Exn)
| OutOfFuel.
Arguments Return {A} a.
Arguments Raise {A} e.
Arguments OutOfFuel {A}.

(** A method over a mutable object of type [S]. *)
Definition M (S A : Type) : Type := S -> outcome A * S.

Definition ret {S A} (a : A) : M S A := fun s => (Return a, s).
Definition raise {S A} (e : Exn) : M S A := fun s => (Raise e, s).
Definition bind {S A B} (m : M S A) (k : A -> M S B) : M S B :=
  fun s =>
    match m s with
    | (Return a, s') => k a s'
    | (Raise e, s') => (Raise e, s')
    | (OutOfFuel, s') => (OutOfFuel, s')
    end.
Definition gets {S A} (f : S -> A) : M S A := fun s => (Return (f s), s).
Definition modify {S} (f : S -> S) : M S unit := fun s => (Return tt, f s).
Definition lift {S A} (o : outcome A) : M S A := fun s => (o, s).

Declare Scope py_scope.
Delimit Scope py_scope with py.
Notation "x <- m ;; k" := (bind m (fun x => k))
  (at level 61, m at next level, right associativity) : py_scope.
Notation "m ;;; k" := (bind m (fun _ => k))
  (at level 61, right associativity) : py_scope.
Local Open Scope py_scope.

(* ------------------------------------------------------------------ *)
(** ** Ordered dictionaries *)

Section Dict.
Context {K V : Type} (eqb : K -> K -> bool).

Definition dict : Type := list (K * V).

(** [d[k]] as an option; the caller decides what a miss raises. *)
Fixpoint dict_get (d : dict) (k : K) : option V :=
  match d with
  | [] => None
  | (k', v) :: d' => if eqb k' k then Some v else dict_get d' k
  end.

(** [d[k] = v]: an existing key keeps its position, a new one goes last. *)
Fixpoint dict_set (d : dict) (k : K) (v : V) : dict :=
  match d with
  | [] => [(k, v)]
  | (k', v') :: d' =>
      if eqb k' k then (k', v) :: d' else (k', v') :: dict_set d' k v
  end.

Definition dict_keys (d : dict) : list K := map fst d.
Definition dict_values (d : dict) : list V := map snd d.
Definition dict_mem (d : dict) (k : K) : bool := existsb (eqb k) (dict_keys d).
End Dict.
Arguments dict K V : clear implicits.

(* ------------------------------------------------------------------ *)
(** ** Nodes and tensors

    [pge/node.py] and [pge/tensor.py] are not among the sources; the records
    below carry what [graph.py] and [transform.py] read from them. *)

(** Identity of a [Graph] object ([g1 is g2]). *)
Definition GraphId := nat.

(** Identity of a [Node] object: the graph that owns it and its key there. *)
Record NodeRef : Type := mkNodeRef { ref_graph : GraphId; ref_name : string }.

(** A [Tensor]: output slot [value_index] of a node. *)
Record Tensor : Type := mkTensor { t_node : NodeRef; value_index : nat }.

Definition DType := nat.
Definition Shape := option (list (option nat)).

(** Typed attribute values of the wire format. *)
Inductive AttrValue : Type :=
| AttrS (s : string)
| AttrListS (l : list string)
| AttrMsg (repr : string).

Record Node : Type := mkNode {
  node_graph : GraphId;
  id_in_graph : nat;
  node_name : string;
  op_type : string;
  device : string;
  attrs : dict string AttrValue;
  inputs : list Tensor;
  control_inputs : list NodeRef;
  output_types : list (DType * Shape)
}.

Definition NodeRef_eqb (a b : NodeRef) : bool :=
  (ref_graph a =? ref_graph b)%nat && (ref_name a =? ref_name b)%string.

Definition Tensor_eqb (a b : Tensor) : bool :=
  NodeRef_eqb (t_node a) (t_node b) && (value_index a =? value_index b)%nat.

Definition node_ref (n : Node) : NodeRef := mkNodeRef (node_graph n) (node_name n).

(** [n.outputs]: one tensor per output slot. *)
Definition outputs (n : Node) : list Tensor :=
  map (mkTensor (node_ref n)) (seq 0 (List.length (output_types n))).

(** [n.get_attr_keys()] and [n.get_attr(key)] *)
Definition get_attr_keys (n : Node) : list string := dict_keys (attrs n).
Definition get_attr (n : Node) (key : string) : option AttrValue :=
  dict_get String.eqb (attrs n) key.

(** The values handed to the lookups and handlers of [transform.py]: [None],
    a node, a tensor or a plain string. *)
Inductive Val : Type :=
| VNone
| VNode (n : NodeRef)
| VTensor (t : Tensor)
| VStr (s : string).

(** [node.Node(g, id, name=name, op_name=op_name)]: a new, empty node. *)
Definition Node_init (g : GraphId) (id : nat) (name op_name : string) : Node :=
  mkNode g id name op_name "" [] [] [] [].

(* ------------------------------------------------------------------ *)
(** ** pge/graph.py: class Graph *)

(** An entry of the frame stack: [None] (the root frame) or the value of a
    [frame_name] attribute. *)
Definition FrameName := option AttrValue.

Definition AttrValue_eqb (a b : AttrValue) : bool :=
  match a, b with
  | AttrS x, AttrS y => (x =? y)%string
  | AttrListS x, AttrListS y =>
      if list_eq_dec string_dec x y then true else false
  | AttrMsg x, AttrMsg y => (x =? y)%string
  | _, _ => false
  end.

Definition FrameName_eqb (a b : FrameName) : bool :=
  match a, b with
  | None, None => true
  | Some x, Some y => AttrValue_eqb x y
  | _, _ => false
  end.

Record Graph : Type := mkGraph {
  graph_id : GraphId;
  _version : nat;
  _frozen : bool;
  _next_id : nat;
  _node_name_to_node : dict string Node;
  _node_to_frame_names : option (dict NodeRef (list FrameName));
  _frame_name_to_nodes : option (dict FrameName (list Node));
  _collections : dict string (list Val)
}.

(** [Graph()] with no wire record: the empty graph. *)
Definition Graph_init (gid : GraphId) : Graph :=
  mkGraph gid 0 false 1 [] None None [].

Definition set_version (v : nat) (g : Graph) : Graph :=
  mkGraph (graph_id g) v (_frozen g) (_next_id g) (_node_name_to_node g)
          (_node_to_frame_names g) (_frame_name_to_nodes g) (_collections g).
Definition set_frozen (b : bool) (g : Graph) : Graph :=
  mkGraph (graph_id g) (_version g) b (_next_id g) (_node_name_to_node g)
          (_node_to_frame_names g) (_frame_name_to_nodes g) (_collections g).
Definition set_next_id (i : nat) (g : Graph) : Graph :=
  mkGraph (graph_id g) (_version g) (_frozen g) i (_node_name_to_node g)
          (_node_to_frame_names g) (_frame_name_to_nodes g) (_collections g).
Definition set_node_name_to_node (d : dict string Node) (g : Graph) : Graph :=
  mkGraph (graph_id g) (_version g) (_frozen g) (_next_id g) d
          (_node_to_frame_names g) (_frame_name_to_nodes g) (_collections g).
Definition set_frame_tables
  (a : option (dict NodeRef (list FrameName)))
  (b : option (dict FrameName (list Node))) (g : Graph) : Graph :=
  mkGraph (graph_id g) (_version g) (_frozen g) (_next_id g)
          (_node_name_to_node g) a b (_collections g).

Definition GM := M Graph.

(** [contains_node]: exact string match on the keys. *)
Definition contains_node (name : string) : GM bool :=
  gets (fun g => Str.mem name (dict_keys (_node_name_to_node g))).

(** [__getitem__] for a string key. *)
Definition getitem (name : string) : GM Node :=
  c <- contains_node name ;;
  if c then
    o <- gets (fun g => dict_get String.eqb (_node_name_to_node g) name) ;;
    match o with Some n => ret n | None => raise KeyError end
  else raise (ValueError ("No node '" ++ name ++ "' found in graph")%string).

(** [_name_in_use]: [name.lower() in [k.lower() for k in keys]] *)
Definition name_in_use (g : Graph) (name : string) : bool :=
  Str.mem (Str.lower name)
          (map Str.lower (dict_keys (_node_name_to_node g))).
Definition _name_in_use (name : string) : GM bool :=
  gets (fun g => name_in_use g name).

(** The [while] loop of [unique_name], entered with counter [i]; [fuel]
    bounds the number of tests of the loop condition. *)
Fixpoint unique_name_loop (g : Graph) (name : string) (fuel i : nat)
  : outcome string :=
  match fuel with
  | 0 => OutOfFuel
  | S fuel' =>
      let new_name := Str.format_name_i name i in
      if name_in_use g new_name
      then unique_name_loop g name fuel' (i + 1)
      else Return new_name
  end.

(** One more test than there are names in the table always suffices
    (see [unique_name_loop_returns]). *)
Definition unique_name_fuel (g : Graph) : nat :=
  S (List.length (_node_name_to_node g)).

Definition unique_name_of (g : Graph) (name : string) : outcome string :=
  if negb (name_in_use g name) then Return name
  else unique_name_loop g name (unique_name_fuel g) 1.

Definition unique_name (name : string) : GM string :=
  fun g => (unique_name_of g name, g).

(** [nodes]: the values of the table, in insertion order. *)
Definition nodes (g : Graph) : list Node := dict_values (_node_name_to_node g).

(** [version], [frozen] and its setter *)
Definition version : GM nat := gets _version.
Definition frozen : GM bool := gets _frozen.
Definition frozen_set (value : bool) : GM unit := modify (set_frozen value).

(** [increment_version_counter] *)
Definition increment_version_counter : GM unit :=
  f <- frozen ;;
  if f then raise (RuntimeError "Detected a change to a frozen graph")
  else
    modify (fun g => set_version (_version g + 1) g) ;;;
    modify (set_frame_tables None None).

(** [get_collection] and [get_all_collection_keys] *)
Definition get_collection (name : string) : GM (list Val) :=
  o <- gets (fun g => dict_get String.eqb (_collections g) name) ;;
  match o with Some c => ret c | None => raise KeyError end.
Definition get_all_collection_keys : GM (list string) :=
  gets (fun g => dict_keys (_collections g)).

(** [_get_next_id] *)
Definition _get_next_id : GM nat :=
  r <- gets _next_id ;;
  modify (set_next_id (r + 1)) ;;;
  ret r.

(** [add_node] *)
Definition add_node (name op_name : string) (uniquify_name : bool) : GM Node :=
  name <- (if uniquify_name then unique_name name
           else
             u <- _name_in_use name ;;
             if u then
               raise (ValueError ("Graph already contains a node with name '"
                        ++ name
                        ++ "' (Note that this check is case-insensitive).")%string)
             else ret name) ;;
  id <- _get_next_id ;;
  gid <- gets graph_id ;;
  let r := Node_init gid id name op_name in
  modify (fun g =>
            set_node_name_to_node
              (dict_set String.eqb (_node_name_to_node g) name r) g) ;;;
  increment_version_counter ;;;
  ret r.

(* ------------------------------------------------------------------ *)
(** ** pge/graph.py: control-flow frame analysis *)

Definition _FRAME_NAME_ATTR : string := "frame_name".

(** Modelled from the spec: [Tensor.consumers()] of [pge/tensor.py], which is
    not among the sources: the consumer nodes of a tensor, found by scanning
    every node of the owning graph for a reference to it in its input list. *)
Definition consumers (g : Graph) (t : Tensor) : list Node :=
  filter (fun n => existsb (Tensor_eqb t) (inputs n)) (nodes g).

(** The nodes met by the two nested [for] loops that end one iteration of the
    search, in the order they are met. *)
Definition successors (g : Graph) (cur_node : Node) : list Node :=
  flat_map (consumers g) (outputs cur_node).

(** A value can be a dictionary key only if it is hashable: [None] and
    strings are, lists and protocol messages are not. *)
Definition hashable (f : FrameName) : bool :=
  match f with
  | None => true
  | Some (AttrS _) => true
  | Some _ => false
  end.

(** The local variables of [_generate_node_to_frame_name]. *)
Record FrameSearch : Type := mkFrameSearch {
  queue : list Node;
  visited : list NodeRef;
  frame_name_stack : list FrameName;
  frame_name_tuple : list FrameName;
  new_node_to_frame_names : dict NodeRef (list FrameName);
  new_frame_name_to_nodes : dict FrameName (list Node)
}.

(** [d.setdefault(frame_name, []).append(cur_node)] *)
Definition setdefault_append
  (d : dict FrameName (list Node)) (f : FrameName) (n : Node)
  : dict FrameName (list Node) :=
  match dict_get FrameName_eqb d f with
  | Some l => dict_set FrameName_eqb d f (l ++ [n])
  | None => dict_set FrameName_eqb d f [n]
  end.

(** [for frame_name in frame_name_stack: ...setdefault(...).append(cur_node)] *)
Fixpoint record_frames (stack : list FrameName) (n : Node)
  (d : dict FrameName (list Node)) : outcome (dict FrameName (list Node)) :=
  match stack with
  | [] => Return d
  | f :: rest =>
      if hashable f then record_frames rest n (setdefault_append d f n)
      else Raise (TypeError "unhashable type")
  end.

(** [if out_node not in visited: queue.append(out_node); visited.add(out_node)] *)
Definition enqueue (qv : list Node * list NodeRef) (out_node : Node)
  : list Node * list NodeRef :=
  if existsb (NodeRef_eqb (node_ref out_node)) (snd qv) then qv
  else (fst qv ++ [out_node], snd qv ++ [node_ref out_node]).

(** The stack update at the head of one iteration. *)
Definition update_stack (cur_node : Node) (stack tuple : list FrameName)
  : outcome (list FrameName * list FrameName) :=
  if Str.mem (op_type cur_node) ["Enter"; "RefEnter"] then
    if negb (Str.mem _FRAME_NAME_ATTR (get_attr_keys cur_node)) then
      Raise (ValueError ("Node " ++ node_name cur_node ++ " is of op type "
                           ++ op_type cur_node
                           ++ " but does not have a value for its "
                           ++ _FRAME_NAME_ATTR ++ " attribute")%string)
    else
      match get_attr cur_node _FRAME_NAME_ATTR with
      | Some v => let stack' := stack ++ [Some v] in Return (stack', stack')
      | None => Raise KeyError
      end
  else if Str.mem (op_type cur_node) ["Exit"; "RefExit"] then
    match stack with
    | [] => Raise IndexError
    | _ :: _ => let stack' := removelast stack in Return (stack', stack')
    end
  else Return (stack, tuple).

(** One iteration of the [while] loop, after [cur_node = queue.pop(0)]. *)
Definition frame_search_body (g : Graph) (cur_node : Node) (st : FrameSearch)
  : outcome FrameSearch :=
  match update_stack cur_node (frame_name_stack st) (frame_name_tuple st) with
  | Return (stack, tuple) =>
      let n2f := dict_set NodeRef_eqb (new_node_to_frame_names st)
                          (node_ref cur_node) tuple in
      match record_frames stack cur_node (new_frame_name_to_nodes st) with
      | Return f2n =>
          let qv := fold_left enqueue (successors g cur_node)
                              (queue st, visited st) in
          Return (mkFrameSearch (fst qv) (snd qv) stack tuple n2f f2n)
      | Raise e => Raise e
      | OutOfFuel => OutOfFuel
      end
  | Raise e => Raise e
  | OutOfFuel => OutOfFuel
  end.

(** The [while len(queue) > 0] loop; [fuel] bounds the number of tests of its
    condition. *)
Fixpoint frame_search_loop (g : Graph) (fuel : nat) (st : FrameSearch)
  : outcome FrameSearch :=
  match fuel with
  | 0 => OutOfFuel
  | S fuel' =>
      match queue st with
      | [] => Return st
      | cur_node :: rest =>
          match frame_search_body g cur_node
                  (mkFrameSearch rest (visited st) (frame_name_stack st)
                     (frame_name_tuple st) (new_node_to_frame_names st)
                     (new_frame_name_to_nodes st)) with
          | Return st' => frame_search_loop g fuel' st'
          | Raise e => Raise e
          | OutOfFuel => OutOfFuel
          end
      end
  end.

(** The state on entry to the loop: the queue holds the nodes without data
    inputs, the stack holds the root frame, the tuple is empty. *)
Definition frame_search_init (g : Graph) : FrameSearch :=
  let q := filter (fun n => (0 =? List.length (inputs n))%nat) (nodes g) in
  mkFrameSearch q (map node_ref q) [None] [] [] [].

(** Every node is dequeued at most once, so one test per node and a last one
    on the empty queue suffice (see [frame_search_loop_terminates]). *)
Definition frame_search_fuel (g : Graph) : nat := S (List.length (nodes g)).

Definition frame_search (g : Graph) : outcome FrameSearch :=
  frame_search_loop g (frame_search_fuel g) (frame_search_init g).

(** [_generate_node_to_frame_name] *)
Definition _generate_node_to_frame_name : GM unit :=
  fun g =>
    match frame_search g with
    | Return st =>
        (Return tt,
         set_frame_tables (Some (new_node_to_frame_names st))
                          (Some (new_frame_name_to_nodes st)) g)
    | Raise e => (Raise e, g)
    | OutOfFuel => (OutOfFuel, g)
    end.

Definition ensure_frame_tables : GM unit :=
  c <- gets _node_to_frame_names ;;
  match c with
  | None => _generate_node_to_frame_name
  | Some _ => ret tt
  end.

Definition none_not_subscriptable : Exn :=
  TypeError "'NoneType' object is not subscriptable".

(** [node_to_frame_names] *)
Definition node_to_frame_names (n : Node) : GM (list FrameName) :=
  ensure_frame_tables ;;;
  c <- gets _node_to_frame_names ;;
  match c with
  | Some d =>
      match dict_get NodeRef_eqb d (node_ref n) with
      | Some t => ret t
      | None => raise KeyError
      end
  | None => raise none_not_subscriptable
  end.

(** [frame_name_to_nodes] *)
Definition frame_name_to_nodes (frame_name : FrameName) : GM (list Node) :=
  ensure_frame_tables ;;;
  c <- gets _frame_name_to_nodes ;;
  match c with
  | Some d =>
      if hashable frame_name then
        match dict_get FrameName_eqb d frame_name with
        | Some t => ret t
        | None => raise KeyError
        end
      else raise (TypeError "unhashable type")
  | None => raise none_not_subscriptable
  end.

(** [get_frame_names] *)
Definition get_frame_names : GM (list FrameName) :=
  ensure_frame_tables ;;;
  c <- gets _frame_name_to_nodes ;;
  match c with
  | Some d => ret (dict_keys d)
  | None => raise (TypeError "'NoneType' object has no attribute 'keys'")
  end.

(** [tensors]: the output tensors of every node. *)
Definition tensors : GM (list Tensor) :=
  gets (fun g => flat_map outputs (nodes g)).

(** The operations of [Graph] that [graph.py] defines without going through
    the methods of [Node]. *)
Inductive GraphOp : Type :=
| Op_getitem (name : string)
| Op_contains_node (name : string)
| Op_add_node (name op_name : string) (uniquify_name : bool)
| Op_name_in_use (name : string)
| Op_unique_name (name : string)
| Op_nodes
| Op_tensors
| Op_version
| Op_frozen
| Op_frozen_set (value : bool)
| Op_increment_version_counter
| Op_get_collection (name : string)
| Op_get_all_collection_keys
| Op_get_next_id
| Op_node_to_frame_names (n : Node)
| Op_frame_name_to_nodes (frame_name : FrameName)
| Op_get_frame_names
| Op_generate_node_to_frame_name.

Definition discard {A} (m : GM A) : GM unit := m ;;; ret tt.

Definition run_op (op : GraphOp) : GM unit :=
  match op with
  | Op_getitem name => discard (getitem name)
  | Op_contains_node name => discard (contains_node name)
  | Op_add_node name op_name u => discard (add_node name op_name u)
  | Op_name_in_use name => discard (_name_in_use name)
  | Op_unique_name name => discard (unique_name name)
  | Op_nodes => discard (gets nodes)
  | Op_tensors => discard tensors
  | Op_version => discard version
  | Op_frozen => discard frozen
  | Op_frozen_set value => frozen_set value
  | Op_increment_version_counter => increment_version_counter
  | Op_get_collection name => discard (get_collection name)
  | Op_get_all_collection_keys => discard get_all_collection_keys
  | Op_get_next_id => discard _get_next_id
  | Op_node_to_frame_names n => discard (node_to_frame_names n)
  | Op_frame_name_to_nodes f => discard (frame_name_to_nodes f)
  | Op_get_frame_names => discard get_frame_names
  | Op_generate_node_to_frame_name => _generate_node_to_frame_name
  end.

(** By how much an operation that returns moves the version counter. *)
Definition version_step (op : GraphOp) : nat :=
  match op with
  | Op_add_node _ _ _ => 1
  | Op_increment_version_counter => 1
  | _ => 0
  end.

(** The operations other than [add_node]. *)
Definition is_add_node (op : GraphOp) : bool :=
  match op with Op_add_node _ _ _ => true | _ => false end.

(* ------------------------------------------------------------------ *)
(** ** Methods of [Node] that the graph and the transformer call

    [node.py] is not among the sources. A [Node] object lives in the table
    of its graph; a method of the node is a method of the graph that rewrites
    the entry of that node. *)

(** Rewrite the entry stored under [name]. *)
Definition update_node (name : string) (f : Node -> Node) : GM unit :=
  modify (fun g =>
    set_node_name_to_node
      (map (fun kv => if (fst kv =? name)%string then (fst kv, f (snd kv))
                      else kv)
           (_node_name_to_node g)) g).

Definition with_device (d : string) (n : Node) : Node :=
  mkNode (node_graph n) (id_in_graph n) (node_name n) (op_type n) d
         (attrs n) (inputs n) (control_inputs n) (output_types n).
Definition with_attrs (a : dict string AttrValue) (n : Node) : Node :=
  mkNode (node_graph n) (id_in_graph n) (node_name n) (op_type n) (device n)
         a (inputs n) (control_inputs n) (output_types n).
Definition with_inputs (i : list Tensor) (n : Node) : Node :=
  mkNode (node_graph n) (id_in_graph n) (node_name n) (op_type n) (device n)
         (attrs n) i (control_inputs n) (output_types n).
Definition with_control_inputs (c : list NodeRef) (n : Node) : Node :=
  mkNode (node_graph n) (id_in_graph n) (node_name n) (op_type n) (device n)
         (attrs n) (inputs n) c (output_types n).
Definition with_output_types (o : list (DType * Shape)) (n : Node) : Node :=
  mkNode (node_graph n) (id_in_graph n) (node_name n) (op_type n) (device n)
         (attrs n) (inputs n) (control_inputs n) o.

(** Modelled from the spec: the setters of [Node] (set the device, clear and
    add attributes, set the data inputs, replace one input, set the outputs
    from (dtype, shape) pairs), which [node.py] would define. Rewiring the data
    inputs is a structural mutation and goes through the version counter; the
    attribute and device setters do not ([add_node_from_node_def] relies on
    the increment that [add_node] has made). *)
Definition Node_set_device (name d : string) : GM unit :=
  update_node name (with_device d).
Definition Node_clear_attrs (name : string) : GM unit :=
  update_node name (with_attrs []).
Definition Node_add_attr (name key : string) (v : AttrValue) : GM unit :=
  update_node name (fun n => with_attrs (dict_set String.eqb (attrs n) key v) n).
Definition Node_set_inputs (name : string) (new_inputs : list Tensor) : GM unit :=
  update_node name (with_inputs new_inputs) ;;;
  increment_version_counter.
Definition Node_set_outputs_from_pairs
  (name : string) (pairs : list (DType * Shape)) : GM unit :=
  update_node name (with_output_types pairs).

(** [l[i] = x] on a list; out of range raises [IndexError]. *)
Fixpoint list_assign {A} (l : list A) (i : nat) (x : A) : outcome (list A) :=
  match l, i with
  | [], _ => Raise IndexError
  | _ :: l', 0 => Return (x :: l')
  | y :: l', S i' =>
      match list_assign l' i' x with
      | Return r => Return (y :: r)
      | Raise e => Raise e
      | OutOfFuel => OutOfFuel
      end
  end.

(** The live node behind a key of this graph. *)
Definition lookup_node (name : string) : GM Node :=
  o <- gets (fun g => dict_get String.eqb (_node_name_to_node g) name) ;;
  match o with Some n => ret n | None => raise KeyError end.

Definition Node_replace_input (name : string) (index : nat) (t : Tensor)
  : GM unit :=
  n <- lookup_node name ;;
  new_inputs <- lift (list_assign (inputs n) index t) ;;
  update_node name (with_inputs new_inputs) ;;;
  increment_version_counter.

(** The wire record of one node. *)
Record NodeDef : Type := mkNodeDef {
  nd_name : string;
  nd_op : string;
  nd_device : string;
  nd_attr : dict string AttrValue;
  nd_input : list string
}.

Definition nd_with_name (name : string) (d : NodeDef) : NodeDef :=
  mkNodeDef name (nd_op d) (nd_device d) (nd_attr d) (nd_input d).
Definition nd_with_attr (a : dict string AttrValue) (d : NodeDef) : NodeDef :=
  mkNodeDef (nd_name d) (nd_op d) (nd_device d) a (nd_input d).

(** ["name:index"], the name of a tensor and the wire form of a data input. *)
Definition Tensor_name (t : Tensor) : string :=
  (ref_name (t_node t) ++ ":" ++ Str.of_nat (value_index t))%string.

(** Modelled from the spec: [Node.to_node_def()], the wire record of a node:
    its name, operation type, device, attribute mapping (the co-location
    attribute [_class] among them, a list of [loc:@name] strings) and its
    inputs as strings, a control input marked by [^]. *)
Definition to_node_def (n : Node) : NodeDef :=
  mkNodeDef (node_name n) (op_type n) (device n) (attrs n)
            (map Tensor_name (inputs n)
             ++ map (fun c => ("^" ++ ref_name c)%string) (control_inputs n)).

(** [for x in l: body x] *)
Fixpoint forM_ {S A} (l : list A) (body : A -> M S unit) : M S unit :=
  match l with
  | [] => ret tt
  | x :: l' => body x ;;; forM_ l' body
  end.

(** [[f x for x in l]] *)
Fixpoint mapM {S A B} (f : A -> M S B) (l : list A) : M S (list B) :=
  match l with
  | [] => ret []
  | x :: l' => y <- f x ;; ys <- mapM f l' ;; ret (y :: ys)
  end.

(** [add_node_from_node_def] (the second definition in the class body, which
    replaces the first). [set_inputs_from_strings] is the parser of wire
    inputs of [node.py], taken as a parameter. *)
Definition add_node_from_node_def
  (set_inputs_from_strings : string -> list string -> bool -> GM unit)
  (node_def : NodeDef) (set_inputs set_control_inputs : bool) : GM Node :=
  if set_control_inputs && negb set_inputs then
    raise (ValueError "set_inputs must be True if set_control_inputs is True")
  else
    r <- add_node (nd_name node_def) (nd_op node_def) true ;;
    (if set_inputs
     then set_inputs_from_strings (node_name r) (nd_input node_def)
                                  set_control_inputs
     else ret tt) ;;;
    Node_set_device (node_name r) (nd_device node_def) ;;;
    Node_clear_attrs (node_name r) ;;;
    forM_ (nd_attr node_def)
          (fun kv => Node_add_attr (node_name r) (fst kv) (snd kv)) ;;;
    lookup_node (node_name r).

(* ------------------------------------------------------------------ *)
(** ** The object world of the transformer *)

(** Every [Graph] object, by identity. *)
Definition World := GraphId -> Graph.

Definition world_set (w : World) (gid : GraphId) (g : Graph) : World :=
  fun i => if (i =? gid)%nat then g else w i.

Definition WM := M World.

(** Run a method of the graph [gid]. *)
Definition on_graph {A} (gid : GraphId) (m : GM A) : WM A :=
  fun w => let r := m (w gid) in (fst r, world_set w gid (snd r)).

(** Read the graph [gid] without touching it. *)
Definition read_graph {A} (gid : GraphId) (f : Graph -> A) : WM A :=
  gets (fun w => f (w gid)).

(** The live node behind a reference. *)
Definition deref (r : NodeRef) : WM Node :=
  o <- read_graph (ref_graph r)
         (fun g => dict_get String.eqb (_node_name_to_node g) (ref_name r)) ;;
  match o with Some n => ret n | None => raise KeyError end.

(* ------------------------------------------------------------------ *)
(** ** Trees of values *)

(** An argument that is one value, a sequence or a mapping, nested at will. *)
#[warnings="-register-all"] Inductive Tree : Type :=
| Leaf (v : Val)
| Seq (l : list Tree)
| Mapping (l : list (string * Tree)).

(** [_flatten_tree(tree, leaves)] *)
Fixpoint _flatten_tree (tree : Tree) (leaves : list Val) : list Val :=
  match tree with
  | Mapping l =>
      fold_left (fun acc kv => match kv with (_, child) => _flatten_tree child acc end)
                l leaves
  | Seq l => fold_left (fun acc child => _flatten_tree child acc) l leaves
  | Leaf v => leaves ++ [v]
  end.

(** Modelled from the spec: [util.transform_tree], which applies a function
    to every leaf of a nested structure and mirrors the structure in its
    result. *)
Fixpoint transform_tree (tree : Tree) (fn : Val -> outcome Val) : outcome Tree :=
  match tree with
  | Leaf v =>
      match fn v with
      | Return r => Return (Leaf r)
      | Raise e => Raise e
      | OutOfFuel => OutOfFuel
      end
  | Seq l =>
      match
        (fix go (l : list Tree) : outcome (list Tree) :=
           match l with
           | [] => Return []
           | child :: l' =>
               match transform_tree child fn with
               | Return c =>
                   match go l' with
                   | Return cs => Return (c :: cs)
                   | Raise e => Raise e
                   | OutOfFuel => OutOfFuel
                   end
               | Raise e => Raise e
               | OutOfFuel => OutOfFuel
               end
           end) l
      with
      | Return cs => Return (Seq cs)
      | Raise e => Raise e
      | OutOfFuel => OutOfFuel
      end
  | Mapping l =>
      match
        (fix go (l : list (string * Tree)) : outcome (list (string * Tree)) :=
           match l with
           | [] => Return []
           | (k, child) :: l' =>
               match transform_tree child fn with
               | Return c =>
                   match go l' with
                   | Return cs => Return ((k, c) :: cs)
                   | Raise e => Raise e
                   | OutOfFuel => OutOfFuel
                   end
               | Raise e => Raise e
               | OutOfFuel => OutOfFuel
               end
           end) l
      with
      | Return cs => Return (Mapping cs)
      | Raise e => Raise e
      | OutOfFuel => OutOfFuel
      end
  end.

(* ------------------------------------------------------------------ *)
(** ** transform.py: TransformerInfo *)

Definition _COLOCATION_ATTR_NAME : string := "_class".
Definition _COLOCATION_PREFIX : string := "loc:@".

Record TransformerInfo : Type := mkTransformerInfo {
  ti_graph : GraphId;
  ti_scope : string;
  ti_graph_ : GraphId;
  ti_scope_ : string;
  _transformed_ops : dict NodeRef NodeRef;
  _transformed_ts : dict Tensor Tensor
}.

Definition Val_eqb (a b : Val) : bool :=
  match a, b with
  | VNone, VNone => true
  | VNode x, VNode y => NodeRef_eqb x y
  | VTensor x, VTensor y => Tensor_eqb x y
  | VStr x, VStr y => (x =? y)%string
  | _, _ => false
  end.

(** [x.name] for a node or a tensor. *)
Definition Val_name (v : Val) : outcome string :=
  match v with
  | VNode n => Return (ref_name n)
  | VTensor t => Return (Tensor_name t)
  | _ => Raise (TypeError "object has no attribute 'name'")
  end.

Definition ops_as_vals (d : dict NodeRef NodeRef) : dict Val Val :=
  map (fun kv => (VNode (fst kv), VNode (snd kv))) d.
Definition ts_as_vals (d : dict Tensor Tensor) : dict Val Val :=
  map (fun kv => (VTensor (fst kv), VTensor (snd kv))) d.

(** [_get_transformed_map] *)
Definition _get_transformed_map (self : TransformerInfo) (top : Val)
  : outcome (dict Val Val) :=
  match top with
  | VNode _ => Return (ops_as_vals (_transformed_ops self))
  | VTensor _ => Return (ts_as_vals (_transformed_ts self))
  | _ => Raise (TypeError "Expected a gde.Tensor or a gde.Node")
  end.

Definition is_string (v : Val) : bool :=
  match v with VStr _ => true | _ => false end.

(** [return None if missing_fn is None else missing_fn(x)] *)
Definition on_missing (missing_fn : option (Val -> outcome Val)) (x : Val)
  : outcome Val :=
  match missing_fn with
  | None => Return VNone
  | Some f => f x
  end.

(** The linear scan [for original, transformed in iteritems(map): if
    original.name == top: return transformed] *)
Fixpoint scan_by_original_name (d : dict Val Val) (top : Val) : option Val :=
  match d with
  | [] => None
  | (original, transformed) :: d' =>
      match Val_name original with
      | Return nm =>
          if Val_eqb (VStr nm) top then Some transformed
          else scan_by_original_name d' top
      | _ => scan_by_original_name d' top
      end
  end.

(** [_transformed_elem] *)
Definition _transformed_elem (self : TransformerInfo) (original_top : Val)
  (missing_fn : option (Val -> outcome Val)) : outcome Val :=
  match _get_transformed_map self original_top with
  | Return transformed_map =>
      if is_string original_top then
        match scan_by_original_name transformed_map original_top with
        | Some transformed => Return transformed
        | None => on_missing missing_fn original_top
        end
      else
        if negb (dict_mem Val_eqb transformed_map original_top) then
          on_missing missing_fn original_top
        else
          match dict_get Val_eqb transformed_map original_top with
          | Some transformed => Return transformed
          | None => Raise KeyError
          end
  | Raise e => Raise e
  | OutOfFuel => OutOfFuel
  end.

(** The scan of [_original_elem]. *)
Fixpoint scan_for_original (d : dict Val Val) (check_name : bool) (top : Val)
  : option Val :=
  match d with
  | [] => None
  | (original, transformed) :: d' =>
      if (check_name
          && match Val_name transformed with
             | Return nm => Val_eqb (VStr nm) top
             | _ => false
             end)
         || (negb check_name && Val_eqb transformed top)
      then Some original
      else scan_for_original d' check_name top
  end.

(** [_original_elem] *)
Definition _original_elem (self : TransformerInfo) (transformed_top : Val)
  (missing_fn : option (Val -> outcome Val)) : outcome Val :=
  match _get_transformed_map self transformed_top with
  | Return transformed_map =>
      let check_name := is_string transformed_top in
      match scan_for_original transformed_map check_name transformed_top with
      | Some original => Return original
      | None => on_missing missing_fn transformed_top
      end
  | Raise e => Raise e
  | OutOfFuel => OutOfFuel
  end.

(** [transformed] and [original] *)
Definition transformed (self : TransformerInfo) (original : Tree)
  (missing_fn : option (Val -> outcome Val)) : outcome Tree :=
  transform_tree original (fun x => _transformed_elem self x missing_fn).

Definition original (self : TransformerInfo) (transformed : Tree)
  (missing_fn : option (Val -> outcome Val)) : outcome Tree :=
  transform_tree transformed (fun x => _original_elem self x missing_fn).

(* ------------------------------------------------------------------ *)
(** ** transform.py: views, working state and what comes from elsewhere *)

(** A region of a graph: its interior nodes and its ordered boundary. *)
Record SubGraphView : Type := mkSubGraphView {
  sgv_graph : GraphId;
  sgv_ops : list Node;
  sgv_inputs : list Tensor;
  sgv_outputs : list Tensor
}.

(** What [subgraph.make_view] accepts here: a view, or a list of nodes. *)
Inductive ViewArg : Type :=
| OfView (v : SubGraphView)
| OfNodes (ops : list Node).

(** Modelled from the spec: [util.ControlOutputs], the reverse index from a
    node to the nodes that declare it as a control input. *)
Definition ControlOutputs (g : Graph) : dict NodeRef (list Node) :=
  fold_left
    (fun d n =>
       fold_left
         (fun d c =>
            match dict_get NodeRef_eqb d c with
            | Some l => dict_set NodeRef_eqb d c (l ++ [n])
            | None => dict_set NodeRef_eqb d c [n]
            end)
         (control_inputs n) d)
    (nodes g) [].

(** The functions of [util], [subgraph], [select], [node] and of the graph
    of [graph_def_editor] that [transform.py] calls and that are not among
    the sources. The readers are pure functions of the world; the others act
    on it. *)
Record Externals : Type := mkExternals {
  scope_finalize : string -> string;
  make_view : World -> ViewArg -> outcome SubGraphView;
  SubGraphView_init : World -> list NodeRef -> outcome SubGraphView;
  make_placeholder_from_tensor : Tensor -> string -> option string -> GM Tensor;
  get_predefined_collection_names : list string;
  add_to_collection : Val -> string -> WM unit;
  infer_outputs : string -> GM unit;
  set_inputs_from_strings : string -> list string -> bool -> GM unit;
  set_control_inputs : string -> list NodeRef -> GM unit;
  get_walks_intersection_ops :
    World -> list Tensor -> list Val -> dict NodeRef (list Node) -> list Node;
  colocation_groups : Graph -> dict string (list Node)
}.

(** [_TmpInfo] *)
Record TmpInfo : Type := mkTmpInfo {
  sgv : SubGraphView;
  sgv_inputs_set : list Tensor;
  ops : list NodeRef;
  control_outputs : dict NodeRef (list Node);
  graph : GraphId;
  scope : string;
  graph_ : GraphId;
  scope_ : string;
  transformed_ops : dict NodeRef NodeRef;
  transformed_ts : dict Tensor Tensor;
  collections : dict string (list Val);
  cyclic_ops : list Node;
  tmp_cyclic_ts : list (Tensor * Tensor * Node)
}.

Definition with_transformed_ops (d : dict NodeRef NodeRef) (i : TmpInfo) : TmpInfo :=
  mkTmpInfo (sgv i) (sgv_inputs_set i) (ops i) (control_outputs i) (graph i)
            (scope i) (graph_ i) (scope_ i) d (transformed_ts i)
            (collections i) (cyclic_ops i) (tmp_cyclic_ts i).
Definition with_transformed_ts (d : dict Tensor Tensor) (i : TmpInfo) : TmpInfo :=
  mkTmpInfo (sgv i) (sgv_inputs_set i) (ops i) (control_outputs i) (graph i)
            (scope i) (graph_ i) (scope_ i) (transformed_ops i) d
            (collections i) (cyclic_ops i) (tmp_cyclic_ts i).
Definition with_tmp_cyclic_ts (l : list (Tensor * Tensor * Node)) (i : TmpInfo)
  : TmpInfo :=
  mkTmpInfo (sgv i) (sgv_inputs_set i) (ops i) (control_outputs i) (graph i)
            (scope i) (graph_ i) (scope_ i) (transformed_ops i)
            (transformed_ts i) (collections i) (cyclic_ops i) l.

(** [_TmpInfo.__init__] *)
Definition TmpInfo_init (sgv : SubGraphView) (dst_graph : GraphId)
  (dst_scope src_scope : string) : WM TmpInfo :=
  control_outputs <- read_graph (sgv_graph sgv) ControlOutputs ;;
  collections <- read_graph (sgv_graph sgv) _collections ;;
  ret (mkTmpInfo sgv (sgv_inputs sgv) (map node_ref (sgv_ops sgv))
                 control_outputs (sgv_graph sgv) src_scope dst_graph dst_scope
                 [] [] collections [] []).

(** [_TmpInfo.new_name] *)
Definition new_name (self : TmpInfo) (name : string) : outcome string :=
  let scope := scope self in
  if negb (Str.startswith name scope) then
    Raise (ValueError (name ++ " does not belong to source scope: "
                            ++ scope ++ ".")%string)
  else
    let rel_name := Str.drop (String.length scope) name in
    Return (scope_ self ++ rel_name)%string.

(** The handlers of a [Transformer]: each reads the working state and acts on
    the object world. *)
Record Transformer : Type := mkTransformer {
  transform_op_handler :
    TmpInfo -> Node -> list Tensor -> WM (NodeRef * list Tensor);
  transform_control_input_handler : TmpInfo -> NodeRef -> WM (option NodeRef);
  assign_collections_handler : TmpInfo -> Val -> Val -> WM unit;
  transform_external_input_handler : TmpInfo -> Tensor -> WM Tensor;
  transform_external_hidden_input_handler : TmpInfo -> Tensor -> WM Tensor;
  transform_original_op_handler : TmpInfo -> NodeRef -> WM (option NodeRef)
}.

(** The working state of one call and the object world, side by side. *)
Definition TState : Type := TmpInfo * World.
Definition TM := M TState.

Definition get_info : TM TmpInfo := gets fst.
Definition modify_info (f : TmpInfo -> TmpInfo) : TM unit :=
  modify (fun s : TState => (f (fst s), snd s)).
(** Call a handler, or anything else that only reads the working state. *)
Definition run_handler {A} (h : TmpInfo -> WM A) : TM A :=
  fun s => let r := h (fst s) (snd s) in (fst r, (fst s, snd r)).

(** [[x for _, x in sorted(...)]]: a stable sort of the nodes by
    [id_in_graph]. *)
Fixpoint insert_by_id (n : Node) (l : list Node) : list Node :=
  match l with
  | [] => [n]
  | m :: l' =>
      if (id_in_graph n <? id_in_graph m)%nat then n :: l
      else m :: insert_by_id n l'
  end.
Definition sort_by_id (l : list Node) : list Node :=
  fold_right insert_by_id [] l.

(** [l.index(x)] *)
Fixpoint index_of {A} (eqb : A -> A -> bool) (x : A) (l : list A) : option nat :=
  match l with
  | [] => None
  | y :: l' =>
      if eqb y x then Some 0
      else match index_of eqb x l' with Some i => Some (S i) | None => None end
  end.

(** [s[:-1]] *)
Fixpoint drop_last (s : string) : string :=
  match s with
  | EmptyString => EmptyString
  | String c EmptyString => EmptyString
  | String c s' => String c (drop_last s')
  end.

(** Sets of nodes and of frame names, kept as duplicate-free lists in the
    order of insertion. *)
Definition node_mem (n : Node) (l : list Node) : bool :=
  existsb (fun m => NodeRef_eqb (node_ref m) (node_ref n)) l.
Definition node_set_add (l : list Node) (n : Node) : list Node :=
  if node_mem n l then l else l ++ [n].
Definition node_set_update (l new : list Node) : list Node :=
  fold_left node_set_add new l.
Definition frame_set_update (l new : list FrameName) : list FrameName :=
  fold_left (fun acc f => if existsb (FrameName_eqb f) acc then acc else acc ++ [f])
            new l.

(* ------------------------------------------------------------------ *)
(** ** transform.py: handlers, Transformer, copy, graph_replace *)

Section Transform.

Variable X : Externals.

(** [replace_t_with_placeholder_handler] *)
Definition replace_t_with_placeholder_handler (info : TmpInfo) (t : Tensor)
  : WM Tensor :=
  on_graph (graph_ info)
           (make_placeholder_from_tensor X t (scope_ info) None).

(** [keep_t_if_possible_handler] *)
Definition keep_t_if_possible_handler (info : TmpInfo) (t : Tensor)
  : WM Tensor :=
  if (graph info =? graph_ info)%nat then ret t
  else replace_t_with_placeholder_handler info t.

(** [assign_renamed_collections_handler] *)
Definition assign_renamed_collections_handler
  (info : TmpInfo) (elem elem_ : Val) : WM unit :=
  let known_collection_names := get_predefined_collection_names X in
  forM_ (collections info)
    (fun kv =>
       let name := fst kv in
       let collection := snd kv in
       if negb (existsb (Val_eqb elem) collection) then ret tt
       else
         transformed_name <-
           (if Str.mem name known_collection_names then ret name
            else lift (new_name info name)) ;;
         match elem_ with
         | VNode _ | VTensor _ => add_to_collection X elem_ transformed_name
         | _ => raise NotImplementedError
         end).

(** [transform_op_if_inside_handler] *)
Definition transform_op_if_inside_handler
  (info : TmpInfo) (op : NodeRef) (keep_if_possible : bool)
  : WM (option NodeRef) :=
  if existsb (NodeRef_eqb op) (map node_ref (sgv_ops (sgv info))) then
    match dict_get NodeRef_eqb (transformed_ops info) op with
    | Some op_ => ret (Some op_)
    | None => raise KeyError
    end
  else
    if keep_if_possible && (graph info =? graph_ info)%nat then ret (Some op)
    else ret None.

(** The loop that rewrites the entries of a co-location list in place. *)
Fixpoint rewrite_colocation (info : TmpInfo) (cg_attr_list : list string)
  : outcome (list string) :=
  match cg_attr_list with
  | [] => Return []
  | old_cg_str :: rest =>
      let old_node_name :=
        Str.drop (String.length _COLOCATION_PREFIX) old_cg_str in
      match new_name info old_node_name with
      | Return new_node_name =>
          match rewrite_colocation info rest with
          | Return rest' =>
              Return ((_COLOCATION_PREFIX ++ new_node_name)%string :: rest')
          | Raise e => Raise e
          | OutOfFuel => OutOfFuel
          end
      | Raise e => Raise e
      | OutOfFuel => OutOfFuel
      end
  end.

(** The block [# Transform names in colocation groups.]; for an attribute
    that is not a list of strings [cg_attr.list.s] is empty and the loop
    does nothing. *)
Definition transform_colocation (info : TmpInfo) (node_def_ : NodeDef)
  : outcome NodeDef :=
  if Str.mem _COLOCATION_ATTR_NAME (dict_keys (nd_attr node_def_)) then
    match dict_get String.eqb (nd_attr node_def_) _COLOCATION_ATTR_NAME with
    | Some cg_attr =>
        match cg_attr with
        | AttrListS cg_attr_list =>
            match rewrite_colocation info cg_attr_list with
            | Return l =>
                Return (nd_with_attr
                          (dict_set String.eqb (nd_attr node_def_)
                                    _COLOCATION_ATTR_NAME (AttrListS l))
                          node_def_)
            | Raise e => Raise e
            | OutOfFuel => OutOfFuel
            end
        | _ => Return node_def_
        end
    | None => Raise KeyError
    end
  else Return node_def_.

(** [copy_op_handler] *)
Definition copy_op_handler (info : TmpInfo) (op : Node)
  (new_inputs : list Tensor) (copy_shape_and_dtype : bool)
  (nodedef_fn : option (NodeDef -> NodeDef)) : WM (NodeRef * list Tensor) :=
  let node_def_ := to_node_def op in
  name_ <- lift (new_name info (node_name op)) ;;
  name_ <- on_graph (graph_ info) (unique_name name_) ;;
  let node_def_ := nd_with_name name_ node_def_ in
  node_def_ <- lift (transform_colocation info node_def_) ;;
  let node_def_ :=
    match nodedef_fn with
    | Some f => f node_def_
    | None => node_def_
    end in
  op_ <- on_graph (graph_ info)
           (add_node_from_node_def (set_inputs_from_strings X)
                                   node_def_ false false) ;;
  on_graph (graph_ info) (Node_set_inputs (node_name op_) new_inputs) ;;;
  (if copy_shape_and_dtype
   then on_graph (graph_ info)
                 (Node_set_outputs_from_pairs (node_name op_) (output_types op))
   else on_graph (graph_ info) (infer_outputs X (node_name op_))) ;;;
  op_ <- deref (node_ref op_) ;;
  ret (node_ref op_, outputs op_).

(** [Transformer.__init__]: the default handlers. *)
Definition Transformer_init : Transformer :=
  mkTransformer
    (fun info op new_inputs => copy_op_handler info op new_inputs false None)
    (fun info op => transform_op_if_inside_handler info op true)
    assign_renamed_collections_handler
    replace_t_with_placeholder_handler
    keep_t_if_possible_handler
    (fun info op => transform_op_if_inside_handler info op true).

Variable self : Transformer.

(** [_transformed_t]; [fuel] bounds the depth of the recursion through
    [Merge] consumers and [Enter] producers. *)
Fixpoint _transformed_t (fuel : nat) (t : Tensor) (consumer_op : Node)
  : TM Tensor :=
  match fuel with
  | 0 => lift OutOfFuel
  | S fuel' =>
      info <- get_info ;;
      match dict_get Tensor_eqb (transformed_ts info) t with
      | Some t_ => ret t_
      | None =>
          if existsb (Tensor_eqb t) (sgv_inputs_set info) then
            run_handler (fun info => transform_external_input_handler self info t)
          else
            match find (fun n => NodeRef_eqb (node_ref n) (t_node t))
                       (sgv_ops (sgv info)) with
            | Some t_node_ =>
                tmp_t_ <-
                  (if (op_type consumer_op =? "Merge")%string then
                     match inputs consumer_op with
                     | first_input :: _ =>
                         _transformed_t fuel' first_input consumer_op
                     | [] => raise IndexError
                     end
                   else if (op_type t_node_ =? "Enter")%string then
                     match inputs t_node_ with
                     | enter_input :: _ =>
                         _transformed_t fuel' enter_input consumer_op
                     | [] => raise IndexError
                     end
                   else
                     run_handler (fun info =>
                       on_graph (graph_ info)
                         (make_placeholder_from_tensor X t (scope_ info)
                                                       (Some "geph_tmp")))) ;;
                modify_info (fun info =>
                  with_tmp_cyclic_ts
                    (tmp_cyclic_ts info ++ [(t, tmp_t_, consumer_op)]) info) ;;;
                ret tmp_t_
            | None =>
                run_handler (fun info =>
                  transform_external_hidden_input_handler self info t)
            end
      end
  end.

(** A recursion that ends visits each interior node at most once. *)
Definition transformed_t_fuel (info : TmpInfo) : nat :=
  S (S (List.length (sgv_ops (sgv info)))).

(** The body of the loop of [_copy_ops], for one node. *)
Definition copy_op (op : Node) : TM unit :=
  info <- get_info ;;
  new_inputs <- mapM (fun t => _transformed_t (transformed_t_fuel info) t op)
                     (inputs op) ;;
  r <- run_handler (fun info => transform_op_handler self info op new_inputs) ;;
  let op_ := fst r in
  let op_outputs_ := snd r in
  if NodeRef_eqb (node_ref op) op_ then
    raise (ValueError "In-place transformation not allowed.")
  else
    modify_info (fun info =>
      with_transformed_ops
        (dict_set NodeRef_eqb (transformed_ops info) (node_ref op) op_) info) ;;;
    run_handler (fun info =>
      assign_collections_handler self info (VNode (node_ref op)) (VNode op_)) ;;;
    forM_ (combine (outputs op) op_outputs_)
      (fun oo =>
         modify_info (fun info =>
           with_transformed_ts
             (dict_set Tensor_eqb (transformed_ts info) (fst oo) (snd oo))
             info) ;;;
         run_handler (fun info =>
           assign_collections_handler self info
             (VTensor (fst oo)) (VTensor (snd oo)))).

(** [_copy_ops] *)
Definition _copy_ops : TM unit :=
  info <- get_info ;;
  let sorted_ops := sort_by_id (sgv_ops (sgv info)) in
  forM_ sorted_ops copy_op.

(** [_finalize_cycles] *)
Definition _finalize_cycles : TM unit :=
  info <- get_info ;;
  forM_ (tmp_cyclic_ts info)
    (fun triple =>
       let t := fst (fst triple) in
       let tmp_t_ := snd (fst triple) in
       let consumer_op := snd triple in
       info <- get_info ;;
       if negb (dict_mem Tensor_eqb (transformed_ts info) t) then
         raise (ValueError ("The tensor " ++ Tensor_name t
                              ++ " should be transformed by now.")%string)
       else if negb (dict_mem NodeRef_eqb (transformed_ops info)
                              (node_ref consumer_op)) then
         raise (ValueError ("The op " ++ node_name consumer_op
                              ++ " should be transformed by now.")%string)
       else
         match dict_get Tensor_eqb (transformed_ts info) t,
               dict_get NodeRef_eqb (transformed_ops info)
                        (node_ref consumer_op) with
         | Some t_, Some consumer_op_ =>
             c <- run_handler (fun _ => deref consumer_op_) ;;
             match index_of Tensor_eqb tmp_t_ (inputs c) with
             | Some t_index_ =>
                 run_handler (fun _ =>
                   on_graph (ref_graph consumer_op_)
                     (Node_replace_input (ref_name consumer_op_) t_index_ t_))
             | None => raise (ValueError "x is not in list")
             end
         | _, _ => raise KeyError
         end).

(** [[ci for ci in control_inputs_ if ci is not None]] *)
Definition drop_none {A} (l : list (option A)) : list A :=
  flat_map (fun o => match o with Some x => [x] | None => [] end) l.

(** [_connect_control_inputs] *)
Definition _connect_control_inputs : TM unit :=
  info <- get_info ;;
  forM_ (sgv_ops (sgv info))
    (fun op =>
       info <- get_info ;;
       match dict_get NodeRef_eqb (transformed_ops info) (node_ref op) with
       | Some op_ =>
           control_inputs_ <-
             mapM (fun ci =>
                     run_handler (fun info =>
                       transform_control_input_handler self info ci))
                  (control_inputs op) ;;
           let control_inputs_ := drop_none control_inputs_ in
           run_handler (fun _ =>
             on_graph (ref_graph op_)
               (set_control_inputs X (ref_name op_) control_inputs_))
       | None => raise KeyError
       end).

(** The two re-ordering loops of [_transform_sgv]. *)
Definition reorder (info : TmpInfo) (olds news : list Tensor) : list nat :=
  flat_map
    (fun old_t =>
       match dict_get Tensor_eqb (transformed_ts info) old_t with
       | None => []
       | Some new_t =>
           match index_of Tensor_eqb new_t news with
           | None => []
           | Some i => [i]
           end
       end)
    olds.

(** [[l[i] for i in indices]] *)
Fixpoint pick {A} (l : list A) (indices : list nat) : outcome (list A) :=
  match indices with
  | [] => Return []
  | i :: rest =>
      match nth_error l i, pick l rest with
      | Some x, Return xs => Return (x :: xs)
      | None, _ => Raise IndexError
      | _, Raise e => Raise e
      | _, OutOfFuel => OutOfFuel
      end
  end.

(** Modelled from the spec: [SubGraphView.remap], a view over the same
    interior nodes whose boundary lists are re-ordered by the given
    indices into the current ones. *)
Definition remap (v : SubGraphView) (input_map output_map : list nat)
  : outcome SubGraphView :=
  match pick (sgv_inputs v) input_map, pick (sgv_outputs v) output_map with
  | Return i, Return o => Return (mkSubGraphView (sgv_graph v) (sgv_ops v) i o)
  | Raise e, _ => Raise e
  | _, Raise e => Raise e
  | _, _ => OutOfFuel
  end.

(** [_transform_sgv] *)
Definition _transform_sgv (info : TmpInfo) (sgv : SubGraphView)
  : WM SubGraphView :=
  let ops_ := dict_values (transformed_ops info) in
  sgv_ <- (fun w => (SubGraphView_init X w ops_, w)) ;;
  let sgv_inputs_ := sgv_inputs sgv_ in
  let sgv_outputs_ := sgv_outputs sgv_ in
  let input_map_ := reorder info (sgv_inputs sgv) sgv_inputs_ in
  let output_map_ := reorder info (sgv_outputs sgv) sgv_outputs_ in
  lift (remap sgv_ input_map_ output_map_).

(** [TransformerInfo.__init__] *)
Definition TransformerInfo_init (info : TmpInfo) : TransformerInfo :=
  mkTransformerInfo (graph info) (scope info) (graph_ info) (scope_ info)
                    (transformed_ops info) (transformed_ts info).

(** Run the three passes on a fresh working state and hand it back. *)
Definition run_passes (info : TmpInfo) : WM TmpInfo :=
  fun w =>
    match (_copy_ops ;;; _finalize_cycles ;;; _connect_control_inputs)
            (info, w) with
    | (Return _, s) => (Return (fst s), snd s)
    | (Raise e, s) => (Raise e, snd s)
    | (OutOfFuel, s) => (OutOfFuel, snd s)
    end.

(** [Transformer.__call__] *)
Definition Transformer_call (sgv : ViewArg) (dst_graph : GraphId)
  (dst_scope src_scope : string) (reuse_dst_scope : bool)
  : WM (SubGraphView * TransformerInfo) :=
  sgv <- (fun w => (make_view X w sgv, w)) ;;
  let src_scope := scope_finalize X src_scope in
  let dst_scope := scope_finalize X dst_scope in
  dst_scope <-
    (if negb (dst_scope =? "")%string && negb reuse_dst_scope then
       u <- on_graph dst_graph (unique_name (drop_last dst_scope)) ;;
       ret (scope_finalize X u)
     else ret dst_scope) ;;
  info <- TmpInfo_init sgv dst_graph dst_scope src_scope ;;
  info <- run_passes info ;;
  let res_info := TransformerInfo_init info in
  sgv_ <- _transform_sgv info sgv ;;
  ret (sgv_, res_info).

End Transform.

Section GraphReplace.

Variable X : Externals.


(** The handler that [copy_with_input_replacements] installs. *)
Definition replace_t_with_replacement_handler
  (replacement_ts : dict Tensor Tensor) (info : TmpInfo) (t : Tensor)
  : WM Tensor :=
  if dict_mem Tensor_eqb replacement_ts t then
    match dict_get Tensor_eqb replacement_ts t with
    | Some r => ret r
    | None => raise KeyError
    end
  else keep_t_if_possible_handler X info t.

Definition with_external_input_handler
  (h : TmpInfo -> Tensor -> WM Tensor) (c : Transformer) : Transformer :=
  mkTransformer (transform_op_handler c) (transform_control_input_handler c)
                (assign_collections_handler c) h
                (transform_external_hidden_input_handler c)
                (transform_original_op_handler c).

(** [copy_with_input_replacements] *)
Definition copy_with_input_replacements (sgv : ViewArg)
  (replacement_ts : dict Tensor Tensor) (dst_graph : option GraphId)
  (dst_scope src_scope : string) (reuse_dst_scope : bool)
  : WM (SubGraphView * TransformerInfo) :=
  sgv <- (fun w => (make_view X w sgv, w)) ;;
  let dst_graph :=
    match dst_graph with None => sgv_graph sgv | Some g => g end in
  let copier := Transformer_init X in
  let copier :=
    with_external_input_handler
      (replace_t_with_replacement_handler replacement_ts) copier in
  Transformer_call X copier (OfView sgv) dst_graph dst_scope src_scope
                   reuse_dst_scope.

(** The [while num_before != len(all_ops)] loop of [_add_control_flow_ops];
    [num_before] is [None] for the initial [-1]. *)
Fixpoint colocation_closure (fuel : nat) (groups : list (list Node))
  (num_before : option nat) (all_ops : list Node) : outcome (list Node) :=
  match fuel with
  | 0 => OutOfFuel
  | S fuel' =>
      if match num_before with
         | Some n => (n =? List.length all_ops)%nat
         | None => false
         end
      then Return all_ops
      else
        let num_before := Some (List.length all_ops) in
        let all_ops :=
          fold_left
            (fun acc group =>
               if existsb (fun n => node_mem n acc) group
               then node_set_update acc group else acc)
            groups all_ops in
        colocation_closure fuel' groups num_before all_ops
  end.

(** [_add_control_flow_ops]; the list [ops] is modified in place, the
    model returns it. *)
Definition _add_control_flow_ops (ops : list Node)
  (control_ios : dict NodeRef (list Node)) : WM (list Node) :=
  match ops with
  | [] => raise IndexError
  | op0 :: _ =>
      let g := node_graph op0 in
      frame_names <-
        fold_left
          (fun acc op =>
             frame_names <- acc ;;
             fs <- on_graph g (node_to_frame_names op) ;;
             ret (frame_set_update frame_names fs))
          ops (ret []) ;;
      new_ops <-
        fold_left
          (fun acc frame_name =>
             new_ops <- acc ;;
             ns <- on_graph g (frame_name_to_nodes frame_name) ;;
             ret (node_set_update new_ops ns))
          frame_names (ret []) ;;
      let all_ops := node_set_update new_ops ops in
      groups <- read_graph g (fun gr => dict_values (colocation_groups X gr)) ;;
      all_ops <-
        lift (colocation_closure
                (S (S (List.length (List.concat groups)))) groups None all_ops) ;;
      ret (ops ++ filter (fun n => negb (node_mem n ops)) all_ops)
  end.

(** Modelled from the spec: [util.get_unique_graph] with
    [check_types=(Tensor,)]: the one graph that owns every element, a
    failure when an element is not a tensor, when the elements span more
    than one graph or when there is none. *)
Fixpoint unique_graph_from (g : option GraphId) (tops : list Val)
  : outcome GraphId :=
  match tops with
  | [] =>
      match g with
      | Some gid => Return gid
      | None =>
          Raise (ValueError "Can't find the unique graph of an empty list")
      end
  | VTensor t :: rest =>
      match g with
      | None => unique_graph_from (Some (ref_graph (t_node t))) rest
      | Some gid =>
          if (gid =? ref_graph (t_node t))%nat then unique_graph_from g rest
          else Raise (ValueError "Operation does not belong to given graph")
      end
  | _ :: _ => Raise (TypeError "Expected a type in (Tensor)")
  end.
Definition get_unique_graph (tops : list Val) : outcome GraphId :=
  unique_graph_from None tops.

(** The [missing_fn] of [graph_replace]. *)
Definition missing_fn (original_t : Val) : outcome Val := Return original_t.

Definition is_empty {A} (l : list A) : bool :=
  match l with [] => true | _ :: _ => false end.

(** [graph_replace] *)
Definition graph_replace (target_ts : Tree)
  (replacement_ts : dict Tensor Tensor)
  (dst_scope src_scope : string) (reuse_dst_scope : bool) : WM Tree :=
  let flatten_target_ts := _flatten_tree target_ts [] in
  graph <- lift (get_unique_graph flatten_target_ts) ;;
  control_ios <- read_graph graph ControlOutputs ;;
  ops <- gets (fun w =>
           get_walks_intersection_ops X w (dict_keys replacement_ts)
                                      flatten_target_ts control_ios) ;;
  if is_empty ops then
    raise (ValueError "Targets and replacements are not connected!")
  else
    ops <- _add_control_flow_ops ops control_ios ;;
    r <- copy_with_input_replacements (OfNodes ops) replacement_ts None
                                      dst_scope src_scope reuse_dst_scope ;;
    let info := snd r in
    lift (transformed info target_ts (Some missing_fn)).

End GraphReplace.

(* ------------------------------------------------------------------ *)
(** ** Example objects *)

Module Examples.

Definition T (gid : GraphId) (name : string) (i : nat) : Tensor :=
  mkTensor (mkNodeRef gid name) i.

(** A node of graph 0 with one (dtype, shape) pair per output. *)
Definition nd (id : nat) (name op : string) (a : dict string AttrValue)
  (ins : list Tensor) (ctl : list NodeRef) (nout : nat) : Node :=
  mkNode 0 id name op "" a ins ctl (repeat (0, None) nout).

(** The graph reached by adding the nodes in order and wiring them. *)
Definition graph_of_nodes (gid : GraphId) (l : list Node) : Graph :=
  mkGraph gid (List.length l) false (S (List.length l))
          (map (fun n => (node_name n, n)) l) None None [].

(** Graphs for [unique_name]. *)
Definition g_foo : Graph :=
  graph_of_nodes 0 [nd 1 "foo" "Const" [] [] [] 1].
Definition g_foo_foo1 : Graph :=
  graph_of_nodes 0 [nd 1 "foo" "Const" [] [] [] 1;
                    nd 2 "FOO_1" "Const" [] [] [] 1].

(** One while loop: [c -> enter -> merge -> next -> exit -> after], with
    the back edge [next -> merge]. *)
Definition n_c : Node := nd 1 "c" "Const" [] [] [] 1.
Definition n_enter : Node :=
  nd 2 "enter" "Enter" [("frame_name", AttrS "loop1")] [T 0 "c" 0] [] 1.
Definition n_merge : Node :=
  nd 3 "merge" "Merge" [] [T 0 "enter" 0; T 0 "next" 0] [] 2.
Definition n_next : Node :=
  nd 4 "next" "NextIteration" [] [T 0 "merge" 0] [] 1.
Definition n_exit : Node := nd 5 "exit" "Exit" [] [T 0 "next" 0] [] 1.
Definition n_after : Node := nd 6 "after" "Identity" [] [T 0 "exit" 0] [] 1.
Definition loop_graph : Graph :=
  graph_of_nodes 0 [n_c; n_enter; n_merge; n_next; n_exit; n_after].

(** [ctl] has one control input and no data input; [a] and [b] feed each
    other and nothing else feeds them. *)
Definition n_ctl : Node := nd 2 "ctl" "NoOp" [] [] [mkNodeRef 0 "c"] 0.
Definition n_a : Node := nd 3 "a" "Identity" [] [T 0 "b" 0] [] 1.
Definition n_b : Node := nd 4 "b" "Identity" [] [T 0 "a" 0] [] 1.
Definition ctl_graph : Graph := graph_of_nodes 0 [n_c; n_ctl; n_a; n_b].

(** The loop again, with a second constant [k] and its consumer [aside],
    neither of them part of the loop. *)
Definition n_k : Node := nd 7 "k" "Const" [] [] [] 1.
Definition n_aside : Node := nd 8 "aside" "Identity" [] [T 0 "k" 0] [] 1.
Definition loop_graph_aside : Graph :=
  graph_of_nodes 0 [n_c; n_k; n_enter; n_merge; n_next; n_exit; n_after;
                    n_aside].

(** The record of a copy of [a] and [b] of graph 0 into [a_1] and [b_1]. *)
Definition info_ab : TransformerInfo :=
  mkTransformerInfo 0 "" 0 ""
    [(mkNodeRef 0 "a", mkNodeRef 0 "a_1"); (mkNodeRef 0 "b", mkNodeRef 0 "b_1")]
    [(T 0 "a" 0, T 0 "a_1" 0); (T 0 "b" 0, T 0 "b_1" 0)].

(** *** One choice of the functions that come from elsewhere

    Enough of [util], [subgraph], [select] and [node] to run the transformer
    on examples. *)

Definition tensor_mem (t : Tensor) (l : list Tensor) : bool :=
  existsb (Tensor_eqb t) l.
Definition tensor_dedup (l : list Tensor) : list Tensor :=
  fold_left (fun acc t => if tensor_mem t acc then acc else acc ++ [t]) l [].

(** Modelled from the spec: a view over the nodes [ops]: its inputs are the
    tensors consumed inside and produced outside, its outputs the tensors
    produced inside that have a consumer outside. *)
Definition view_of (g : Graph) (ops : list Node) : SubGraphView :=
  let inside (t : Tensor) :=
    existsb (fun n => NodeRef_eqb (node_ref n) (t_node t)) ops in
  mkSubGraphView (graph_id g) ops
    (tensor_dedup (filter (fun t => negb (inside t)) (flat_map inputs ops)))
    (filter (fun t => existsb (fun c => negb (node_mem c ops)) (consumers g t))
            (flat_map outputs ops)).

Definition ex_make_view (w : World) (arg : ViewArg) : outcome SubGraphView :=
  match arg with
  | OfView v => Return v
  | OfNodes [] => Raise (ValueError "Can't find the unique graph of an empty list")
  | OfNodes (n :: ops) => Return (view_of (w (node_graph n)) (n :: ops))
  end.

Definition ex_SubGraphView_init (w : World) (refs : list NodeRef)
  : outcome SubGraphView :=
  match refs with
  | [] => Raise (ValueError "Can't find the unique graph of an empty list")
  | r :: _ =>
      let g := w (ref_graph r) in
      Return (view_of g
                (filter (fun n => existsb (NodeRef_eqb (node_ref n)) refs)
                        (nodes g)))
  end.

Definition ex_scope_finalize (scope : string) : string :=
  if (scope =? "")%string then scope
  else if (Str.drop (String.length scope - 1) scope =? "/")%string then scope
       else (scope ++ "/")%string.

Definition ex_make_placeholder_from_tensor (t : Tensor) (scope : string)
  (prefix : option string) : GM Tensor :=
  let p := match prefix with Some p => p | None => "geph" end in
  n <- add_node (scope ++ p ++ "__" ++ ref_name (t_node t) ++ "_"
                   ++ Str.of_nat (value_index t))%string "Placeholder" true ;;
  Node_set_outputs_from_pairs (node_name n) [(0, None)] ;;;
  ret (mkTensor (node_ref n) 0).

Definition ex_set_control_inputs (name : string) (cis : list NodeRef) : GM unit :=
  update_node name (with_control_inputs cis) ;;;
  increment_version_counter.

(** The nodes met from [start] in at most [rounds] steps along [next]. *)
Fixpoint walk (rounds : nat) (next : Node -> list Node) (start : list Node)
  : list Node :=
  match rounds with
  | 0 => start
  | S r => walk r next (node_set_update start (flat_map next start))
  end.

(** Modelled from the spec: the nodes that both depend on a seed, along data
    edges, and contribute to a target, along data and control edges. *)
Definition ex_get_walks_intersection_ops (w : World) (seeds : list Tensor)
  (targets : list Val) (control_ios : dict NodeRef (list Node)) : list Node :=
  match targets with
  | VTensor t0 :: _ =>
      let g := w (ref_graph (t_node t0)) in
      let rounds := List.length (nodes g) in
      let producers (ts : list Tensor) :=
        filter (fun n => existsb (fun t => NodeRef_eqb (t_node t) (node_ref n)) ts)
               (nodes g) in
      let target_ts :=
        flat_map (fun v => match v with VTensor t => [t] | _ => [] end) targets in
      let forward :=
        walk rounds (successors g)
             (node_set_update [] (flat_map (consumers g) seeds)) in
      let backward :=
        walk rounds
             (fun n =>
                producers (inputs n)
                ++ filter (fun m => existsb (NodeRef_eqb (node_ref m))
                                            (control_inputs n))
                          (nodes g))
             (node_set_update [] (producers target_ts)) in
      filter (fun n => node_mem n backward) forward
  | _ => []
  end.

Definition ex_externals : Externals :=
  mkExternals
    ex_scope_finalize
    ex_make_view
    ex_SubGraphView_init
    ex_make_placeholder_from_tensor
    ["variables"; "trainable_variables"]
    (fun _ _ => ret tt)
    (fun name => Node_set_outputs_from_pairs name [(0, None)])
    (fun _ _ _ => ret tt)
    ex_set_control_inputs
    ex_get_walks_intersection_ops
    (fun _ => []).

(** [x -> f -> y], and [z] on its own. *)
Definition n_x : Node := nd 1 "x" "Const" [] [] [] 1.
Definition n_f : Node := nd 2 "f" "Identity" [] [T 0 "x" 0] [] 1.
Definition n_y : Node := nd 3 "y" "Identity" [] [T 0 "f" 0] [] 1.
Definition n_z : Node := nd 4 "z" "Const" [] [] [] 1.
Definition n_x2 : Node := nd 5 "x2" "Const" [] [] [] 1.
Definition g_xyz : Graph := graph_of_nodes 0 [n_x; n_f; n_y; n_z; n_x2].
Definition w_xyz : World := fun _ => g_xyz.

(** The view over [f] and [y], and the working state of a copy of it within
    the graph. *)
Definition sgv_fy : SubGraphView := view_of g_xyz [n_f; n_y].
Definition info_fy : TmpInfo :=
  mkTmpInfo sgv_fy (sgv_inputs sgv_fy) (map node_ref (sgv_ops sgv_fy))
            (ControlOutputs g_xyz) 0 "" 0 "" [] [] [] [] [].


(** The targets [y] and [z], and the replacement of [x] by [x2]. *)
Definition targets_yz : Tree :=
  Seq [Leaf (VTensor (T 0 "y" 0)); Leaf (VTensor (T 0 "z" 0))].
Definition replace_x : dict Tensor Tensor := [(T 0 "x" 0, T 0 "x2" 0)].

(** [n] is co-located with [peer]; both are copied within their graph. *)
Definition n_peer : Node := nd 1 "peer" "Const" [] [] [] 1.
Definition n_coloc : Node :=
  nd 2 "n" "Identity" [("_class", AttrListS ["loc:@peer"])] [T 0 "peer" 0] [] 1.
Definition g_coloc : Graph := graph_of_nodes 0 [n_peer; n_coloc].
Definition w_coloc : World := fun _ => g_coloc.
Definition info_coloc : TmpInfo :=
  mkTmpInfo (view_of g_coloc [n_peer; n_coloc]) [] [mkNodeRef 0 "peer"; mkNodeRef 0 "n"]
            [] 0 "" 0 "dst/" [] [] [] [] [].

End Examples.

(* ------------------------------------------------------------------ *)
(** ** Auxiliary notions for the statements *)

(** The name [add_node] settles on, or the failure of that first step. *)
Definition add_node_name (g : Graph) (name : string) (uniquify_name : bool)
  : outcome string :=
  if uniquify_name then unique_name_of g name
  else if name_in_use g name then
         Raise (ValueError ("Graph already contains a node with name '"
                  ++ name
                  ++ "' (Note that this check is case-insensitive).")%string)
       else Return name.

(** The graph once [add_node] has built the node [name] and stored it. *)
Definition registered (g : Graph) (name op_name : string) : Graph :=
  set_node_name_to_node
    (dict_set String.eqb (_node_name_to_node g) name
              (Node_init (graph_id g) (_next_id g) name op_name))
    (set_next_id (_next_id g + 1) g).

(** A method that leaves the version counter where it was, whatever its
    outcome. *)
Definition keeps_version {A} (m : GM A) : Prop :=
  forall g o g', m g = (o, g') -> _version g' = _version g.

(** *** The traversal of the frame analysis, taken apart

    The loop of [_generate_node_to_frame_name] does two things at once: it
    walks the graph breadth-first, and it threads the frame stack and the two
    tables through the nodes in the order of the walk. *)

(** A node is reached when it has no data input, or consumes an output of a
    reached node. *)
Inductive reach (g : Graph) : Node -> Prop :=
| reach_root (n : Node) :
    In n (nodes g) -> inputs n = [] -> reach g n
| reach_step (m n : Node) :
    reach g m -> In n (successors g m) -> reach g n.

Definition reachable (g : Graph) (r : NodeRef) : Prop :=
  exists n, reach g n /\ node_ref n = r.

(** No two entries of the table are the same node object. *)
Definition wf_graph (g : Graph) : Prop := NoDup (map node_ref (nodes g)).

(** The walk alone: the nodes in the order they leave the queue, and the
    final visited set. *)
Fixpoint bfs_loop (g : Graph) (fuel : nat) (q : list Node) (v : list NodeRef)
  : option (list Node * list NodeRef) :=
  match fuel with
  | 0 => None
  | S fuel' =>
      match q with
      | [] => Some ([], v)
      | cur_node :: rest =>
          let qv := fold_left enqueue (successors g cur_node) (rest, v) in
          match bfs_loop g fuel' (fst qv) (snd qv) with
          | Some (order, v') => Some (cur_node :: order, v')
          | None => None
          end
      end
  end.

Definition bfs_order (g : Graph) : option (list Node) :=
  let st := frame_search_init g in
  match bfs_loop g (frame_search_fuel g) (queue st) (visited st) with
  | Some (order, _) => Some order
  | None => None
  end.

(** The frame stack, the current tuple and the two tables. *)
Record Tables : Type := mkTables {
  tb_stack : list FrameName;
  tb_tuple : list FrameName;
  tb_n2f : dict NodeRef (list FrameName);
  tb_f2n : dict FrameName (list Node)
}.

Definition tables_of (st : FrameSearch) : Tables :=
  mkTables (frame_name_stack st) (frame_name_tuple st)
           (new_node_to_frame_names st) (new_frame_name_to_nodes st).

(** What one iteration does to the stack and the tables. *)
Definition step_tables (cur_node : Node) (tb : Tables) : outcome Tables :=
  match update_stack cur_node (tb_stack tb) (tb_tuple tb) with
  | Return (stack, tuple) =>
      match record_frames stack cur_node (tb_f2n tb) with
      | Return f2n =>
          Return (mkTables stack tuple
                    (dict_set NodeRef_eqb (tb_n2f tb) (node_ref cur_node) tuple)
                    f2n)
      | Raise e => Raise e
      | OutOfFuel => OutOfFuel
      end
  | Raise e => Raise e
  | OutOfFuel => OutOfFuel
  end.

Fixpoint process (order : list Node) (tb : Tables) : outcome Tables :=
  match order with
  | [] => Return tb
  | cur_node :: rest =>
      match step_tables cur_node tb with
      | Return tb' => process rest tb'
      | Raise e => Raise e
      | OutOfFuel => OutOfFuel
      end
  end.

(** A node that neither enters nor leaves a frame. *)
Definition plain (n : Node) : bool :=
  negb (Str.mem (op_type n) ["Enter"; "RefEnter"])
  && negb (Str.mem (op_type n) ["Exit"; "RefExit"]).


Definition exits (n : Node) : Prop :=
  Str.mem (op_type n) ["Enter"; "RefEnter"] = false /\
  Str.mem (op_type n) ["Exit"; "RefExit"] = true.

(** The entries of a table, read as [d.get(k, [])]. *)
Definition get0 {K V} (eqb : K -> K -> bool) (d : dict K (list V)) (k : K)
  : list V :=
  match dict_get eqb d k with Some l => l | None => [] end.

(** The tables on entry to the loop. *)
Definition tables_init : Tables := mkTables [None] [] [] [].

(** The search state that holds given tables after a finished walk. *)
Definition finished (v : list NodeRef) (tb : Tables) : FrameSearch :=
  mkFrameSearch [] v (tb_stack tb) (tb_tuple tb) (tb_n2f tb) (tb_f2n tb).

(** *** Notions for the statements about the transformer *)

(** The working state up to the queue of temporary tensors. *)
Definition same_maps (i i' : TmpInfo) : Prop :=
  sgv i' = sgv i /\
  transformed_ops i' = transformed_ops i /\
  transformed_ts i' = transformed_ts i.

(** A step of a pass that leaves the view and the two mappings alone. *)
Definition keeps_maps {A} (m : TM A) : Prop :=
  forall s o s', m s = (o, s') -> same_maps (fst s) (fst s').

(** [for k, v in pairs: d[k] = v] *)
Definition dict_update (d : dict Tensor Tensor) (pairs : list (Tensor * Tensor))
  : dict Tensor Tensor :=
  fold_left (fun d oo => dict_set Tensor_eqb d (fst oo) (snd oo)) pairs d.

(** The mappings of [op] are recorded in the working state. *)
Definition recorded (i : TmpInfo) (op : Node) : Prop :=
  exists op_ outs_,
    dict_get NodeRef_eqb (transformed_ops i) (node_ref op) = Some op_ /\
    op_ <> node_ref op /\
    forall o o_,
      In (o, o_) (combine (outputs op) outs_) ->
      dict_get Tensor_eqb (transformed_ts i) o = Some o_.

(** The same shape, with a function applied to every leaf. *)
Fixpoint tree_map (f : Val -> Val) (tree : Tree) : Tree :=
  match tree with
  | Leaf v => Leaf (f v)
  | Seq l => Seq (map (tree_map f) l)
  | Mapping l =>
      Mapping (map (fun kv => match kv with (k, c) => (k, tree_map f c) end) l)
  end.

(** The leaves of a tree, left to right. *)
Fixpoint leaves (tree : Tree) : list Val :=
  match tree with
  | Leaf v => [v]
  | Seq l => flat_map leaves l
  | Mapping l => flat_map (fun kv => match kv with (_, c) => leaves c end) l
  end.

(** The recorded counterpart of a tensor, or the tensor itself. *)
Definition transformed_or_self (info : TransformerInfo) (v : Val) : Val :=
  match v with
  | VTensor t =>
      match dict_get Tensor_eqb (_transformed_ts info) t with
      | Some t_ => VTensor t_
      | None => v
      end
  | _ => v
  end.

Definition is_tensor (v : Val) : Prop := exists t, v = VTensor t.

(** Induction on trees, through the lists of children. *)
Fixpoint Tree_ind' (P : Tree -> Prop)
  (Hleaf : forall v, P (Leaf v))
  (Hseq : forall l, Forall P l -> P (Seq l))
  (Hmap : forall l, Forall (fun kv => P (snd kv)) l -> P (Mapping l))
  (tree : Tree) {struct tree} : P tree :=
  match tree with
  | Leaf v => Hleaf v
  | Seq l =>
      Hseq l
        ((fix go (l : list Tree) : Forall P l :=
            match l with
            | [] => Forall_nil _
            | c :: l' =>
                Forall_cons c (Tree_ind' P Hleaf Hseq Hmap c) (go l')
            end) l)
  | Mapping l =>
      Hmap l
        ((fix go (l : list (string * Tree))
            : Forall (fun kv => P (snd kv)) l :=
            match l with
            | [] => Forall_nil _
            | (k, c) :: l' =>
                Forall_cons (k, c) (Tree_ind' P Hleaf Hseq Hmap c) (go l')
            end) l)
  end.

(** *** Notions for the statement about co-location *)

(** The scope translation of a name that lies under the source scope:
    what [new_name] returns for it. *)
Definition translate (info : TmpInfo) (name : string) : string :=
  (scope_ info ++ Str.drop (String.length (scope info)) name)%string.


(** A method of the graph that keeps every node in place with its name, its
    owner and its attributes. *)
Definition keeps_node_attrs {A} (m : GM A) : Prop :=
  forall g o g' k n,
    m g = (o, g') ->
    dict_get String.eqb (_node_name_to_node g) k = Some n ->
    graph_id g' = graph_id g /\
    exists n',
      dict_get String.eqb (_node_name_to_node g') k = Some n' /\
      attrs n' = attrs n /\ node_name n' = node_name n /\
      node_graph n' = node_graph n.

(** *** Notions for the statements about the node table *)

(** No two keys of the node table are the same up to case. *)
Definition names_distinct (g : Graph) : Prop :=
  NoDup (map Str.lower (dict_keys (_node_name_to_node g))).

(** Every identity handed out so far lies below the counter. *)
Definition ids_below_next (g : Graph) : Prop :=
  forall n, In n (nodes g) -> id_in_graph n < _next_id g.

(** *** More example graphs for the frame analysis *)

Module FrameExamples.

(** An [Enter] node that lacks the [frame_name] attribute. *)
Definition n_enter_bare : Node :=
  Examples.nd 2 "enter" "Enter" [] [Examples.T 0 "c" 0] [] 1.
Definition g_enter_bare : Graph :=
  Examples.graph_of_nodes 0 [Examples.n_c; n_enter_bare].

(** Two [Exit] nodes in a row, and no [Enter]. *)
Definition n_exit1 : Node :=
  Examples.nd 2 "exit1" "Exit" [] [Examples.T 0 "c" 0] [] 1.
Definition n_exit2 : Node :=
  Examples.nd 3 "exit2" "Exit" [] [Examples.T 0 "exit1" 0] [] 1.
Definition g_two_exits : Graph :=
  Examples.graph_of_nodes 0 [Examples.n_c; n_exit1; n_exit2].

End FrameExamples.

(** *** Notions for the statements about views and co-location groups *)


(** One run of the [for group in ...] loop inside the fixed-point iteration
    of [_add_control_flow_ops]. *)
Definition colocation_pass (groups : list (list Node)) (all_ops : list Node)
  : list Node :=
  fold_left
    (fun acc group =>
       if existsb (fun n => node_mem n acc) group
       then node_set_update acc group else acc)
    groups all_ops.

(** A set of nodes that holds the whole of every group it meets. *)
Definition closed_under (groups : list (list Node)) (l : list Node) : Prop :=
  forall group n m,
    In group groups -> In n group -> node_mem n l = true ->
    In m group -> node_mem m l = true.

(** The members of the groups that a set of nodes does not hold yet. *)
Definition missing (groups : list (list Node)) (l : list Node) : list Node :=
  filter (fun n => negb (node_mem n l)) (List.concat groups).

(** *** Notions for the statements about every operation of the class *)

(** What only [add_node] writes: the identity of the graph, its node table
    and its collections. *)
Definition core (g : Graph) : GraphId * dict string Node * dict string (list Val) :=
  (graph_id g, _node_name_to_node g, _collections g).

(** A method that leaves a projection of the graph alone, whatever its
    outcome. *)
Definition keeps {A B} (f : Graph -> B) (m : GM A) : Prop :=
  forall g o g', m g = (o, g') -> f g' = f g.

(** Every entry of the table is a node of this graph, stored under its own
    name. *)
Definition keyed_by_name (g : Graph) : Prop :=
  forall k n,
    In (k, n) (_node_name_to_node g) ->
    k = node_name n /\ node_graph n = graph_id g.

(** The graphs that the operations of the class build from the empty graph. *)
Inductive built : Graph -> Prop :=
| built_init (gid : GraphId) : built (Graph_init gid)
| built_step (op : GraphOp) (g g' : Graph) (o : outcome unit) :
    built g -> run_op op g = (o, g') -> built g'.

(** *** Notions for the statement about a whole transformer call *)



(* ------------------------------------------------------------------ *)
(** * Properties *)

(** ** Strings *)

Lemma lower_append (a b : string) :
  Str.lower (a ++ b) = (Str.lower a ++ Str.lower b)%string.
Proof.
  induction a as [|c a IH]; simpl; [reflexivity|]. now rewrite IH.
Qed.

Lemma lower_string_of_uint (d : Decimal.uint) :
  Str.lower (NilEmpty.string_of_uint d) = NilEmpty.string_of_uint d.
Proof.
  induction d; simpl; try reflexivity; now rewrite IHd.
Qed.

Lemma lower_of_nat (i : nat) : Str.lower (Str.of_nat i) = Str.of_nat i.
Proof. apply lower_string_of_uint. Qed.

Lemma append_inj_l (a b c : string) : (a ++ b = a ++ c)%string -> b = c.
Proof.
  induction a as [|x a IH]; simpl; intros H; [exact H|].
  inversion H; auto.
Qed.

Lemma of_nat_inj (i j : nat) : Str.of_nat i = Str.of_nat j -> i = j.
Proof.
  unfold Str.of_nat. intros H.
  apply DecimalNat.Unsigned.to_uint_inj.
  assert (E : NilEmpty.uint_of_string (NilEmpty.string_of_uint (Nat.to_uint i))
              = NilEmpty.uint_of_string (NilEmpty.string_of_uint (Nat.to_uint j)))
    by now rewrite H.
  rewrite !NilEmpty.usu in E. now inversion E.
Qed.

(** The candidates [name_1], [name_2], ... are pairwise different, also after
    case folding. *)
Lemma lower_format_inj (name : string) (i j : nat) :
  Str.lower (Str.format_name_i name i) = Str.lower (Str.format_name_i name j) ->
  i = j.
Proof.
  unfold Str.format_name_i. rewrite !lower_append, !lower_of_nat. intros H.
  apply append_inj_l in H. apply append_inj_l in H. now apply of_nat_inj.
Qed.

Lemma mem_In (x : string) (l : list string) : Str.mem x l = true <-> In x l.
Proof.
  unfold Str.mem. rewrite existsb_exists. split.
  - intros [y [Hy E]]. apply String.eqb_eq in E. now subst.
  - intros H. exists x. split; [exact H | apply String.eqb_refl].
Qed.

(** ** unique_name *)

Section UniqueName.

Variable g : Graph.
Variable name : string.

Let used (i : nat) : bool := name_in_use g (Str.format_name_i name i).
Let folded : list string :=
  map Str.lower (dict_keys (_node_name_to_node g)).

Lemma used_In (i : nat) :
  used i = true <-> In (Str.lower (Str.format_name_i name i)) folded.
Proof. unfold used, name_in_use. apply mem_In. Qed.

(** Among [n + 1] candidates one is free when the table has [n] names. *)
Lemma some_candidate_free :
  exists j, 1 <= j <= unique_name_fuel g /\ used j = false.
Proof.
  unfold unique_name_fuel.
  set (n := List.length (_node_name_to_node g)).
  set (cands := seq 1 (S n)).
  destruct (forallb used cands) eqn:E.
  - exfalso.
    rewrite forallb_forall in E.
    assert (L : List.length
                  (map (fun i => Str.lower (Str.format_name_i name i)) cands)
                <= List.length folded).
    { apply NoDup_incl_length.
      - apply Injective_map_NoDup.
        + intros i j. apply lower_format_inj.
        + apply seq_NoDup.
      - intros s Hs. apply in_map_iff in Hs. destruct Hs as [i [<- Hi]].
        apply used_In. now apply E. }
    unfold folded, dict_keys, cands in L.
    rewrite !length_map, length_seq in L. fold n in L. lia.
  - assert (H : exists j, In j cands /\ used j = false).
    { clear -E. induction cands as [|x l IH]; simpl in E; [discriminate|].
      destruct (used x) eqn:Ex.
      - destruct (IH E) as [j [Hj Hu]]. exists j. split; [now right|assumption].
      - exists x. split; [now left|assumption]. }
    destruct H as [j [Hj Hu]]. exists j. split; [|exact Hu].
    unfold cands in Hj. apply in_seq in Hj. fold n. lia.
Qed.

(** The loop returns the first free candidate at or after its counter. *)
Lemma unique_name_loop_first_free (fuel i : nat) :
  (exists j, i <= j < i + fuel /\ used j = false) ->
  exists m,
    i <= m /\
    unique_name_loop g name fuel i = Return (Str.format_name_i name m) /\
    used m = false /\
    (forall k, i <= k < m -> used k = true).
Proof.
  revert i. induction fuel as [|fuel IH]; intros i [j [Hj Hu]]; [lia|].
  simpl. fold (used i). destruct (used i) eqn:Ei.
  - destruct (IH (i + 1)) as [m [Hm [Hr [Hf Hb]]]].
    { exists j. split; [|exact Hu].
      assert (j <> i) by (intros ->; congruence). lia. }
    exists m. split; [lia|]. split; [exact Hr|]. split; [exact Hf|].
    intros k Hk. destruct (Nat.eq_dec k i) as [->|Hne]; [exact Ei|].
    apply Hb. lia.
  - exists i. split; [lia|]. split; [reflexivity|]. split; [exact Ei|].
    intros k Hk. lia.
Qed.

(** The loop of [unique_name] always ends within its budget. *)
Lemma unique_name_loop_returns :
  exists m,
    1 <= m /\
    unique_name_loop g name (unique_name_fuel g) 1
    = Return (Str.format_name_i name m) /\
    used m = false /\
    (forall k, 1 <= k < m -> used k = true).
Proof.
  apply unique_name_loop_first_free.
  destruct some_candidate_free as [j [Hj Hu]].
  exists j. split; [lia | exact Hu].
Qed.

End UniqueName.

(** [unique_name] always returns, and what it returns is not in use. *)
Lemma unique_name_of_returns (g : Graph) (name : string) :
  exists r, unique_name_of g name = Return r /\ name_in_use g r = false.
Proof.
  unfold unique_name_of. destruct (name_in_use g name) eqn:E; cbn [negb].
  - destruct (unique_name_loop_returns g name) as [m [_ [Hr [Hf _]]]].
    eexists. split; [exact Hr | exact Hf].
  - exists name. split; [reflexivity | exact E].
Qed.


(** The two instances the specification names. *)
Example unique_name_Foo_1 :
  unique_name "Foo" Examples.g_foo = (Return "Foo_1", Examples.g_foo).
Proof. reflexivity. Qed.

Example unique_name_Foo_2 :
  unique_name "Foo" Examples.g_foo_foo1 = (Return "Foo_2", Examples.g_foo_foo1).
Proof. reflexivity. Qed.

(** ** add_node, the version counter and the frozen flag *)

(** Unfold the plumbing of a method body. *)
Ltac unfold_monad :=
  cbv [bind ret raise gets modify lift discard
       version frozen frozen_set contains_node getitem _name_in_use unique_name
       get_collection get_all_collection_keys tensors _get_next_id
       increment_version_counter] in *.

(** Split on everything a hypothesis of the form [match ... = (Return _, _)]
    branches on. *)
Ltac split_matches H :=
  repeat match type of H with
         | context [match ?x with _ => _ end] =>
             let E := fresh "E" in destruct x eqn:E; try discriminate H
         | context [if ?x then _ else _] =>
             let E := fresh "E" in destruct x eqn:E; try discriminate H
         end.

(** [add_node], step by step. *)
Lemma add_node_unfold (g : Graph) (name op_name : string) (u : bool) :
  add_node name op_name u g =
  match add_node_name g name u with
  | Return nm =>
      if _frozen g then
        (Raise (RuntimeError "Detected a change to a frozen graph"),
         registered g nm op_name)
      else
        (Return (Node_init (graph_id g) (_next_id g) nm op_name),
         set_frame_tables None None
           (set_version (_version g + 1) (registered g nm op_name)))
  | Raise e => (Raise e, g)
  | OutOfFuel => (OutOfFuel, g)
  end.
Proof.
  unfold add_node, add_node_name. unfold_monad.
  destruct u.
  - destruct (unique_name_of g name); try reflexivity.
    cbn. destruct (_frozen g); reflexivity.
  - destruct (name_in_use g name); try reflexivity.
    cbn. destruct (_frozen g); reflexivity.
Qed.

(** The first step of [add_node] never runs out of budget. *)
Lemma add_node_name_cases (g : Graph) (name : string) (u : bool) :
  (exists nm, add_node_name g name u = Return nm /\ name_in_use g nm = false) \/
  (u = false /\ name_in_use g name = true /\
   exists msg, add_node_name g name u = Raise (ValueError msg)).
Proof.
  unfold add_node_name. destruct u.
  - left. apply unique_name_of_returns.
  - destruct (name_in_use g name) eqn:E.
    + right. repeat split. eexists. reflexivity.
    + left. exists name. split; [reflexivity | exact E].
Qed.

Lemma dict_set_fresh {V} (d : dict string V) (k : string) (v : V) :
  ~ In k (dict_keys d) -> dict_set String.eqb d k v = d ++ [(k, v)].
Proof.
  induction d as [|[k' v'] d IH]; simpl; intros H; [reflexivity|].
  destruct (String.eqb_spec k' k) as [->|Hne]; [tauto|].
  rewrite IH; [reflexivity | tauto].
Qed.

Lemma name_not_in_use_fresh (g : Graph) (name : string) :
  name_in_use g name = false -> ~ In name (dict_keys (_node_name_to_node g)).
Proof.
  unfold name_in_use. intros H Hin.
  assert (Str.mem (Str.lower name)
                  (map Str.lower (dict_keys (_node_name_to_node g))) = true)
    by (apply mem_In; now apply in_map).
  congruence.
Qed.

(** What a failed [add_node] leaves behind on a frozen graph: the version
    counter is untouched, and so is everything else when the failure is the
    name check; when it is the frozen check, the node is already in the table
    and its identity has been drawn. *)
Lemma add_node_frozen_state (g : Graph) (name op_name : string) (u : bool) :
  _frozen g = true ->
  exists e g',
    add_node name op_name u g = (Raise e, g') /\
    ((exists msg, e = ValueError msg) /\ g' = g \/
     e = RuntimeError "Detected a change to a frozen graph" /\
     exists nm,
       _version g' = _version g /\
       _next_id g' = _next_id g + 1 /\
       dict_keys (_node_name_to_node g')
       = dict_keys (_node_name_to_node g) ++ [nm]).
Proof.
  intros F. rewrite add_node_unfold.
  destruct (add_node_name_cases g name u) as [[nm [E U]]|[_ [_ [msg E]]]];
    rewrite E.
  - rewrite F. do 2 eexists. split; [reflexivity|]. right.
    split; [reflexivity|]. exists nm. repeat split.
    unfold registered. cbn.
    rewrite dict_set_fresh by now apply name_not_in_use_fresh.
    unfold dict_keys. now rewrite map_app.
  - do 2 eexists. split; [reflexivity|]. left. split; [now exists msg | reflexivity].
Qed.




(** *** Which operations leave the version counter alone *)

Lemma kv_ret {A} (a : A) : keeps_version (ret a).
Proof. intros g o g' H. inversion H. reflexivity. Qed.

Lemma kv_raise {A} (e : Exn) : keeps_version (@raise Graph A e).
Proof. intros g o g' H. inversion H. reflexivity. Qed.

Lemma kv_lift {A} (x : outcome A) : keeps_version (lift x).
Proof. intros g o g' H. inversion H. reflexivity. Qed.

Lemma kv_gets {A} (f : Graph -> A) : keeps_version (gets f).
Proof. intros g o g' H. inversion H. reflexivity. Qed.

Lemma kv_modify (f : Graph -> Graph) :
  (forall g, _version (f g) = _version g) -> keeps_version (modify f).
Proof. intros Hf g o g' H. inversion H. apply Hf. Qed.

Lemma kv_bind {A B} (m : GM A) (k : A -> GM B) :
  keeps_version m -> (forall a, keeps_version (k a)) -> keeps_version (bind m k).
Proof.
  intros Hm Hk g o g'. unfold bind.
  destruct (m g) as [[a| e |] g1] eqn:E; intros H.
  - apply Hk in H. apply Hm in E. congruence.
  - inversion H; subst. now apply Hm in E.
  - inversion H; subst. now apply Hm in E.
Qed.

Lemma kv_generate : keeps_version _generate_node_to_frame_name.
Proof.
  intros g o g'. unfold _generate_node_to_frame_name.
  destruct (frame_search g); intros H; inversion H; reflexivity.
Qed.

(** Take a method body apart along its binds and branches. *)
Ltac keeps_version_tac :=
  repeat first
    [ apply kv_ret | apply kv_raise | apply kv_lift | apply kv_gets
    | apply kv_generate
    | apply kv_modify; intros; reflexivity
    | apply kv_bind; [|intros]
    | match goal with
      | |- keeps_version (if ?b then _ else _) => destruct b
      | |- keeps_version (match ?x with _ => _ end) => destruct x
      end ].

Lemma kv_ensure : keeps_version ensure_frame_tables.
Proof. unfold ensure_frame_tables. keeps_version_tac. Qed.

Lemma kv_unique_name (name : string) : keeps_version (unique_name name).
Proof. intros g o g' H. inversion H. reflexivity. Qed.

(** Every operation but [add_node] and [increment_version_counter]. *)
Lemma other_ops_keep_version (op : GraphOp) :
  version_step op = 0 -> keeps_version (run_op op).
Proof.
  destruct op; cbn [version_step]; intros S; try discriminate S;
    cbn [run_op];
    unfold discard, getitem, contains_node, _name_in_use, tensors, version,
      frozen, frozen_set, get_collection, get_all_collection_keys,
      _get_next_id, node_to_frame_names, frame_name_to_nodes, get_frame_names;
    try apply kv_unique_name;
    keeps_version_tac;
    try apply kv_ensure; try apply kv_unique_name.
Qed.

(** C7 (amended). A call to [add_node] that returns moves the version counter
    up by exactly 1; so does a call to [increment_version_counter] that
    returns; every other operation of the class, when it returns, leaves the
    counter where it was. *)
Theorem version_moves_by_step (op : GraphOp) (g g' : Graph) :
  run_op op g = (Return tt, g') ->
  _version g' = _version g + version_step op.
Proof.
  intros H.
  destruct (Nat.eq_dec (version_step op) 0) as [Z|NZ].
  - rewrite Z, Nat.add_0_r. now apply (other_ops_keep_version op Z g (Return tt)).
  - destruct op; cbn [version_step] in *; try congruence; cbn [run_op] in H.
    + (* add_node *)
      unfold discard, bind in H. rewrite add_node_unfold in H.
      destruct (add_node_name g name uniquify_name); try discriminate H.
      destruct (_frozen g); try discriminate H.
      unfold ret in H. inversion H; subst. reflexivity.
    + (* increment_version_counter *)
      unfold increment_version_counter, frozen, bind, gets, modify, raise in H.
      destruct (_frozen g); try discriminate H.
      inversion H; subst. reflexivity.
Qed.

Lemma version_moves_by_step_witness :
  run_op (Op_add_node "a" "Const" true) (Graph_init 0)
  = (Return tt,
     set_frame_tables None None
       (set_version 1 (registered (Graph_init 0) "a" "Const"))) /\
  _version (set_frame_tables None None
              (set_version 1 (registered (Graph_init 0) "a" "Const")))
  = _version (Graph_init 0) + version_step (Op_add_node "a" "Const" true).
Proof.
  split; [reflexivity|].
  apply (version_moves_by_step (Op_add_node "a" "Const" true) (Graph_init 0)).
  reflexivity.
Defined.

(** C7, as stated, fails: [increment_version_counter] is an operation other
    than [add_node], and on the empty graph it returns with the counter moved
    from 0 to 1. *)
Lemma increment_version_counter_moves_version :
  is_add_node Op_increment_version_counter = false /\
  fst (run_op Op_increment_version_counter (Graph_init 0)) = Return tt /\
  _version (Graph_init 0) = 0 /\
  _version (snd (run_op Op_increment_version_counter (Graph_init 0))) = 1.
Proof. repeat split. Qed.

(** ** Equality tests and dictionaries *)

Lemma NodeRef_eqb_eq (a b : NodeRef) : NodeRef_eqb a b = true <-> a = b.
Proof.
  unfold NodeRef_eqb. destruct a as [ga na], b as [gb nb]; cbn.
  rewrite andb_true_iff, Nat.eqb_eq, String.eqb_eq.
  split; [intros [-> ->]; reflexivity | intros E; inversion E; auto].
Qed.

Lemma Tensor_eqb_eq (a b : Tensor) : Tensor_eqb a b = true <-> a = b.
Proof.
  unfold Tensor_eqb. destruct a as [na ia], b as [nb ib]; cbn.
  rewrite andb_true_iff, NodeRef_eqb_eq, Nat.eqb_eq.
  split; [intros [-> ->]; reflexivity | intros E; inversion E; auto].
Qed.

Lemma AttrValue_eqb_eq (a b : AttrValue) : AttrValue_eqb a b = true <-> a = b.
Proof.
  destruct a, b; cbn; try (split; [discriminate | intros E; inversion E]);
    try (rewrite String.eqb_eq; split; [intros ->; reflexivity
                                       | intros E; inversion E; auto]).
  destruct (list_eq_dec string_dec l l0) as [->|N]; split; auto;
    try discriminate. intros E; inversion E; contradiction.
Qed.

Lemma FrameName_eqb_eq (a b : FrameName) : FrameName_eqb a b = true <-> a = b.
Proof.
  destruct a, b; cbn; try (split; [discriminate | intros E; inversion E]);
    [|tauto].
  rewrite AttrValue_eqb_eq. split; [intros ->; reflexivity
                                   | intros E; inversion E; auto].
Qed.

Lemma Val_eqb_eq (a b : Val) : Val_eqb a b = true <-> a = b.
Proof.
  destruct a, b; cbn; try (split; [discriminate | intros E; inversion E]);
    try tauto.
  - rewrite NodeRef_eqb_eq. split; [intros ->; auto | intros E; inversion E; auto].
  - rewrite Tensor_eqb_eq. split; [intros ->; auto | intros E; inversion E; auto].
  - rewrite String.eqb_eq. split; [intros ->; auto | intros E; inversion E; auto].
Qed.

Section DictFacts.

Context {K V : Type} (eqb : K -> K -> bool).
Hypothesis eqb_eq : forall a b, eqb a b = true <-> a = b.

Lemma eqb_refl_of (a : K) : eqb a a = true.
Proof. now apply eqb_eq. Qed.

Lemma eqb_neq_of (a b : K) : a <> b -> eqb a b = false.
Proof.
  intros N. destruct (eqb a b) eqn:E; [|reflexivity].
  apply eqb_eq in E. contradiction.
Qed.

Lemma dict_get_set_same (d : dict K V) (k : K) (v : V) :
  dict_get eqb (dict_set eqb d k v) k = Some v.
Proof.
  induction d as [|[k' v'] d IH]; cbn.
  - now rewrite eqb_refl_of.
  - destruct (eqb k' k) eqn:E; cbn; rewrite E; auto.
Qed.

Lemma dict_get_set_other (d : dict K V) (k k' : K) (v : V) :
  k' <> k -> dict_get eqb (dict_set eqb d k v) k' = dict_get eqb d k'.
Proof.
  intros N. induction d as [|[k0 v0] d IH]; cbn.
  - now rewrite (eqb_neq_of k k') by auto.
  - destruct (eqb k0 k) eqn:E; cbn.
    + apply eqb_eq in E. subst k0.
      now rewrite (eqb_neq_of k k') by auto.
    + destruct (eqb k0 k'); auto.
Qed.

Lemma dict_keys_set (d : dict K V) (k x : K) (v : V) :
  In x (dict_keys (dict_set eqb d k v)) <-> In x (dict_keys d) \/ x = k.
Proof.
  induction d as [|[k0 v0] d IH]; cbn.
  - intuition.
  - destruct (eqb k0 k) eqn:E; cbn.
    + apply eqb_eq in E. subst k0. intuition.
    + rewrite IH. intuition.
Qed.

Lemma dict_get_None (d : dict K V) (k : K) :
  dict_get eqb d k = None <-> ~ In k (dict_keys d).
Proof.
  induction d as [|[k0 v0] d IH]; cbn.
  - tauto.
  - destruct (eqb k0 k) eqn:E.
    + apply eqb_eq in E. subst. split; [discriminate | tauto].
    + rewrite IH. split.
      * intros H [->|H']; [|tauto]. now rewrite eqb_refl_of in E.
      * tauto.
Qed.

Lemma dict_get_Some_In (d : dict K V) (k : K) (v : V) :
  dict_get eqb d k = Some v -> In k (dict_keys d).
Proof.
  intros H. destruct (in_dec (fun a b =>
      match Bool.bool_dec (eqb a b) true with
      | left e => left (proj1 (eqb_eq a b) e)
      | right n => right (fun e => n (proj2 (eqb_eq a b) e))
      end) k (dict_keys d)) as [I|N]; [exact I|].
  apply dict_get_None in N. congruence.
Qed.

Lemma dict_mem_In (d : dict K V) (k : K) :
  dict_mem eqb d k = true <-> In k (dict_keys d).
Proof.
  unfold dict_mem. rewrite existsb_exists. split.
  - intros [x [Hx E]]. apply eqb_eq in E. now subst.
  - intros H. exists k. split; [exact H | apply eqb_refl_of].
Qed.

(** A fresh key goes last. *)
Lemma dict_set_append (d : dict K V) (k : K) (v : V) :
  ~ In k (dict_keys d) -> dict_set eqb d k v = d ++ [(k, v)].
Proof.
  induction d as [|[k' v'] d IH]; cbn; intros H; [reflexivity|].
  rewrite (eqb_neq_of k' k) by tauto.
  rewrite IH by tauto. reflexivity.
Qed.

Lemma dict_get_app (d1 d2 : dict K V) (k : K) :
  dict_get eqb (d1 ++ d2) k =
  match dict_get eqb d1 k with
  | Some v => Some v
  | None => dict_get eqb d2 k
  end.
Proof.
  induction d1 as [|[k' v'] d1 IH]; cbn; [reflexivity|].
  destruct (eqb k' k); auto.
Qed.

End DictFacts.

(** ** The breadth-first walk of the frame analysis *)

Lemma NoDup_map_inj {A B} (f : A -> B) (l : list A) (a b : A) :
  NoDup (map f l) -> In a l -> In b l -> f a = f b -> a = b.
Proof.
  induction l as [|x l IH]; cbn; intros N Ha Hb E; [contradiction|].
  inversion N as [|? ? Hx Hl]; subst.
  destruct Ha as [->|Ha], Hb as [->|Hb]; auto.
  - exfalso. apply Hx. rewrite E. now apply in_map.
  - exfalso. apply Hx. rewrite <- E. now apply in_map.
Qed.

Lemma NoDup_map_filter {A B} (keep : A -> bool) (key : A -> B) (xs : list A) :
  NoDup (map key xs) -> NoDup (map key (filter keep xs)).
Proof.
  intros N. induction xs as [|x xs IH]; cbn; [constructor|].
  cbn in N. apply NoDup_cons_iff in N. destruct N as [Hx Hl].
  destruct (keep x); cbn; auto.
  constructor; auto.
  intros H. apply Hx. apply in_map_iff in H. destruct H as [y [E Hy]].
  apply filter_In in Hy. apply in_map_iff. exists y. tauto.
Qed.

Lemma successors_in_graph (g : Graph) (m n : Node) :
  In n (successors g m) -> In n (nodes g).
Proof.
  unfold successors, consumers. intros H.
  apply in_flat_map in H. destruct H as [t [_ H]].
  now apply filter_In in H.
Qed.

Lemma reach_in_graph (g : Graph) (n : Node) : reach g n -> In n (nodes g).
Proof.
  induction 1; [assumption | eapply successors_in_graph; eauto].
Qed.

(** What the two nested [for] loops add to the queue and to the visited
    set. *)
Lemma enqueue_fold (l q : list Node) (v : list NodeRef) :
  exists new,
    fold_left enqueue l (q, v) = (q ++ new, v ++ map node_ref new) /\
    incl new l /\
    (forall n, In n l -> In (node_ref n) (v ++ map node_ref new)) /\
    (NoDup v -> NoDup (v ++ map node_ref new)).
Proof.
  revert q v. induction l as [|x l IH]; intros q v; cbn [fold_left].
  - exists []. cbn. rewrite !app_nil_r. repeat split; auto.
    + intros n Hn; exact Hn.
    + intros n [].
  - unfold enqueue at 2. cbn [fst snd].
    destruct (existsb (NodeRef_eqb (node_ref x)) v) eqn:E.
    + destruct (IH q v) as [new [Hf [Hi [Hc Hn]]]].
      exists new. split; [exact Hf|]. split; [now apply incl_tl|].
      split; [|exact Hn].
      intros n [<-|Hin]; [|now apply Hc].
      apply in_or_app. left.
      apply existsb_exists in E. destruct E as [y [Hy Ey]].
      apply NodeRef_eqb_eq in Ey. now subst.
    + destruct (IH (q ++ [x]) (v ++ [node_ref x])) as [new [Hf [Hi [Hc Hn]]]].
      exists (x :: new). cbn [map].
      rewrite <- !app_assoc in Hf. cbn [app] in Hf.
      split; [exact Hf|]. split.
      { intros n [<-|Hin]; [now left | right; now apply Hi]. }
      split.
      * intros n [<-|Hin].
        -- apply in_or_app. right. now left.
        -- specialize (Hc n Hin). rewrite <- app_assoc in Hc. exact Hc.
      * intros N. rewrite <- app_assoc in Hn. apply Hn.
        apply NoDup_app; [exact N | repeat constructor; intros [] | ].
        intros a Ha [<-|[]].
        assert (existsb (NodeRef_eqb (node_ref x)) v = true); [|congruence].
        apply existsb_exists. exists (node_ref x).
        split; [exact Ha | now apply NodeRef_eqb_eq].
Qed.

(** The walk visits the queue in order, then what it discovers. *)
Lemma bfs_loop_spec (g : Graph) (fuel : nat) :
  forall (q : list Node) (v : list NodeRef) (order : list Node) (v' : list NodeRef),
    bfs_loop g fuel q v = Some (order, v') ->
    exists extra,
      order = q ++ extra /\
      v' = v ++ map node_ref extra /\
      (forall m n, In m order -> In n (successors g m) -> In (node_ref n) v') /\
      (NoDup v -> NoDup v').
Proof.
  induction fuel as [|fuel IH]; intros q v order v' H; cbn in H; [discriminate|].
  destruct q as [|cur rest].
  - inversion H; subst. exists []. cbn. rewrite app_nil_r.
    repeat split; auto. intros m n [].
  - destruct (enqueue_fold (successors g cur) rest v)
      as [new [Hf [Hi [Hc Hn]]]].
    rewrite Hf in H. cbn [fst snd] in H.
    destruct (bfs_loop g fuel (rest ++ new) (v ++ map node_ref new))
      as [[order' v'']|] eqn:E; [|discriminate].
    inversion H; subst. clear H.
    destruct (IH _ _ _ _ E) as [extra [Ho [Hv [Hs Hd]]]].
    exists (new ++ extra). subst order'.
    split; [cbn; now rewrite app_assoc|]. split.
    { rewrite Hv, map_app, app_assoc. reflexivity. }
    split.
    + intros m n [<-|Hm] Hs'.
      * rewrite Hv. apply in_or_app. left. now apply Hc.
      * now apply (Hs m n).
    + intros N. apply Hd. now apply Hn.
Qed.

(** Whatever holds of the queue and passes to successors holds of every
    visited node. *)
Lemma bfs_loop_closed (g : Graph) (P : Node -> Prop) (fuel : nat) :
  (forall m n, P m -> In n (successors g m) -> P n) ->
  forall (q : list Node) (v : list NodeRef) (order : list Node) (v' : list NodeRef),
    bfs_loop g fuel q v = Some (order, v') ->
    (forall n, In n q -> P n) ->
    forall n, In n order -> P n.
Proof.
  intros Hstep.
  induction fuel as [|fuel IH]; intros q v order v' H Hq; cbn in H; [discriminate|].
  destruct q as [|cur rest].
  - inversion H; subst. intros n [].
  - destruct (enqueue_fold (successors g cur) rest v)
      as [new [Hf [Hi _]]].
    rewrite Hf in H. cbn [fst snd] in H.
    destruct (bfs_loop g fuel (rest ++ new) (v ++ map node_ref new))
      as [[order' v'']|] eqn:E; [|discriminate].
    inversion H; subst. clear H.
    intros n [<-|Hn]; [apply Hq; now left|].
    apply (IH _ _ _ _ E); [|exact Hn].
    intros x Hx. apply in_app_or in Hx. destruct Hx as [Hx|Hx].
    + apply Hq. now right.
    + apply (Hstep cur); [apply Hq; now left | now apply Hi].
Qed.

(** One test of the loop condition per node and one more are enough. *)
Lemma bfs_loop_enough (g : Graph) (fuel : nat) :
  forall (q : list Node) (v : list NodeRef),
    NoDup v ->
    incl v (map node_ref (nodes g)) ->
    (forall n, In n q -> In n (nodes g)) ->
    List.length (nodes g) + List.length q < fuel + List.length v ->
    exists r, bfs_loop g fuel q v = Some r.
Proof.
  induction fuel as [|fuel IH]; intros q v N I Q L.
  - exfalso. apply NoDup_incl_length in I; [|exact N].
    rewrite length_map in I. cbn in L. lia.
  - cbn. destruct q as [|cur rest]; [eexists; reflexivity|].
    destruct (enqueue_fold (successors g cur) rest v)
      as [new [Hf [Hi [_ Hn]]]].
    rewrite Hf. cbn [fst snd].
    destruct (IH (rest ++ new) (v ++ map node_ref new)) as [[o w] E].
    + now apply Hn.
    + intros r Hr. apply in_app_or in Hr. destruct Hr as [Hr|Hr]; [now apply I|].
      apply in_map_iff in Hr. destruct Hr as [n [<- Hn']].
      apply in_map. eapply successors_in_graph. now apply Hi.
    + intros n Hn'. apply in_app_or in Hn'. destruct Hn' as [Hn'|Hn'].
      * apply Q. now right.
      * eapply successors_in_graph. now apply Hi.
    + rewrite !length_app, length_map. cbn in L. lia.
    + rewrite E. eexists; reflexivity.
Qed.

(** The loop of the source is the walk with the tables threaded through. *)
Lemma frame_search_loop_process (g : Graph) (fuel : nat) :
  forall (st : FrameSearch) (order : list Node) (v' : list NodeRef),
    bfs_loop g fuel (queue st) (visited st) = Some (order, v') ->
    frame_search_loop g fuel st =
    match process order (tables_of st) with
    | Return tb =>
        Return (mkFrameSearch [] v' (tb_stack tb) (tb_tuple tb)
                              (tb_n2f tb) (tb_f2n tb))
    | Raise e => Raise e
    | OutOfFuel => OutOfFuel
    end.
Proof.
  induction fuel as [|fuel IH]; intros st order v' H; cbn in H; [discriminate|].
  destruct st as [q v stack tuple n2f f2n]. cbn [queue visited] in H.
  cbn [frame_search_loop queue visited frame_name_stack frame_name_tuple
       new_node_to_frame_names new_frame_name_to_nodes].
  destruct q as [|cur rest].
  - inversion H; subst. reflexivity.
  - destruct (bfs_loop g fuel
                (fst (fold_left enqueue (successors g cur) (rest, v)))
                (snd (fold_left enqueue (successors g cur) (rest, v))))
      as [[order' v'']|] eqn:E; [|discriminate].
    inversion H; subst. clear H.
    cbn [process]. unfold frame_search_body, step_tables, tables_of.
    cbn [queue visited frame_name_stack frame_name_tuple
         new_node_to_frame_names new_frame_name_to_nodes
         tb_stack tb_tuple tb_n2f tb_f2n].
    destruct (update_stack cur stack tuple) as [[s t]| |]; try reflexivity.
    destruct (record_frames s cur f2n) as [f| |]; try reflexivity.
    rewrite (IH _ order' v'); [reflexivity|exact E].
Qed.

(** On a well-formed graph the walk ends within the budget, visits no node
    twice and visits exactly the reachable nodes; the search is the walk with
    the tables threaded through. *)
Lemma frame_search_walk (g : Graph) :
  wf_graph g ->
  exists order,
    bfs_order g = Some order /\
    NoDup (map node_ref order) /\
    (forall r, In r (map node_ref order) <-> reachable g r) /\
    frame_search g =
    match process order tables_init with
    | Return tb => Return (finished (map node_ref order) tb)
    | Raise e => Raise e
    | OutOfFuel => OutOfFuel
    end.
Proof.
  intros W. unfold bfs_order, frame_search, frame_search_init.
  set (roots := filter (fun n => (0 =? List.length (inputs n))%nat) (nodes g)).
  cbn [queue visited].
  assert (Rin : forall n, In n roots -> In n (nodes g) /\ inputs n = []).
  { intros n Hn. apply filter_In in Hn. destruct Hn as [Hn E]. split; [exact Hn|].
    destruct (inputs n); [reflexivity | discriminate]. }
  assert (Rnd : NoDup (map node_ref roots)) by (apply NoDup_map_filter; exact W).
  destruct (bfs_loop_enough g (frame_search_fuel g) roots (map node_ref roots))
    as [[order v'] E].
  - exact Rnd.
  - intros r Hr. apply in_map_iff in Hr. destruct Hr as [n [<- Hn]].
    apply in_map. now apply Rin.
  - intros n Hn. now apply Rin.
  - unfold frame_search_fuel. rewrite length_map. lia.
  - rewrite E. exists order. split; [reflexivity|].
    destruct (bfs_loop_spec _ _ _ _ _ _ E) as [extra [Ho [Hv [Hs Hd]]]].
    assert (V : v' = map node_ref order) by (now rewrite Hv, Ho, map_app).
    assert (Reach : forall n, In n order -> reach g n).
    { apply (bfs_loop_closed g (reach g) _
               (fun m n Hm Hn => reach_step g m n Hm Hn) _ _ _ _ E).
      intros n Hn. apply Rin in Hn. now apply reach_root. }
    split; [rewrite <- V; now apply Hd|]. split.
    + intros r. split.
      * intros Hr. apply in_map_iff in Hr. destruct Hr as [n [<- Hn]].
        exists n. split; [now apply Reach | reflexivity].
      * intros [n [Hn <-]]. induction Hn as [n Hin Hi | m n Hm IH Hn].
        -- apply in_map. rewrite Ho. apply in_or_app. left.
           apply filter_In. split; [exact Hin|]. now rewrite Hi.
        -- rewrite <- V. apply in_map_iff in IH. destruct IH as [m' [Em Hm']].
           assert (m' = m).
           { apply (NoDup_map_inj node_ref (nodes g)); auto.
             - apply reach_in_graph. now apply Reach.
             - now apply reach_in_graph. }
           subst m'. now apply (Hs m n).
    + rewrite (frame_search_loop_process g _ _ order v') by exact E.
      unfold tables_of, tables_init, finished. cbn. now rewrite V.
Qed.

(** The keys of the node table after the walk: those it had, and the nodes
    walked. *)
Lemma process_keys (order : list Node) :
  forall (tb tb' : Tables),
    process order tb = Return tb' ->
    forall r, In r (dict_keys (tb_n2f tb')) <->
              In r (dict_keys (tb_n2f tb)) \/ In r (map node_ref order).
Proof.
  induction order as [|cur rest IH]; intros tb tb' H r; cbn in H.
  - inversion H; subst. cbn. tauto.
  - destruct (step_tables cur tb) as [tb1| |] eqn:E; try discriminate.
    rewrite (IH _ _ H r). cbn [map In].
    unfold step_tables in E.
    destruct (update_stack cur (tb_stack tb) (tb_tuple tb)) as [[s t]| |];
      try discriminate.
    destruct (record_frames s cur (tb_f2n tb)); try discriminate.
    inversion E; subst. cbn [tb_n2f].
    rewrite (dict_keys_set NodeRef_eqb NodeRef_eqb_eq). intuition.
Qed.

(** ** node_to_frame_names and frame_name_to_nodes on a fresh cache *)

Lemma generate_unfold (g g' : Graph) :
  _generate_node_to_frame_name g = (Return tt, g') ->
  exists st,
    frame_search g = Return st /\
    g' = set_frame_tables (Some (new_node_to_frame_names st))
                          (Some (new_frame_name_to_nodes st)) g.
Proof.
  unfold _generate_node_to_frame_name.
  destruct (frame_search g) as [st| |]; intros H; inversion H.
  exists st. split; reflexivity.
Qed.

Lemma node_to_frame_names_fresh (g : Graph) (st : FrameSearch) (n : Node) :
  _node_to_frame_names g = None ->
  frame_search g = Return st ->
  node_to_frame_names n g =
  (match dict_get NodeRef_eqb (new_node_to_frame_names st) (node_ref n) with
   | Some t => Return t
   | None => Raise KeyError
   end,
   set_frame_tables (Some (new_node_to_frame_names st))
                    (Some (new_frame_name_to_nodes st)) g).
Proof.
  intros C F.
  unfold node_to_frame_names, ensure_frame_tables, bind, gets,
    _generate_node_to_frame_name.
  rewrite C, F. cbn.
  destruct (dict_get NodeRef_eqb (new_node_to_frame_names st) (node_ref n));
    reflexivity.
Qed.

Lemma frame_name_to_nodes_fresh (g : Graph) (st : FrameSearch) (f : FrameName) :
  _node_to_frame_names g = None ->
  frame_search g = Return st ->
  hashable f = true ->
  frame_name_to_nodes f g =
  (match dict_get FrameName_eqb (new_frame_name_to_nodes st) f with
   | Some t => Return t
   | None => Raise KeyError
   end,
   set_frame_tables (Some (new_node_to_frame_names st))
                    (Some (new_frame_name_to_nodes st)) g).
Proof.
  intros C F H.
  unfold frame_name_to_nodes, ensure_frame_tables, bind, gets,
    _generate_node_to_frame_name.
  rewrite C, F. cbn. rewrite H.
  destruct (dict_get FrameName_eqb (new_frame_name_to_nodes st) f);
    reflexivity.
Qed.

(** C10 (amended). The frame analysis visits exactly the nodes reachable by
    data edges from the nodes without data inputs. When the traversal
    completes, a node that is not reachable in this way is absent from the
    node-to-frame map and [node_to_frame_names] on it fails with the lookup
    error; a reachable node is found. A node without data inputs (one whose
    only incoming edges are control inputs, for instance) is itself a
    starting point and is reachable. *)
Theorem frame_map_holds_reachable_nodes (g g' : Graph) :
  wf_graph g ->
  _node_to_frame_names g = None ->
  _generate_node_to_frame_name g = (Return tt, g') ->
  exists d,
    _node_to_frame_names g' = Some d /\
    (forall n, In (node_ref n) (dict_keys d) <-> reachable g (node_ref n)) /\
    (forall n, reachable g (node_ref n) ->
               exists t, node_to_frame_names n g = (Return t, g')) /\
    (forall n, ~ reachable g (node_ref n) ->
               node_to_frame_names n g = (Raise KeyError, g')) /\
    (forall n, In n (nodes g) -> inputs n = [] -> reachable g (node_ref n)).
Proof.
  intros W C G.
  destruct (generate_unfold g g' G) as [st [F ->]].
  destruct (frame_search_walk g W) as [order [_ [_ [R S]]]].
  rewrite F in S.
  destruct (process order tables_init) as [tb| |] eqn:P; try discriminate.
  inversion S; subst st. clear S.
  assert (K : forall n, In (node_ref n) (dict_keys (tb_n2f tb))
                        <-> reachable g (node_ref n)).
  { intros n. rewrite (process_keys order _ _ P). cbn. rewrite R. tauto. }
  exists (tb_n2f tb). cbn. split; [reflexivity|]. split; [exact K|].
  split; [|split].
  - intros n Hn. rewrite (node_to_frame_names_fresh g _ n C F). cbn.
    destruct (dict_get NodeRef_eqb (tb_n2f tb) (node_ref n)) as [t|] eqn:E.
    + now exists t.
    + exfalso. apply (dict_get_None NodeRef_eqb NodeRef_eqb_eq) in E.
      apply E. now apply K.
  - intros n Hn. rewrite (node_to_frame_names_fresh g _ n C F). cbn.
    destruct (dict_get NodeRef_eqb (tb_n2f tb) (node_ref n)) as [t|] eqn:E.
    + exfalso. apply Hn. apply K.
      now apply (dict_get_Some_In NodeRef_eqb NodeRef_eqb_eq) in E.
    + reflexivity.
  - intros n Hin Hi. exists n. split; [now apply reach_root | reflexivity].
Qed.

(** Settle [NoDup] of an explicit list of references. *)
Ltac solve_nodup :=
  repeat (constructor; [cbn; intuition discriminate|]); constructor.

Lemma frame_map_holds_reachable_nodes_witness :
  wf_graph Examples.ctl_graph /\
  _node_to_frame_names Examples.ctl_graph = None /\
  _generate_node_to_frame_name Examples.ctl_graph
  = (Return tt, snd (_generate_node_to_frame_name Examples.ctl_graph)) /\
  exists d,
    _node_to_frame_names (snd (_generate_node_to_frame_name Examples.ctl_graph))
    = Some d /\
    (forall n, In (node_ref n) (dict_keys d)
               <-> reachable Examples.ctl_graph (node_ref n)) /\
    (forall n, reachable Examples.ctl_graph (node_ref n) ->
               exists t,
                 node_to_frame_names n Examples.ctl_graph
                 = (Return t,
                    snd (_generate_node_to_frame_name Examples.ctl_graph))) /\
    (forall n, ~ reachable Examples.ctl_graph (node_ref n) ->
               node_to_frame_names n Examples.ctl_graph
               = (Raise KeyError,
                  snd (_generate_node_to_frame_name Examples.ctl_graph))) /\
    (forall n, In n (nodes Examples.ctl_graph) -> inputs n = [] ->
               reachable Examples.ctl_graph (node_ref n)).
Proof.
  assert (W : wf_graph Examples.ctl_graph) by (unfold wf_graph; cbn; solve_nodup).
  split; [exact W|]. split; [reflexivity|]. split; [reflexivity|].
  apply (frame_map_holds_reachable_nodes Examples.ctl_graph
           (snd (_generate_node_to_frame_name Examples.ctl_graph)) W);
    reflexivity.
Defined.

(** On the example, the two nodes that only feed each other are missing from
    the map. *)
Example node_to_frame_names_unreachable :
  fst (node_to_frame_names Examples.n_a Examples.ctl_graph) = Raise KeyError /\
  fst (node_to_frame_names Examples.n_b Examples.ctl_graph) = Raise KeyError.
Proof. split; reflexivity. Qed.

(** C10, as stated, fails on its example: the only incoming edge of [ctl] is
    a control input, it has no data input, and [node_to_frame_names] returns
    the root tuple for it instead of failing. *)
Lemma control_only_node_is_mapped :
  inputs Examples.n_ctl = [] /\
  control_inputs Examples.n_ctl = [mkNodeRef 0 "c"] /\
  In Examples.n_ctl (nodes Examples.ctl_graph) /\
  fst (node_to_frame_names Examples.n_ctl Examples.ctl_graph) = Return [].
Proof. repeat split. cbn. tauto. Qed.

(** ** The tables along the walk *)

Lemma setdefault_append_get (d : dict FrameName (list Node)) (a f : FrameName)
  (n : Node) :
  dict_get FrameName_eqb (setdefault_append d a n) f =
  if FrameName_eqb a f then Some (get0 FrameName_eqb d a ++ [n])
  else dict_get FrameName_eqb d f.
Proof.
  unfold setdefault_append, get0.
  destruct (FrameName_eqb a f) eqn:E.
  - apply FrameName_eqb_eq in E. subst f.
    destruct (dict_get FrameName_eqb d a);
      now rewrite (dict_get_set_same FrameName_eqb FrameName_eqb_eq).
  - assert (N : f <> a).
    { intros ->. rewrite (eqb_refl_of FrameName_eqb FrameName_eqb_eq) in E.
      discriminate. }
    destruct (dict_get FrameName_eqb d a);
      now rewrite (dict_get_set_other FrameName_eqb FrameName_eqb_eq).
Qed.

(** Recording a node under every frame of a duplicate-free stack. *)
Lemma record_frames_get (stack : list FrameName) (n : Node) :
  forall (d : dict FrameName (list Node)),
    forallb hashable stack = true ->
    NoDup stack ->
    exists d',
      record_frames stack n d = Return d' /\
      forall f,
        dict_get FrameName_eqb d' f =
        if existsb (FrameName_eqb f) stack
        then Some (get0 FrameName_eqb d f ++ [n])
        else dict_get FrameName_eqb d f.
Proof.
  induction stack as [|a rest IH]; intros d H N; cbn in *.
  - exists d. split; [reflexivity | reflexivity].
  - apply andb_true_iff in H. destruct H as [Ha Hr]. rewrite Ha.
    inversion N as [|? ? Na Nr]; subst.
    destruct (IH (setdefault_append d a n) Hr Nr) as [d' [E G]].
    exists d'. split; [exact E|]. intros f. rewrite G.
    unfold get0 at 1. rewrite !setdefault_append_get.
    destruct (FrameName_eqb f a) eqn:Efa.
    + apply FrameName_eqb_eq in Efa. subst f. cbn.
      rewrite (eqb_refl_of FrameName_eqb FrameName_eqb_eq).
      destruct (existsb (FrameName_eqb a) rest) eqn:Ex; [|reflexivity].
      exfalso. apply Na. apply existsb_exists in Ex.
      destruct Ex as [x [Hx Ex]]. apply FrameName_eqb_eq in Ex. now subst.
    + assert (Eaf : FrameName_eqb a f = false).
      { destruct (FrameName_eqb a f) eqn:E'; [|reflexivity].
        apply FrameName_eqb_eq in E'. subst.
        now rewrite (eqb_refl_of FrameName_eqb FrameName_eqb_eq) in Efa. }
      rewrite Eaf. cbn. reflexivity.
Qed.

Lemma step_tables_plain (n : Node) (tb : Tables) :
  plain n = true ->
  step_tables n tb =
  match record_frames (tb_stack tb) n (tb_f2n tb) with
  | Return f2n =>
      Return (mkTables (tb_stack tb) (tb_tuple tb)
                (dict_set NodeRef_eqb (tb_n2f tb) (node_ref n) (tb_tuple tb))
                f2n)
  | Raise e => Raise e
  | OutOfFuel => OutOfFuel
  end.
Proof.
  unfold plain, step_tables, update_stack. intros P.
  apply andb_true_iff in P. destruct P as [P1 P2].
  apply negb_true_iff in P1, P2. now rewrite P1, P2.
Qed.

(** A run of plain nodes: the stack and the tuple stay, each node gets the
    tuple, each frame of the stack gets the run. *)
Lemma process_plain (seg : list Node) :
  forall (tb : Tables),
    (forall n, In n seg -> plain n = true) ->
    forallb hashable (tb_stack tb) = true ->
    NoDup (tb_stack tb) ->
    exists tb',
      process seg tb = Return tb' /\
      tb_stack tb' = tb_stack tb /\
      tb_tuple tb' = tb_tuple tb /\
      (forall r,
          dict_get NodeRef_eqb (tb_n2f tb') r =
          if existsb (NodeRef_eqb r) (map node_ref seg)
          then Some (tb_tuple tb)
          else dict_get NodeRef_eqb (tb_n2f tb) r) /\
      (forall f,
          dict_get FrameName_eqb (tb_f2n tb') f =
          if existsb (FrameName_eqb f) (tb_stack tb) && negb (is_empty seg)
          then Some (get0 FrameName_eqb (tb_f2n tb) f ++ seg)
          else dict_get FrameName_eqb (tb_f2n tb) f).
Proof.
  induction seg as [|n seg IH]; intros tb P H N.
  - exists tb. cbn. repeat split; try reflexivity.
    intros f. now rewrite andb_false_r.
  - cbn [process]. rewrite step_tables_plain by (apply P; now left).
    destruct (record_frames_get (tb_stack tb) n (tb_f2n tb) H N) as [f1 [E G]].
    rewrite E.
    destruct (IH (mkTables (tb_stack tb) (tb_tuple tb)
                    (dict_set NodeRef_eqb (tb_n2f tb) (node_ref n) (tb_tuple tb))
                    f1))
      as [tb' [Ep [Es [Et [Gn Gf]]]]]; cbn [tb_stack tb_tuple tb_n2f tb_f2n] in *;
      auto.
    { intros m Hm. apply P. now right. }
    exists tb'. split; [exact Ep|]. split; [exact Es|]. split; [exact Et|].
    split.
    + intros r. rewrite Gn. cbn [map existsb].
      destruct (existsb (NodeRef_eqb r) (map node_ref seg)).
      * now rewrite orb_true_r.
      * rewrite orb_false_r.
        destruct (NodeRef_eqb r (node_ref n)) eqn:Er.
        -- apply NodeRef_eqb_eq in Er. subst r.
           apply (dict_get_set_same NodeRef_eqb NodeRef_eqb_eq).
        -- apply (dict_get_set_other NodeRef_eqb NodeRef_eqb_eq).
           intros ->. now rewrite (eqb_refl_of NodeRef_eqb NodeRef_eqb_eq) in Er.
    + intros f. rewrite Gf. unfold get0 at 1. rewrite G. cbn [is_empty negb].
      rewrite andb_true_r.
      destruct (existsb (FrameName_eqb f) (tb_stack tb)); cbn [andb].
      * destruct seg; cbn [is_empty negb]; [reflexivity|].
        now rewrite <- app_assoc.
      * reflexivity.
Qed.

Lemma process_app (a b : list Node) (tb : Tables) :
  process (a ++ b) tb =
  match process a tb with
  | Return tb1 => process b tb1
  | Raise e => Raise e
  | OutOfFuel => OutOfFuel
  end.
Proof.
  revert tb. induction a as [|x a IH]; intros tb; cbn; [reflexivity|].
  destruct (step_tables x tb); auto.
Qed.

Lemma existsb_ref_In (r : NodeRef) (l : list NodeRef) :
  existsb (NodeRef_eqb r) l = true <-> In r l.
Proof.
  rewrite existsb_exists. split.
  - intros [x [Hx E]]. apply NodeRef_eqb_eq in E. now subst.
  - intros H. exists r. split; [exact H | now apply NodeRef_eqb_eq].
Qed.




(** The step on an [Exit] node under a non-empty stack. *)
Lemma step_tables_exit (n : Node) (tb : Tables) (below : list FrameName)
  (top : FrameName) :
  exits n ->
  tb_stack tb = below ++ [top] ->
  forallb hashable below = true ->
  NoDup below ->
  exists f2n,
    step_tables n tb =
    Return (mkTables below below
              (dict_set NodeRef_eqb (tb_n2f tb) (node_ref n) below) f2n) /\
    forall f,
      dict_get FrameName_eqb f2n f =
      if existsb (FrameName_eqb f) below
      then Some (get0 FrameName_eqb (tb_f2n tb) f ++ [n])
      else dict_get FrameName_eqb (tb_f2n tb) f.
Proof.
  intros [Ho He] S H N. unfold step_tables, update_stack. rewrite Ho, He, S.
  rewrite removelast_last.
  destruct (record_frames_get below n (tb_f2n tb) H N) as [f2n [E G]].
  destruct (below ++ [top]) eqn:B; [now destruct below|].
  rewrite E. exists f2n. split; [reflexivity | exact G].
Qed.






(** The walk keeps one frame stack for the whole graph: a node outside the
    loop that happens to be visited between the [Enter] and the [Exit] is
    filed under the loop. *)
Example frames_follow_the_visiting_order :
  fst (node_to_frame_names Examples.n_aside Examples.loop_graph_aside)
  = Return [None; Some (AttrS "loop1")].
Proof. reflexivity. Qed.

(** ** TransformerInfo: lookups *)

(** C4. A lookup by plain string never reaches the scan by name:
    [_get_transformed_map] is called first and rejects whatever is neither a
    node nor a tensor. This holds for [_transformed_elem], [_original_elem]
    and for [transformed] and [original] on a string. *)
Theorem lookup_by_string_raises (self : TransformerInfo) (s : string)
  (missing : option (Val -> outcome Val)) :
  _transformed_elem self (VStr s) missing
  = Raise (TypeError "Expected a gde.Tensor or a gde.Node") /\
  _original_elem self (VStr s) missing
  = Raise (TypeError "Expected a gde.Tensor or a gde.Node") /\
  transformed self (Leaf (VStr s)) missing
  = Raise (TypeError "Expected a gde.Tensor or a gde.Node") /\
  original self (Leaf (VStr s)) missing
  = Raise (TypeError "Expected a gde.Tensor or a gde.Node").
Proof. repeat split. Qed.

(** The failing input of C4: the mapping holds the node [a], the lookup by
    the node finds its copy, the scan by name would find it too, and the
    lookup by the string ["a"] raises. *)
Example lookup_by_string_example :
  _transformed_elem Examples.info_ab (VNode (mkNodeRef 0 "a")) None
  = Return (VNode (mkNodeRef 0 "a_1")) /\
  scan_by_original_name (ops_as_vals (_transformed_ops Examples.info_ab))
                        (VStr "a")
  = Some (VNode (mkNodeRef 0 "a_1")) /\
  transformed Examples.info_ab (Leaf (VStr "a")) None
  = Raise (TypeError "Expected a gde.Tensor or a gde.Node") /\
  original Examples.info_ab (Leaf (VStr "a_1")) None
  = Raise (TypeError "Expected a gde.Tensor or a gde.Node").
Proof. repeat split. Qed.

(** Lookup by object: the entry of the mapping, or the fallback. *)
Lemma transformed_elem_tensor (self : TransformerInfo) (t : Tensor)
  (missing : option (Val -> outcome Val)) :
  _transformed_elem self (VTensor t) missing =
  match dict_get Tensor_eqb (_transformed_ts self) t with
  | Some t_ => Return (VTensor t_)
  | None => on_missing missing (VTensor t)
  end.
Proof.
  unfold _transformed_elem. cbn [_get_transformed_map is_string].
  unfold dict_mem, dict_keys, ts_as_vals.
  induction (_transformed_ts self) as [|[k v] d IH]; cbn; [reflexivity|].
  destruct (Tensor_eqb k t) eqn:E.
  - apply Tensor_eqb_eq in E. subst k.
    rewrite (proj2 (Tensor_eqb_eq t t) eq_refl). reflexivity.
  - assert (E' : Tensor_eqb t k = false).
    { destruct (Tensor_eqb t k) eqn:E'; [|reflexivity].
      apply Tensor_eqb_eq in E'. subst.
      now rewrite (proj2 (Tensor_eqb_eq k k) eq_refl) in E. }
    rewrite E'. cbn [orb]. exact IH.
Qed.

(** ** graph_replace: the connectivity check *)

(** C6. When the forward walk from the replacement keys and the backward walk
    from the targets do not meet, [graph_replace] raises and the object world
    is the one it was called in: no node has been created in any graph. The
    failure is the [ValueError] "Targets and replacements are not connected!"
    whenever the targets are tensors of one graph. *)
Theorem graph_replace_not_connected (X : Externals) (w : World)
  (target_ts : Tree) (replacement_ts : dict Tensor Tensor)
  (dst_scope src_scope : string) (reuse_dst_scope : bool) :
  (forall gid,
      get_unique_graph (_flatten_tree target_ts []) = Return gid ->
      get_walks_intersection_ops X w (dict_keys replacement_ts)
        (_flatten_tree target_ts []) (ControlOutputs (w gid)) = []) ->
  exists e,
    graph_replace X target_ts replacement_ts dst_scope src_scope
                  reuse_dst_scope w = (Raise e, w) /\
    (forall gid,
        get_unique_graph (_flatten_tree target_ts []) = Return gid ->
        e = ValueError "Targets and replacements are not connected!").
Proof.
  intros H. unfold graph_replace, bind, lift, read_graph, gets.
  destruct (get_unique_graph (_flatten_tree target_ts [])) as [gid|e|] eqn:U.
  - rewrite (H gid eq_refl). cbn.
    eexists. split; [reflexivity|]. intros; reflexivity.
  - exists e. split; [reflexivity|]. intros gid D. discriminate D.
  - exfalso. clear H. unfold get_unique_graph in U.
    revert U. generalize (@None GraphId).
    induction (_flatten_tree target_ts []) as [|v l IH]; intros o U; cbn in U.
    + destruct o; discriminate U.
    + destruct v; try discriminate U.
      destruct o as [gid|]; [|now apply IH in U].
      destruct (gid =? ref_graph (t_node t))%nat; [now apply IH in U|discriminate U].
Qed.

Lemma graph_replace_not_connected_witness :
  (forall gid,
      get_unique_graph
        (_flatten_tree (Leaf (VTensor (Examples.T 0 "z" 0))) []) = Return gid ->
      get_walks_intersection_ops Examples.ex_externals Examples.w_xyz
        (dict_keys [(Examples.T 0 "x" 0, Examples.T 0 "x2" 0)])
        (_flatten_tree (Leaf (VTensor (Examples.T 0 "z" 0))) [])
        (ControlOutputs (Examples.w_xyz gid)) = []) /\
  exists e,
    graph_replace Examples.ex_externals (Leaf (VTensor (Examples.T 0 "z" 0)))
                  [(Examples.T 0 "x" 0, Examples.T 0 "x2" 0)] "" "" false
                  Examples.w_xyz
    = (Raise e, Examples.w_xyz) /\
    (forall gid,
        get_unique_graph
          (_flatten_tree (Leaf (VTensor (Examples.T 0 "z" 0))) []) = Return gid ->
        e = ValueError "Targets and replacements are not connected!").
Proof.
  assert (H : forall gid,
             get_unique_graph
               (_flatten_tree (Leaf (VTensor (Examples.T 0 "z" 0))) [])
             = Return gid ->
             get_walks_intersection_ops Examples.ex_externals Examples.w_xyz
               (dict_keys [(Examples.T 0 "x" 0, Examples.T 0 "x2" 0)])
               (_flatten_tree (Leaf (VTensor (Examples.T 0 "z" 0))) [])
               (ControlOutputs (Examples.w_xyz gid)) = [])
    by (intros gid _; reflexivity).
  split; [exact H|].
  exact (graph_replace_not_connected Examples.ex_externals Examples.w_xyz
           (Leaf (VTensor (Examples.T 0 "z" 0)))
           [(Examples.T 0 "x" 0, Examples.T 0 "x2" 0)] "" "" false H).
Defined.

(** ** The copy pass *)

Lemma same_maps_refl (i : TmpInfo) : same_maps i i.
Proof. repeat split. Qed.

Lemma same_maps_trans (a b c : TmpInfo) :
  same_maps a b -> same_maps b c -> same_maps a c.
Proof.
  intros [A1 [A2 A3]] [B1 [B2 B3]]. repeat split; congruence.
Qed.

Lemma km_ret {A} (a : A) : keeps_maps (ret a).
Proof. intros s o s' H. inversion H. apply same_maps_refl. Qed.

Lemma km_raise {A} (e : Exn) : keeps_maps (@raise TState A e).
Proof. intros s o s' H. inversion H. apply same_maps_refl. Qed.

Lemma km_lift {A} (x : outcome A) : keeps_maps (@lift TState A x).
Proof. intros s o s' H. inversion H. apply same_maps_refl. Qed.

Lemma km_get_info : keeps_maps get_info.
Proof. intros s o s' H. inversion H. apply same_maps_refl. Qed.

Lemma km_run_handler {A} (h : TmpInfo -> WM A) : keeps_maps (run_handler h).
Proof.
  intros s o s' H. unfold run_handler in H. inversion H. apply same_maps_refl.
Qed.

Lemma km_modify_info (f : TmpInfo -> TmpInfo) :
  (forall i, same_maps i (f i)) -> keeps_maps (modify_info f).
Proof. intros Hf s o s' H. inversion H. apply Hf. Qed.

Lemma km_bind {A B} (m : TM A) (k : A -> TM B) :
  keeps_maps m -> (forall a, keeps_maps (k a)) -> keeps_maps (bind m k).
Proof.
  intros Hm Hk s o s'. unfold bind.
  destruct (m s) as [[a| e |] s1] eqn:E; intros H.
  - apply Hk in H. apply Hm in E. eapply same_maps_trans; eauto.
  - inversion H; subst. now apply Hm in E.
  - inversion H; subst. now apply Hm in E.
Qed.

Lemma km_forM {A} (l : list A) (body : A -> TM unit) :
  (forall x, keeps_maps (body x)) -> keeps_maps (forM_ l body).
Proof.
  intros Hb. induction l as [|x l IH]; cbn [forM_].
  - apply km_ret.
  - apply km_bind; [apply Hb | intros; exact IH].
Qed.

Lemma km_mapM {A B} (f : A -> TM B) (l : list A) :
  (forall x, keeps_maps (f x)) -> keeps_maps (mapM f l).
Proof.
  intros Hf. induction l as [|x l IH]; cbn [mapM].
  - apply km_ret.
  - apply km_bind; [apply Hf | intros].
    apply km_bind; [exact IH | intros; apply km_ret].
Qed.

(** Take a pass apart along its binds and branches. *)
Ltac keeps_maps_tac :=
  repeat first
    [ apply km_ret | apply km_raise | apply km_lift | apply km_get_info
    | apply km_run_handler
    | apply km_modify_info; intros; repeat split
    | apply km_forM; intros
    | apply km_mapM; intros
    | apply km_bind; [|intros]
    | match goal with
      | |- keeps_maps (if ?b then _ else _) => destruct b
      | |- keeps_maps (match ?x with _ => _ end) => destruct x
      end ].

Section CopyPass.

Variable X : Externals.
Variable self : Transformer.

Lemma km_transformed_t (fuel : nat) :
  forall t consumer_op, keeps_maps (_transformed_t X self fuel t consumer_op).
Proof.
  induction fuel as [|fuel IH]; intros t consumer_op; cbn [_transformed_t].
  - apply km_lift.
  - apply km_bind; [apply km_get_info | intros info].
    destruct (dict_get Tensor_eqb (transformed_ts info) t); [apply km_ret|].
    destruct (existsb (Tensor_eqb t) (sgv_inputs_set info));
      [apply km_run_handler|].
    destruct (find _ _); [|apply km_run_handler].
    apply km_bind.
    + destruct (op_type consumer_op =? "Merge")%string.
      * destruct (inputs consumer_op); [apply km_raise | apply IH].
      * destruct (op_type n =? "Enter")%string; [|apply km_run_handler].
        destruct (inputs n); [apply km_raise | apply IH].
    + intros. keeps_maps_tac.
Qed.

Lemma km_finalize_cycles : keeps_maps (_finalize_cycles).
Proof. unfold _finalize_cycles. keeps_maps_tac. Qed.

Lemma km_connect_control_inputs :
  keeps_maps (_connect_control_inputs X self).
Proof. unfold _connect_control_inputs. keeps_maps_tac. Qed.

End CopyPass.

(** ** Dictionaries updated from a list of pairs *)

Lemma dict_update_keys (ps : list (Tensor * Tensor)) :
  forall (d : dict Tensor Tensor) (k : Tensor),
    In k (dict_keys (dict_update d ps)) <->
    In k (dict_keys d) \/ In k (map fst ps).
Proof.
  induction ps as [|p ps IH]; intros d k.
  - cbn. tauto.
  - change (dict_update d (p :: ps))
      with (dict_update (dict_set Tensor_eqb d (fst p) (snd p)) ps).
    rewrite IH, (dict_keys_set Tensor_eqb Tensor_eqb_eq). cbn [map In].
    intuition.
Qed.

Lemma dict_update_other (ps : list (Tensor * Tensor)) :
  forall (d : dict Tensor Tensor) (k : Tensor),
    ~ In k (map fst ps) ->
    dict_get Tensor_eqb (dict_update d ps) k = dict_get Tensor_eqb d k.
Proof.
  induction ps as [|p ps IH]; intros d k H; [reflexivity|].
  change (dict_update d (p :: ps))
    with (dict_update (dict_set Tensor_eqb d (fst p) (snd p)) ps).
  cbn [map In] in H. rewrite IH by tauto.
  apply (dict_get_set_other Tensor_eqb Tensor_eqb_eq). intros ->. tauto.
Qed.

Lemma dict_update_get (ps : list (Tensor * Tensor)) :
  forall (d : dict Tensor Tensor) (k v : Tensor),
    NoDup (map fst ps) ->
    In (k, v) ps ->
    dict_get Tensor_eqb (dict_update d ps) k = Some v.
Proof.
  induction ps as [|p ps IH]; intros d k v N H; [destruct H|].
  change (dict_update d (p :: ps))
    with (dict_update (dict_set Tensor_eqb d (fst p) (snd p)) ps).
  cbn [map] in N. apply NoDup_cons_iff in N. destruct N as [Hp N].
  destruct H as [->|H].
  - cbn [fst snd] in *.
    rewrite dict_update_other by exact Hp.
    apply (dict_get_set_same Tensor_eqb Tensor_eqb_eq).
  - now apply IH.
Qed.

Lemma outputs_node (op : Node) (t : Tensor) :
  In t (outputs op) -> t_node t = node_ref op.
Proof.
  unfold outputs. intros H. apply in_map_iff in H.
  destruct H as [i [<- _]]. reflexivity.
Qed.

Lemma outputs_NoDup (op : Node) : NoDup (outputs op).
Proof.
  unfold outputs. apply Injective_map_NoDup; [|apply seq_NoDup].
  intros i j E. now inversion E.
Qed.

Lemma combine_fst_NoDup {A B} (a : list A) :
  forall (b : list B), NoDup a -> NoDup (map fst (combine a b)).
Proof.
  induction a as [|x a IH]; intros b N; cbn; [constructor|].
  destruct b as [|y b]; cbn; [constructor|].
  apply NoDup_cons_iff in N. destruct N as [Hx N].
  constructor; [|now apply IH].
  intros H. apply Hx. apply in_map_iff in H. destruct H as [[x' y'] [E H]].
  cbn in E. subst x'. eapply in_combine_l. exact H.
Qed.

Lemma insert_by_id_perm (n : Node) (l : list Node) :
  Permutation (n :: l) (insert_by_id n l).
Proof.
  induction l as [|m l IH]; cbn [insert_by_id]; [apply Permutation_refl|].
  destruct (id_in_graph n <? id_in_graph m)%nat; [apply Permutation_refl|].
  eapply Permutation_trans; [apply perm_swap|]. now apply perm_skip.
Qed.

Lemma sort_by_id_perm (l : list Node) : Permutation l (sort_by_id l).
Proof.
  induction l as [|n l IH]; cbn [sort_by_id fold_right];
    [apply Permutation_refl|].
  eapply Permutation_trans; [|apply insert_by_id_perm]. now apply perm_skip.
Qed.


Section CopyOps.

Variable X : Externals.
Variable self : Transformer.

(** The loop over the outputs of one node. *)
Lemma record_outputs_returns (ps : list (Tensor * Tensor)) :
  forall (s s' : TState) (o : outcome unit),
    forM_ ps
      (fun oo =>
         modify_info (fun info =>
           with_transformed_ts
             (dict_set Tensor_eqb (transformed_ts info) (fst oo) (snd oo))
             info) ;;;
         run_handler (fun info =>
           assign_collections_handler self info
             (VTensor (fst oo)) (VTensor (snd oo)))) s = (o, s') ->
    sgv (fst s') = sgv (fst s) /\
    transformed_ops (fst s') = transformed_ops (fst s) /\
    (o = Return tt ->
     transformed_ts (fst s') = dict_update (transformed_ts (fst s)) ps).
Proof.
  induction ps as [|p ps IH]; intros s s' o H; cbn [forM_] in H.
  - inversion H; subst. repeat split.
  - unfold bind at 1 in H. unfold bind at 1, modify_info, modify, run_handler in H.
    cbn [fst snd] in H.
    destruct (assign_collections_handler self _ _ _ _) as [[[]| e |] w1] eqn:E;
      cbn [fst snd] in H.
    + apply IH in H. cbn [fst snd] in H. destruct H as [H1 [H2 H3]].
      split; [exact H1|]. split; [exact H2|]. exact H3.
    + inversion H; subst. cbn. repeat split; intros; discriminate.
    + inversion H; subst. cbn. repeat split; intros; discriminate.
Qed.

(** What a successful iteration of [_copy_ops] has done to the working
    state. *)
Lemma copy_op_returns (op : Node) (s s' : TState) :
  copy_op X self op s = (Return tt, s') ->
  exists op_ outs_,
    NodeRef_eqb (node_ref op) op_ = false /\
    sgv (fst s') = sgv (fst s) /\
    transformed_ops (fst s')
    = dict_set NodeRef_eqb (transformed_ops (fst s)) (node_ref op) op_ /\
    transformed_ts (fst s')
    = dict_update (transformed_ts (fst s)) (combine (outputs op) outs_).
Proof.
  unfold copy_op. unfold bind at 1. unfold get_info at 1, gets.
  unfold bind at 1.
  destruct (mapM _ (inputs op) s) as [[new_inputs| |] s1] eqn:E1;
    try discriminate.
  assert (M1 : same_maps (fst s) (fst s1)).
  { eapply (km_mapM _ (inputs op)); [|exact E1].
    intros t. apply km_transformed_t. }
  unfold bind at 1. unfold run_handler at 1.
  destruct (transform_op_handler self (fst s1) op new_inputs (snd s1))
    as [[[op_ outs_]| |] w2] eqn:E2; cbn [fst snd]; try discriminate.
  destruct (NodeRef_eqb (node_ref op) op_) eqn:E3; [discriminate|].
  unfold bind at 1, modify_info at 1, modify. unfold bind at 1.
  unfold run_handler at 1. cbn [fst snd].
  destruct (assign_collections_handler self _ (VNode (node_ref op)) (VNode op_) w2)
    as [[[]| |] w3] eqn:E4; cbn [fst snd]; try discriminate.
  intros H. apply record_outputs_returns in H. cbn [fst snd] in H.
  destruct H as [H1 [H2 H3]]. destruct M1 as [M1 [M2 M3]].
  exists op_, outs_. split; [exact E3|].
  split; [rewrite H1; exact M1|]. split.
  - rewrite H2. cbn. now rewrite M2.
  - rewrite (H3 eq_refl). cbn. now rewrite M3.
Qed.

Lemma recorded_kept (i i' : TmpInfo) (op : Node) :
  recorded i op ->
  dict_get NodeRef_eqb (transformed_ops i') (node_ref op)
  = dict_get NodeRef_eqb (transformed_ops i) (node_ref op) ->
  (forall t, t_node t = node_ref op ->
             dict_get Tensor_eqb (transformed_ts i') t
             = dict_get Tensor_eqb (transformed_ts i) t) ->
  recorded i' op.
Proof.
  intros [op_ [outs_ [H1 [H2 H3]]]] E1 E2.
  exists op_, outs_. split; [now rewrite E1|]. split; [exact H2|].
  intros o o_ H. rewrite E2; [now apply H3|].
  apply outputs_node. eapply in_combine_l. exact H.
Qed.

(** The loop of [_copy_ops] over a list of nodes, when it returns. *)
Lemma copy_loop_returns (l : list Node) :
  forall (s s' : TState),
    forM_ l (copy_op X self) s = (Return tt, s') ->
    sgv (fst s') = sgv (fst s) /\
    (forall k, In k (dict_keys (transformed_ops (fst s'))) <->
               In k (dict_keys (transformed_ops (fst s)))
               \/ In k (map node_ref l)) /\
    (forall t, In t (dict_keys (transformed_ts (fst s'))) ->
               In t (dict_keys (transformed_ts (fst s)))
               \/ In (t_node t) (map node_ref l)) /\
    (forall r, ~ In r (map node_ref l) ->
               dict_get NodeRef_eqb (transformed_ops (fst s')) r
               = dict_get NodeRef_eqb (transformed_ops (fst s)) r) /\
    (forall t, ~ In (t_node t) (map node_ref l) ->
               dict_get Tensor_eqb (transformed_ts (fst s')) t
               = dict_get Tensor_eqb (transformed_ts (fst s)) t) /\
    (NoDup (map node_ref l) -> forall op, In op l -> recorded (fst s') op).
Proof.
  induction l as [|x l IH]; intros s s' H; cbn [forM_] in H.
  - inversion H; subst. cbn. repeat split; try tauto; intros; tauto.
  - unfold bind in H.
    destruct (copy_op X self x s) as [[[]| |] s1] eqn:E; try discriminate.
    destruct (copy_op_returns x s s1 E) as [op_ [outs_ [E0 [E1 [E2 E3]]]]].
    destruct (IH s1 s' H) as [I1 [I2 [I3 [I4 [I5 I6]]]]].
    assert (Fst : forall t, In t (map fst (combine (outputs x) outs_)) ->
                            t_node t = node_ref x).
    { intros t Ht. apply in_map_iff in Ht. destruct Ht as [[a b] [<- Hab]].
      apply outputs_node. eapply in_combine_l. exact Hab. }
    split; [congruence|]. split; [|split; [|split; [|split]]].
    + intros k. rewrite I2, E2, (dict_keys_set NodeRef_eqb NodeRef_eqb_eq).
      cbn [map In]. intuition.
    + intros t Ht. apply I3 in Ht. cbn [map In]. destruct Ht as [Ht|Ht]; [|tauto].
      rewrite E3 in Ht. apply dict_update_keys in Ht.
      destruct Ht as [Ht|Ht]; [tauto|]. right. left. symmetry. now apply Fst.
    + intros r Hr. cbn [map In] in Hr. rewrite I4 by tauto. rewrite E2.
      apply (dict_get_set_other NodeRef_eqb NodeRef_eqb_eq). intros ->. tauto.
    + intros t Ht. cbn [map In] in Ht. rewrite I5 by tauto. rewrite E3.
      apply dict_update_other. intros Hin. apply Fst in Hin. intuition.
    + intros N op Hop. cbn [map] in N. apply NoDup_cons_iff in N.
      destruct N as [Nx Nl]. destruct Hop as [<-|Hop]; [|now apply I6].
      apply (recorded_kept (fst s1)).
      * exists op_, outs_. split.
        -- rewrite E2. apply (dict_get_set_same NodeRef_eqb NodeRef_eqb_eq).
        -- split.
           ++ intros ->. rewrite (eqb_refl_of NodeRef_eqb NodeRef_eqb_eq) in E0.
              discriminate.
           ++ intros o o_ Hoo. rewrite E3. apply dict_update_get; [|exact Hoo].
              apply combine_fst_NoDup. apply outputs_NoDup.
      * now apply I4.
      * intros t Ht. apply I5. now rewrite Ht.
Qed.


End CopyOps.




(** On the example the copies are [f_1] and [y_1]. *)
Example copy_ops_example :
  transformed_ops
    (fst (snd (_copy_ops Examples.ex_externals
                         (Transformer_init Examples.ex_externals)
                         (Examples.info_fy, Examples.w_xyz))))
  = [(mkNodeRef 0 "f", mkNodeRef 0 "f_1"); (mkNodeRef 0 "y", mkNodeRef 0 "y_1")].
Proof. vm_compute. reflexivity. Qed.

(** ** graph_replace: what it returns *)

Lemma bind_returns {S A B} (m : M S A) (k : A -> M S B) (s s' : S) (b : B) :
  bind m k s = (Return b, s') ->
  exists a s1, m s = (Return a, s1) /\ k a s1 = (Return b, s').
Proof.
  unfold bind. destruct (m s) as [[a| |] s1]; intros H; try discriminate.
  now exists a, s1.
Qed.

Lemma flatten_tree_leaves (tree : Tree) :
  forall acc, _flatten_tree tree acc = acc ++ leaves tree.
Proof.
  induction tree as [v|l IH|l IH] using Tree_ind'; intros acc; cbn.
  - reflexivity.
  - revert acc. induction IH as [|c l Hc _ IHl]; intros acc; cbn.
    + now rewrite app_nil_r.
    + rewrite Hc, IHl. now rewrite app_assoc.
  - revert acc. induction IH as [|[k c] l Hc _ IHl]; intros acc; cbn.
    + now rewrite app_nil_r.
    + cbn in Hc. rewrite Hc, IHl. now rewrite app_assoc.
Qed.

Lemma unique_graph_tensors (l : list Val) :
  forall (o : option GraphId) (gid : GraphId),
    unique_graph_from o l = Return gid -> Forall is_tensor l.
Proof.
  induction l as [|v l IH]; intros o gid H; [constructor|].
  cbn in H. destruct v as [|n|t|s]; try discriminate H.
  constructor; [now exists t|].
  destruct o as [g|].
  - destruct (g =? ref_graph (t_node t))%nat; [|discriminate H].
    eapply IH; exact H.
  - eapply IH; exact H.
Qed.

(** On a tree of tensors, a leaf function that always returns is a map. *)
Lemma transform_tree_map (fn : Val -> outcome Val) (f : Val -> Val)
  (tree : Tree) :
  (forall v, is_tensor v -> fn v = Return (f v)) ->
  Forall is_tensor (leaves tree) ->
  transform_tree tree fn = Return (tree_map f tree).
Proof.
  intros Hfn.
  induction tree as [v|l IH|l IH] using Tree_ind'; intros L; cbn in *.
  - inversion L; subst. now rewrite Hfn.
  - assert (E : (fix go (l : list Tree) : outcome (list Tree) :=
                   match l with
                   | [] => Return []
                   | child :: l' =>
                       match transform_tree child fn with
                       | Return c =>
                           match go l' with
                           | Return cs => Return (c :: cs)
                           | Raise e => Raise e
                           | OutOfFuel => OutOfFuel
                           end
                       | Raise e => Raise e
                       | OutOfFuel => OutOfFuel
                       end
                   end) l = Return (map (tree_map f) l)).
    { induction IH as [|c l Hc _ IHl]; cbn in *; [reflexivity|].
      apply Forall_app in L. destruct L as [L1 L2].
      rewrite (Hc L1), (IHl L2). reflexivity. }
    now rewrite E.
  - assert (E : (fix go (l : list (string * Tree))
                   : outcome (list (string * Tree)) :=
                   match l with
                   | [] => Return []
                   | (k, child) :: l' =>
                       match transform_tree child fn with
                       | Return c =>
                           match go l' with
                           | Return cs => Return ((k, c) :: cs)
                           | Raise e => Raise e
                           | OutOfFuel => OutOfFuel
                           end
                       | Raise e => Raise e
                       | OutOfFuel => OutOfFuel
                       end
                   end) l
                = Return (map (fun kv => match kv with
                                         | (k, c) => (k, tree_map f c)
                                         end) l)).
    { induction IH as [|[k c] l Hc _ IHl]; cbn in *; [reflexivity|].
      apply Forall_app in L. destruct L as [L1 L2].
      rewrite (Hc L1), (IHl L2). reflexivity. }
    now rewrite E.
Qed.

Lemma transformed_tensors (info : TransformerInfo) (tree : Tree) :
  Forall is_tensor (leaves tree) ->
  transformed info tree (Some missing_fn)
  = Return (tree_map (transformed_or_self info) tree).
Proof.
  intros L. unfold transformed. apply transform_tree_map; [|exact L].
  intros v [t ->]. rewrite transformed_elem_tensor. cbn.
  destruct (dict_get Tensor_eqb (_transformed_ts info) t); reflexivity.
Qed.

Section CallFacts.

Variable X : Externals.
Variable self : Transformer.

(** The three passes record tensors of copied nodes only, and copy every
    interior node. *)
Lemma run_passes_maps (info info' : TmpInfo) (w w' : World) :
  run_passes X self info w = (Return info', w') ->
  (forall k, In k (dict_keys (transformed_ops info')) <->
             In k (dict_keys (transformed_ops info))
             \/ In k (map node_ref (sgv_ops (sgv info)))) /\
  (forall t, In t (dict_keys (transformed_ts info')) ->
             In t (dict_keys (transformed_ts info))
             \/ In (t_node t) (map node_ref (sgv_ops (sgv info)))).
Proof.
  unfold run_passes.
  destruct ((_copy_ops X self ;;; _finalize_cycles ;;;
             _connect_control_inputs X self) (info, w))
    as [[[]| |] s3] eqn:E; intros H; try discriminate H.
  assert (Hi : info' = fst s3) by (inversion H; reflexivity).
  subst info'. clear H.
  apply bind_returns in E. destruct E as [[] [s1 [E1 E]]].
  apply bind_returns in E. destruct E as [[] [s2 [E2 E3]]].
  apply km_finalize_cycles in E2. apply km_connect_control_inputs in E3.
  destruct E2 as [_ [A2 A3]]. destruct E3 as [_ [B2 B3]].
  rewrite B2, B3, A2, A3.
  unfold _copy_ops in E1. apply bind_returns in E1.
  destruct E1 as [i [s0 [E0 E1]]].
  unfold get_info, gets in E0. cbn [fst] in E0.
  assert (Hi : i = info) by (inversion E0; reflexivity).
  assert (Hs : s0 = (info, w)) by (inversion E0; reflexivity).
  subst i s0. clear E0. cbn [fst] in E1.
  destruct (copy_loop_returns X self _ _ _ E1) as [_ [K1 [K2 _]]].
  cbn [fst] in K1, K2.
  assert (P : forall r, In r (map node_ref (sort_by_id (sgv_ops (sgv info))))
                        <-> In r (map node_ref (sgv_ops (sgv info)))).
  { intros r. split; apply Permutation_in; apply Permutation_map;
      [apply Permutation_sym|]; apply sort_by_id_perm. }
  split.
  - intros k. rewrite K1, P. tauto.
  - intros t Ht. apply K2 in Ht. rewrite P in Ht. exact Ht.
Qed.

(** The record of a call: every tensor it maps is an output of a node it
    maps. *)
Lemma Transformer_call_maps (arg : ViewArg) (dst_graph : GraphId)
  (dst_scope src_scope : string) (reuse : bool) (w w' : World)
  (r : SubGraphView * TransformerInfo) :
  Transformer_call X self arg dst_graph dst_scope src_scope reuse w
  = (Return r, w') ->
  forall t, In t (dict_keys (_transformed_ts (snd r))) ->
            In (t_node t) (dict_keys (_transformed_ops (snd r))).
Proof.
  unfold Transformer_call. intros H.
  apply bind_returns in H. destruct H as [v [w1 [_ H]]].
  apply bind_returns in H. destruct H as [ds [w2 [_ H]]].
  apply bind_returns in H. destruct H as [info0 [w3 [E0 H]]].
  apply bind_returns in H. destruct H as [info1 [w4 [E1 H]]].
  apply bind_returns in H. destruct H as [sgv_ [w5 [_ H]]].
  inversion H; subst. clear H. cbn [snd TransformerInfo_init _transformed_ts
                                     _transformed_ops].
  unfold TmpInfo_init in E0.
  apply bind_returns in E0. destruct E0 as [co [w6 [_ E0]]].
  apply bind_returns in E0. destruct E0 as [cs [w7 [_ E0]]].
  inversion E0; subst. clear E0.
  destruct (run_passes_maps _ _ _ _ E1) as [K1 K2].
  cbn [transformed_ops transformed_ts sgv dict_keys map] in K1, K2.
  intros t Ht. apply K2 in Ht. destruct Ht as [[]|Ht].
  apply K1. now right.
Qed.

End CallFacts.

(** C8. When [graph_replace] returns, its result is the tree of targets with
    every leaf replaced by what the record of the copy says: a target whose
    producing node is not among the copied nodes comes back as the original
    tensor itself, a target with a recorded counterpart comes back as that
    counterpart; the shape of the argument is kept. *)
Theorem graph_replace_returns (X : Externals) (w w' : World)
  (target_ts result : Tree) (replacement_ts : dict Tensor Tensor)
  (dst_scope src_scope : string) (reuse_dst_scope : bool) :
  graph_replace X target_ts replacement_ts dst_scope src_scope
                reuse_dst_scope w = (Return result, w') ->
  exists ops w1 sgv_ info,
    copy_with_input_replacements X (OfNodes ops) replacement_ts None
      dst_scope src_scope reuse_dst_scope w1 = (Return (sgv_, info), w') /\
    Forall is_tensor (leaves target_ts) /\
    result = tree_map (transformed_or_self info) target_ts /\
    (forall t, ~ In (t_node t) (dict_keys (_transformed_ops info)) ->
               transformed_or_self info (VTensor t) = VTensor t) /\
    (forall t t_, dict_get Tensor_eqb (_transformed_ts info) t = Some t_ ->
                  transformed_or_self info (VTensor t) = VTensor t_).
Proof.
  unfold graph_replace. intros H.
  apply bind_returns in H. destruct H as [gid [w0 [U H]]].
  unfold lift in U.
  assert (L : Forall is_tensor (leaves target_ts)).
  { destruct (get_unique_graph (_flatten_tree target_ts [])) eqn:G;
      inversion U; subst.
    unfold get_unique_graph in G. apply unique_graph_tensors in G.
    now rewrite flatten_tree_leaves in G. }
  apply bind_returns in H. destruct H as [cio [w2 [_ H]]].
  apply bind_returns in H. destruct H as [ops0 [w3 [_ H]]].
  destruct (is_empty ops0); [discriminate H|].
  apply bind_returns in H. destruct H as [ops [w1 [_ H]]].
  apply bind_returns in H. destruct H as [[sgv_ info] [w4 [C H]]].
  cbn [snd] in H. rewrite (transformed_tensors info target_ts L) in H.
  inversion H; subst. clear H.
  exists ops, w1, sgv_, info. split; [exact C|]. split; [exact L|].
  split; [reflexivity|]. split.
  - intros t Ht. cbn.
    destruct (dict_get Tensor_eqb (_transformed_ts info) t) as [t_|] eqn:E;
      [|reflexivity].
    exfalso. apply Ht.
    unfold copy_with_input_replacements in C.
    apply bind_returns in C. destruct C as [v [w5 [_ C]]].
    apply (Transformer_call_maps _ _ _ _ _ _ _ _ _ _ C t).
    now apply (dict_get_Some_In Tensor_eqb Tensor_eqb_eq) in E.
  - intros t t_ E. cbn. now rewrite E.
Qed.

Lemma graph_replace_returns_witness :
  graph_replace Examples.ex_externals Examples.targets_yz Examples.replace_x
                "" "" false Examples.w_xyz
  = (Return (Seq [Leaf (VTensor (Examples.T 0 "y_1" 0));
                  Leaf (VTensor (Examples.T 0 "z" 0))]),
     snd (graph_replace Examples.ex_externals Examples.targets_yz
                        Examples.replace_x "" "" false Examples.w_xyz)) /\
  exists ops w1 sgv_ info,
    copy_with_input_replacements Examples.ex_externals (OfNodes ops)
      Examples.replace_x None "" "" false w1
    = (Return (sgv_, info),
       snd (graph_replace Examples.ex_externals Examples.targets_yz
                          Examples.replace_x "" "" false Examples.w_xyz)) /\
    Forall is_tensor (leaves Examples.targets_yz) /\
    Seq [Leaf (VTensor (Examples.T 0 "y_1" 0));
         Leaf (VTensor (Examples.T 0 "z" 0))]
    = tree_map (transformed_or_self info) Examples.targets_yz /\
    (forall t, ~ In (t_node t) (dict_keys (_transformed_ops info)) ->
               transformed_or_self info (VTensor t) = VTensor t) /\
    (forall t t_, dict_get Tensor_eqb (_transformed_ts info) t = Some t_ ->
                  transformed_or_self info (VTensor t) = VTensor t_).
Proof.
  assert (H : graph_replace Examples.ex_externals Examples.targets_yz
                Examples.replace_x "" "" false Examples.w_xyz
              = (Return (Seq [Leaf (VTensor (Examples.T 0 "y_1" 0));
                              Leaf (VTensor (Examples.T 0 "z" 0))]),
                 snd (graph_replace Examples.ex_externals Examples.targets_yz
                        Examples.replace_x "" "" false Examples.w_xyz)))
    by (vm_compute; reflexivity).
  split; [exact H|].
  exact (graph_replace_returns Examples.ex_externals Examples.w_xyz _
           Examples.targets_yz _ Examples.replace_x "" "" false H).
Defined.

(** ** copy_op_handler: names and co-location groups *)

Lemma new_name_returns (info : TmpInfo) (name r : string) :
  new_name info name = Return r ->
  r = translate info name /\ Str.startswith name (scope info) = true.
Proof.
  unfold new_name, translate.
  destruct (Str.startswith name (scope info)); cbn; intros H; inversion H.
  split; reflexivity.
Qed.


Lemma dict_set_keys_present {V} (d : dict string V) (k : string) (v : V) :
  In k (dict_keys d) -> dict_keys (dict_set String.eqb d k v) = dict_keys d.
Proof.
  unfold dict_keys.
  induction d as [|[k' v'] d IH]; cbn; intros H; [contradiction|].
  destruct (String.eqb_spec k' k) as [->|N]; cbn; [reflexivity|].
  rewrite IH; [reflexivity|]. destruct H; [contradiction | assumption].
Qed.


(** *** Methods that keep the attributes of the nodes *)

Lemma kna_ret {A} (a : A) : keeps_node_attrs (ret a).
Proof.
  intros g o g' k n H G. inversion H; subst. split; [reflexivity|].
  exists n. auto.
Qed.

Lemma kna_raise {A} (e : Exn) : keeps_node_attrs (@raise Graph A e).
Proof.
  intros g o g' k n H G. inversion H; subst. split; [reflexivity|].
  exists n. auto.
Qed.

Lemma kna_gets {A} (f : Graph -> A) : keeps_node_attrs (gets f).
Proof.
  intros g o g' k n H G. inversion H; subst. split; [reflexivity|].
  exists n. auto.
Qed.








(** Filling an empty attribute table from a table with distinct keys gives
    that table back. *)
Lemma refill_attrs (l : dict string AttrValue) :
  forall acc,
    NoDup (dict_keys acc ++ dict_keys l) ->
    fold_left (fun a kv => dict_set String.eqb a (fst kv) (snd kv)) l acc
    = acc ++ l.
Proof.
  induction l as [|[k v] l IH]; intros acc N; cbn [fold_left fst snd].
  - now rewrite app_nil_r.
  - cbn [dict_keys map fst] in N.
    rewrite dict_set_fresh.
    + rewrite IH.
      * now rewrite <- app_assoc.
      * unfold dict_keys in *. rewrite map_app. cbn [map fst].
        now rewrite <- app_assoc.
    + apply NoDup_remove_2 in N. intros H. apply N. apply in_or_app. now left.
Qed.



Lemma on_graph_returns {A} (gid : GraphId) (m : GM A) (w w' : World) (a : A) :
  on_graph gid m w = (Return a, w') ->
  exists g', m (w gid) = (Return a, g') /\ w' = world_set w gid g'.
Proof.
  unfold on_graph. destruct (m (w gid)) as [o g'] eqn:E. cbn.
  intros H. inversion H; subst. now exists g'.
Qed.

Lemma world_set_same (w : World) (gid : GraphId) (g : Graph) :
  world_set w gid g gid = g.
Proof. unfold world_set. now rewrite Nat.eqb_refl. Qed.




(* ------------------------------------------------------------------ *)
(** * Further properties of the graph container *)

(** ** The node table *)

Lemma add_node_result (g g' : Graph) (name op_name : string) (u : bool)
  (o : outcome Node) :
  add_node name op_name u g = (o, g') ->
  g' = g \/
  exists nm,
    add_node_name g name u = Return nm /\
    name_in_use g nm = false /\
    _node_name_to_node g'
    = _node_name_to_node g
        ++ [(nm, Node_init (graph_id g) (_next_id g) nm op_name)] /\
    _next_id g' = _next_id g + 1 /\
    graph_id g' = graph_id g /\
    _collections g' = _collections g /\
    (o = Return (Node_init (graph_id g) (_next_id g) nm op_name)
     \/ exists e, o = Raise e).
Proof.
  rewrite add_node_unfold.
  destruct (add_node_name_cases g name u) as [[nm [E U]]|[_ [_ [msg E]]]];
    rewrite E.
  - assert (T : dict_set String.eqb (_node_name_to_node g) nm
                  (Node_init (graph_id g) (_next_id g) nm op_name)
                = _node_name_to_node g
                    ++ [(nm, Node_init (graph_id g) (_next_id g) nm op_name)])
      by (apply dict_set_fresh, name_not_in_use_fresh, U).
    destruct (_frozen g); intros H; inversion H; subst; right; exists nm;
      cbn; rewrite T; repeat split; eauto.
  - intros H. inversion H. now left.
Qed.

Lemma getitem_stored (g : Graph) (k : string) (n : Node) :
  dict_get String.eqb (_node_name_to_node g) k = Some n ->
  getitem k g = (Return n, g) /\ contains_node k g = (Return true, g).
Proof.
  intros G.
  assert (C : Str.mem k (dict_keys (_node_name_to_node g)) = true)
    by (apply mem_In; now apply (dict_get_Some_In String.eqb String.eqb_eq) in G).
  unfold getitem, contains_node, bind, gets, ret. cbv beta iota.
  rewrite C. cbv beta iota. rewrite G. split; reflexivity.
Qed.

(** X1. A node that [add_node] has returned is found again under its name: the
    lookup by name and the membership test both see it, and it carries the
    identity that the counter held before the call. *)
Theorem add_node_then_getitem (g g' : Graph) (name op_name : string)
  (u : bool) (n : Node) :
  add_node name op_name u g = (Return n, g') ->
  getitem (node_name n) g' = (Return n, g') /\
  contains_node (node_name n) g' = (Return true, g') /\
  id_in_graph n = _next_id g /\
  _next_id g' = _next_id g + 1 /\
  op_type n = op_name /\
  node_graph n = graph_id g /\
  inputs n = [] /\ control_inputs n = [] /\ attrs n = [].
Proof.
  intros H. rewrite add_node_unfold in H.
  destruct (add_node_name g name u) as [nm| |]; try discriminate.
  destruct (_frozen g); try discriminate.
  inversion H; subst; clear H. unfold registered.
  assert (N : node_name (Node_init (graph_id g) (_next_id g) nm op_name) = nm)
    by reflexivity.
  rewrite N.
  assert (G : dict_get String.eqb
                (_node_name_to_node
                   (set_frame_tables None None
                      (set_version (_version g + 1)
                         (set_node_name_to_node
                            (dict_set String.eqb (_node_name_to_node g) nm
                               (Node_init (graph_id g) (_next_id g) nm op_name))
                            (set_next_id (_next_id g + 1) g))))) nm
              = Some (Node_init (graph_id g) (_next_id g) nm op_name))
    by apply (dict_get_set_same String.eqb String.eqb_eq).
  destruct (getitem_stored _ _ _ G) as [G1 G2].
  split; [exact G1|]. split; [exact G2|]. cbn. repeat split; reflexivity.
Qed.

Lemma add_node_then_getitem_witness :
  add_node "a" "Const" true Examples.g_foo
  = (Return (Node_init 0 2 "a" "Const"),
     snd (add_node "a" "Const" true Examples.g_foo)) /\
  getitem (node_name (Node_init 0 2 "a" "Const"))
          (snd (add_node "a" "Const" true Examples.g_foo))
  = (Return (Node_init 0 2 "a" "Const"),
     snd (add_node "a" "Const" true Examples.g_foo)) /\
  contains_node (node_name (Node_init 0 2 "a" "Const"))
                (snd (add_node "a" "Const" true Examples.g_foo))
  = (Return true, snd (add_node "a" "Const" true Examples.g_foo)) /\
  id_in_graph (Node_init 0 2 "a" "Const") = _next_id Examples.g_foo /\
  _next_id (snd (add_node "a" "Const" true Examples.g_foo))
  = _next_id Examples.g_foo + 1 /\
  op_type (Node_init 0 2 "a" "Const") = "Const" /\
  node_graph (Node_init 0 2 "a" "Const") = graph_id Examples.g_foo /\
  inputs (Node_init 0 2 "a" "Const") = [] /\
  control_inputs (Node_init 0 2 "a" "Const") = [] /\
  attrs (Node_init 0 2 "a" "Const") = [].
Proof.
  split; [vm_compute; reflexivity|].
  apply (add_node_then_getitem Examples.g_foo _ "a" "Const" true).
  vm_compute. reflexivity.
Defined.

(** X2. On a graph that is not frozen, [add_node] with [uniquify_name] set cannot
    fail: it returns a node named as [unique_name] says, stores it after the
    entries already there, which it leaves as they were, moves the version
    counter by one and drops the cached frame tables. *)
Theorem add_node_uniquify_succeeds (g : Graph) (name op_name : string) :
  _frozen g = false ->
  exists n g',
    add_node name op_name true g = (Return n, g') /\
    unique_name_of g name = Return (node_name n) /\
    name_in_use g (node_name n) = false /\
    _node_name_to_node g' = _node_name_to_node g ++ [(node_name n, n)] /\
    _version g' = _version g + 1 /\
    _node_to_frame_names g' = None /\
    _frame_name_to_nodes g' = None /\
    _frozen g' = false /\
    _collections g' = _collections g.
Proof.
  intros F. rewrite add_node_unfold. unfold add_node_name.
  destruct (unique_name_of_returns g name) as [r [E U]]. rewrite E, F.
  eexists. eexists. split; [reflexivity|].
  cbn. rewrite (dict_set_fresh _ _ _ (name_not_in_use_fresh g r U)).
  repeat split; assumption || reflexivity.
Qed.

Lemma add_node_uniquify_succeeds_witness :
  _frozen Examples.g_foo = false /\
  exists n g',
    add_node "Foo" "Const" true Examples.g_foo = (Return n, g') /\
    unique_name_of Examples.g_foo "Foo" = Return (node_name n) /\
    name_in_use Examples.g_foo (node_name n) = false /\
    _node_name_to_node g'
    = _node_name_to_node Examples.g_foo ++ [(node_name n, n)] /\
    _version g' = _version Examples.g_foo + 1 /\
    _node_to_frame_names g' = None /\
    _frame_name_to_nodes g' = None /\
    _frozen g' = false /\
    _collections g' = _collections Examples.g_foo.
Proof.
  split; [reflexivity|].
  apply (add_node_uniquify_succeeds Examples.g_foo "Foo" "Const").
  reflexivity.
Defined.

Lemma names_distinct_app (g : Graph) (nm : string) (tbl : dict string Node)
  (n : Node) :
  names_distinct g ->
  name_in_use g nm = false ->
  tbl = _node_name_to_node g ++ [(nm, n)] ->
  NoDup (map Str.lower (dict_keys tbl)).
Proof.
  unfold names_distinct, name_in_use. intros D U ->.
  unfold dict_keys. rewrite !map_app. cbn.
  apply NoDup_app_remove_l with (l := []). cbn.
  apply Permutation_NoDup
    with (l := Str.lower nm :: map Str.lower (map fst (_node_name_to_node g))).
  - apply Permutation_cons_append.
  - constructor; [|exact D].
    intros I. apply mem_In in I. unfold dict_keys in U. congruence.
Qed.

(** X3. Whatever its outcome, [add_node] keeps the names of the table distinct
    up to case, and never replaces or removes an entry that was there. *)
Theorem add_node_keeps_names_distinct (g g' : Graph) (name op_name : string)
  (u : bool) (o : outcome Node) :
  names_distinct g ->
  add_node name op_name u g = (o, g') ->
  names_distinct g' /\
  forall k n0,
    dict_get String.eqb (_node_name_to_node g) k = Some n0 ->
    dict_get String.eqb (_node_name_to_node g') k = Some n0.
Proof.
  intros D H. apply add_node_result in H.
  destruct H as [->|[nm [_ [U [T _]]]]]; [now split|].
  split.
  - unfold names_distinct. eapply names_distinct_app; eauto.
  - intros k n0 G. rewrite T, (dict_get_app String.eqb). now rewrite G.
Qed.

Lemma add_node_keeps_names_distinct_witness :
  names_distinct Examples.g_foo /\
  names_distinct (snd (add_node "FOO" "Const" true Examples.g_foo)) /\
  forall k n0,
    dict_get String.eqb (_node_name_to_node Examples.g_foo) k = Some n0 ->
    dict_get String.eqb
      (_node_name_to_node (snd (add_node "FOO" "Const" true Examples.g_foo))) k
    = Some n0.
Proof.
  assert (D : names_distinct Examples.g_foo)
    by (unfold names_distinct; cbn; solve_nodup).
  split; [exact D|].
  apply (add_node_keeps_names_distinct Examples.g_foo _ "FOO" "Const" true
           (fst (add_node "FOO" "Const" true Examples.g_foo)) D).
  vm_compute. reflexivity.
Defined.

(** X4. Whatever its outcome, [add_node] keeps every identity in the table below
    the counter; the node it returns has an identity that no node of the
    graph had before the call. *)
Theorem add_node_ids_fresh (g g' : Graph) (name op_name : string)
  (u : bool) (o : outcome Node) :
  ids_below_next g ->
  add_node name op_name u g = (o, g') ->
  ids_below_next g' /\
  forall n, o = Return n ->
            forall m, In m (nodes g) -> id_in_graph m <> id_in_graph n.
Proof.
  intros B H. pose proof (add_node_result _ _ _ _ _ _ H) as R.
  split.
  - destruct R as [->|[nm [_ [_ [T [N _]]]]]]; [exact B|].
    unfold ids_below_next, nodes, dict_values. rewrite T, N, map_app.
    intros n I. apply in_app_or in I. destruct I as [I|I].
    + specialize (B n I). lia.
    + cbn in I. destruct I as [<-|[]]. cbn. lia.
  - intros n -> m I. rewrite add_node_unfold in H.
    destruct (add_node_name g name u); try discriminate.
    destruct (_frozen g); try discriminate.
    inversion H; subst. cbn. specialize (B m I). lia.
Qed.

Lemma add_node_ids_fresh_witness :
  ids_below_next Examples.g_foo /\
  ids_below_next (snd (add_node "foo" "Const" true Examples.g_foo)) /\
  forall n, fst (add_node "foo" "Const" true Examples.g_foo) = Return n ->
            forall m, In m (nodes Examples.g_foo) ->
                      id_in_graph m <> id_in_graph n.
Proof.
  assert (B : ids_below_next Examples.g_foo).
  { intros n I. cbn in I. destruct I as [<-|[]]. cbn. lia. }
  split; [exact B|].
  apply (add_node_ids_fresh Examples.g_foo _ "foo" "Const" true _ B).
  vm_compute. reflexivity.
Defined.

(** X5. A name that equals a stored name up to case is taken: [add_node] without
    [uniquify_name] refuses it with a [ValueError] and leaves the graph as it
    was, and [unique_name] answers with another name. *)
Theorem add_node_name_taken_up_to_case (g : Graph) (name stored op_name : string) :
  In stored (dict_keys (_node_name_to_node g)) ->
  Str.lower name = Str.lower stored ->
  (exists msg, add_node name op_name false g = (Raise (ValueError msg), g)) /\
  (exists r, unique_name name g = (Return r, g) /\ r <> name /\
             name_in_use g r = false).
Proof.
  intros I L.
  assert (U : name_in_use g name = true).
  { unfold name_in_use. apply mem_In. rewrite L. now apply in_map. }
  split.
  - rewrite add_node_unfold. unfold add_node_name. rewrite U.
    eexists. reflexivity.
  - unfold unique_name. destruct (unique_name_of_returns g name) as [r [E F]].
    exists r. rewrite E. repeat split; [|exact F].
    intros ->. congruence.
Qed.

Lemma add_node_name_taken_up_to_case_witness :
  In "foo" (dict_keys (_node_name_to_node Examples.g_foo)) /\
  Str.lower "Foo" = Str.lower "foo" /\
  (exists msg,
      add_node "Foo" "Const" false Examples.g_foo
      = (Raise (ValueError msg), Examples.g_foo)) /\
  (exists r, unique_name "Foo" Examples.g_foo = (Return r, Examples.g_foo) /\
             r <> "Foo" /\ name_in_use Examples.g_foo r = false).
Proof.
  split; [cbn; auto|]. split; [reflexivity|].
  apply (add_node_name_taken_up_to_case Examples.g_foo "Foo" "foo" "Const");
    [cbn; auto | reflexivity].
Defined.

(** X6. The answer of [unique_name] is a name that [unique_name] hands back
    unchanged. *)
Theorem unique_name_idempotent (g : Graph) (name : string) :
  exists r,
    unique_name name g = (Return r, g) /\
    unique_name r g = (Return r, g).
Proof.
  destruct (unique_name_of_returns g name) as [r [E F]].
  exists r. unfold unique_name. rewrite E. split; [reflexivity|].
  unfold unique_name_of. now rewrite F.
Qed.

(** ** The cache of the frame analysis *)

Lemma node_to_frame_names_cached (g : Graph) (n : Node)
  (d : dict NodeRef (list FrameName)) :
  _node_to_frame_names g = Some d ->
  node_to_frame_names n g =
  (match dict_get NodeRef_eqb d (node_ref n) with
   | Some t => Return t
   | None => Raise KeyError
   end, g).
Proof.
  intros C. unfold node_to_frame_names, ensure_frame_tables, bind, gets, ret.
  cbv beta iota. rewrite C. cbv beta iota. rewrite C.
  destruct (dict_get NodeRef_eqb d (node_ref n)); reflexivity.
Qed.

Lemma frame_name_to_nodes_cached (g : Graph) (f : FrameName)
  (d : dict NodeRef (list FrameName)) (o : outcome (list Node)) (g2 : Graph) :
  _node_to_frame_names g = Some d ->
  frame_name_to_nodes f g = (o, g2) -> g2 = g.
Proof.
  intros C. unfold frame_name_to_nodes, ensure_frame_tables, bind, gets, ret.
  cbv beta iota. rewrite C. cbv beta iota.
  destruct (_frame_name_to_nodes g) as [d'|]; cbv beta iota.
  - destruct (hashable f); [destruct (dict_get FrameName_eqb d' f)|];
      intros H; now inversion H.
  - intros H; now inversion H.
Qed.

Lemma get_frame_names_cached (g : Graph)
  (d : dict NodeRef (list FrameName)) (o : outcome (list FrameName))
  (g2 : Graph) :
  _node_to_frame_names g = Some d ->
  get_frame_names g = (o, g2) -> g2 = g.
Proof.
  intros C. unfold get_frame_names, ensure_frame_tables, bind, gets, ret.
  cbv beta iota. rewrite C. cbv beta iota.
  destruct (_frame_name_to_nodes g) as [d'|]; intros H; now inversion H.
Qed.

(** X11. Once [node_to_frame_names] has returned, the tables are kept: asking
    again gives the same answer, none of the three readers of the tables
    touches the graph any more, and the first call itself has changed nothing
    but the two cached tables. *)
Theorem frame_tables_are_cached (g g1 : Graph) (n : Node)
  (t : list FrameName) :
  node_to_frame_names n g = (Return t, g1) ->
  node_to_frame_names n g1 = (Return t, g1) /\
  (forall m o g2, node_to_frame_names m g1 = (o, g2) -> g2 = g1) /\
  (forall f o g2, frame_name_to_nodes f g1 = (o, g2) -> g2 = g1) /\
  (forall o g2, get_frame_names g1 = (o, g2) -> g2 = g1) /\
  _node_name_to_node g1 = _node_name_to_node g /\
  _version g1 = _version g /\
  _next_id g1 = _next_id g.
Proof.
  intros H.
  assert (K : exists d,
             _node_to_frame_names g1 = Some d /\
             dict_get NodeRef_eqb d (node_ref n) = Some t /\
             _node_name_to_node g1 = _node_name_to_node g /\
             _version g1 = _version g /\ _next_id g1 = _next_id g).
  { destruct (_node_to_frame_names g) as [d|] eqn:C.
    - rewrite (node_to_frame_names_cached g n d C) in H.
      destruct (dict_get NodeRef_eqb d (node_ref n)) eqn:G;
        inversion H; subst. exists d. auto.
    - destruct (frame_search g) as [st| |] eqn:F.
      + rewrite (node_to_frame_names_fresh g st n C F) in H.
        destruct (dict_get NodeRef_eqb (new_node_to_frame_names st)
                           (node_ref n)) eqn:G; inversion H; subst.
        exists (new_node_to_frame_names st). auto.
      + unfold node_to_frame_names, ensure_frame_tables, bind, gets,
          _generate_node_to_frame_name in H.
        cbv beta iota in H. rewrite C in H. cbv beta iota in H.
        rewrite F in H. discriminate.
      + unfold node_to_frame_names, ensure_frame_tables, bind, gets,
          _generate_node_to_frame_name in H.
        cbv beta iota in H. rewrite C in H. cbv beta iota in H.
        rewrite F in H. discriminate. }
  destruct K as [d [C [G [K1 [K2 K3]]]]].
  split; [|split; [|split; [|split]]].
  - rewrite (node_to_frame_names_cached g1 n d C). now rewrite G.
  - intros m o g2 E. rewrite (node_to_frame_names_cached g1 m d C) in E.
    now inversion E.
  - intros f o g2 E. exact (frame_name_to_nodes_cached g1 f d o g2 C E).
  - intros o g2 E. exact (get_frame_names_cached g1 d o g2 C E).
  - auto.
Qed.

Lemma frame_tables_are_cached_witness :
  let g := Examples.loop_graph in
  let g1 := snd (node_to_frame_names Examples.n_merge g) in
  let t := [None; Some (AttrS "loop1")] in
  node_to_frame_names Examples.n_merge g = (Return t, g1) /\
  node_to_frame_names Examples.n_merge g1 = (Return t, g1) /\
  (forall m o g2, node_to_frame_names m g1 = (o, g2) -> g2 = g1) /\
  (forall f o g2, frame_name_to_nodes f g1 = (o, g2) -> g2 = g1) /\
  (forall o g2, get_frame_names g1 = (o, g2) -> g2 = g1) /\
  _node_name_to_node g1 = _node_name_to_node g /\
  _version g1 = _version g /\
  _next_id g1 = _next_id g.
Proof.
  cbv zeta.
  assert (E : node_to_frame_names Examples.n_merge Examples.loop_graph
              = (Return [None; Some (AttrS "loop1")],
                 snd (node_to_frame_names Examples.n_merge Examples.loop_graph)))
    by (vm_compute; reflexivity).
  split; [exact E|].
  exact (frame_tables_are_cached Examples.loop_graph _ Examples.n_merge _ E).
Defined.

(** ** Graphs without control flow, and malformed control flow *)

(** X13. When no node that the walk visits is an [Enter] or an [Exit], every
    visited node is mapped to the empty tuple, the only frame is the root
    frame [None], which holds the visited nodes in visiting order, and asking
    for the nodes of a named frame fails with the lookup error; when the walk
    visits nothing, not even the root frame is there. *)
Theorem frames_without_control_flow (g : Graph) (order : list Node) :
  wf_graph g ->
  _node_to_frame_names g = None ->
  bfs_order g = Some order ->
  (forall n, In n order -> plain n = true) ->
  (forall n, In n order -> fst (node_to_frame_names n g) = Return []) /\
  (order <> [] -> fst (frame_name_to_nodes None g) = Return order) /\
  (order = [] -> fst (frame_name_to_nodes None g) = Raise KeyError) /\
  (forall s, fst (frame_name_to_nodes (Some (AttrS s)) g) = Raise KeyError).
Proof.
  intros W C B P.
  destruct (frame_search_walk g W) as [order' [B' [N [_ S]]]].
  rewrite B in B'. inversion B'; subst order'. clear B'.
  destruct (process_plain order tables_init P eq_refl) as [tb [E [_ [_ [H1 H2]]]]].
  { cbn. constructor; [intros []|constructor]. }
  rewrite E in S.
  split; [|split; [|split]].
  - intros n I. rewrite (node_to_frame_names_fresh g _ n C S). cbn.
    rewrite H1.
    assert (X : existsb (NodeRef_eqb (node_ref n)) (map node_ref order) = true)
      by (apply existsb_ref_In; now apply in_map).
    now rewrite X.
  - intros NE. rewrite (frame_name_to_nodes_fresh g _ _ C S) by reflexivity.
    cbn. rewrite H2. destruct order; [congruence|]. reflexivity.
  - intros ->. rewrite (frame_name_to_nodes_fresh g _ _ C S) by reflexivity.
    cbn. rewrite H2. reflexivity.
  - intros s. rewrite (frame_name_to_nodes_fresh g _ _ C S) by reflexivity.
    cbn. rewrite H2. reflexivity.
Qed.

Lemma frames_without_control_flow_witness :
  let order := [Examples.n_x; Examples.n_z; Examples.n_x2; Examples.n_f;
                Examples.n_y] in
  wf_graph Examples.g_xyz /\
  _node_to_frame_names Examples.g_xyz = None /\
  bfs_order Examples.g_xyz = Some order /\
  (forall n, In n order -> plain n = true) /\
  (forall n, In n order ->
             fst (node_to_frame_names n Examples.g_xyz) = Return []) /\
  (order <> [] -> fst (frame_name_to_nodes None Examples.g_xyz) = Return order) /\
  (order = [] -> fst (frame_name_to_nodes None Examples.g_xyz) = Raise KeyError) /\
  (forall s, fst (frame_name_to_nodes (Some (AttrS s)) Examples.g_xyz)
             = Raise KeyError).
Proof.
  cbv zeta.
  assert (W : wf_graph Examples.g_xyz) by (unfold wf_graph; cbn; solve_nodup).
  assert (B : bfs_order Examples.g_xyz
              = Some [Examples.n_x; Examples.n_z; Examples.n_x2; Examples.n_f;
                      Examples.n_y]) by (vm_compute; reflexivity).
  assert (P : forall n,
             In n [Examples.n_x; Examples.n_z; Examples.n_x2; Examples.n_f;
                   Examples.n_y] -> plain n = true).
  { intros n I. cbn in I.
    repeat (destruct I as [<-|I]; [reflexivity|]). destruct I. }
  split; [exact W|]. split; [reflexivity|]. split; [exact B|].
  split; [exact P|].
  exact (frames_without_control_flow Examples.g_xyz _ W eq_refl B P).
Defined.

(** X14. An [Enter] node without a [frame_name] attribute, met by the walk after
    nodes that neither enter nor leave a frame, makes the analysis fail with
    a [ValueError]; the graph is left as it was, with no table cached, so
    every reader of the tables fails the same way. *)
Theorem enter_without_frame_name_raises (g : Graph) (pre post : list Node)
  (enter : Node) :
  wf_graph g ->
  _node_to_frame_names g = None ->
  bfs_order g = Some (pre ++ enter :: post) ->
  (forall n, In n pre -> plain n = true) ->
  Str.mem (op_type enter) ["Enter"; "RefEnter"] = true ->
  Str.mem _FRAME_NAME_ATTR (get_attr_keys enter) = false ->
  exists msg,
    _generate_node_to_frame_name g = (Raise (ValueError msg), g) /\
    (forall n, node_to_frame_names n g = (Raise (ValueError msg), g)) /\
    (forall f, frame_name_to_nodes f g = (Raise (ValueError msg), g)) /\
    get_frame_names g = (Raise (ValueError msg), g).
Proof.
  intros W C B P T A.
  destruct (frame_search_walk g W) as [order' [B' [_ [_ S]]]].
  rewrite B in B'. inversion B'; subst order'. clear B'.
  rewrite process_app in S.
  destruct (process_plain pre tables_init P eq_refl) as [tb [E _]].
  { cbn. constructor; [intros []|constructor]. }
  rewrite E in S. cbn [process] in S.
  unfold step_tables, update_stack in S. rewrite T, A in S. cbn [negb] in S.
  eexists.
  assert (G : _generate_node_to_frame_name g = (Raise (ValueError _), g))
    by (unfold _generate_node_to_frame_name; rewrite S; reflexivity).
  split; [exact G|].
  split; [|split].
  - intros n. unfold node_to_frame_names, ensure_frame_tables, bind, gets.
    cbv beta iota. rewrite C. cbv beta iota. now rewrite G.
  - intros f. unfold frame_name_to_nodes, ensure_frame_tables, bind, gets.
    cbv beta iota. rewrite C. cbv beta iota. now rewrite G.
  - unfold get_frame_names, ensure_frame_tables, bind, gets.
    cbv beta iota. rewrite C. cbv beta iota. now rewrite G.
Qed.

Lemma enter_without_frame_name_raises_witness :
  wf_graph FrameExamples.g_enter_bare /\
  bfs_order FrameExamples.g_enter_bare
  = Some ([Examples.n_c] ++ FrameExamples.n_enter_bare :: []) /\
  exists msg,
    _generate_node_to_frame_name FrameExamples.g_enter_bare
    = (Raise (ValueError msg), FrameExamples.g_enter_bare) /\
    (forall n, node_to_frame_names n FrameExamples.g_enter_bare
               = (Raise (ValueError msg), FrameExamples.g_enter_bare)) /\
    (forall f, frame_name_to_nodes f FrameExamples.g_enter_bare
               = (Raise (ValueError msg), FrameExamples.g_enter_bare)) /\
    get_frame_names FrameExamples.g_enter_bare
    = (Raise (ValueError msg), FrameExamples.g_enter_bare).
Proof.
  assert (W : wf_graph FrameExamples.g_enter_bare)
    by (unfold wf_graph; cbn; solve_nodup).
  split; [exact W|]. split; [vm_compute; reflexivity|].
  apply (enter_without_frame_name_raises FrameExamples.g_enter_bare
           [Examples.n_c] [] FrameExamples.n_enter_bare W).
  - reflexivity.
  - vm_compute. reflexivity.
  - intros n I. cbn in I. destruct I as [<-|[]]. reflexivity.
  - reflexivity.
  - reflexivity.
Defined.

(** X15. The frame stack starts with the root frame alone, so a second [Exit]
    met before any [Enter] pops an empty stack: the analysis fails with an
    [IndexError] and the graph is left as it was. *)
Theorem second_exit_without_enter_raises (g : Graph)
  (pre mid post : list Node) (exit1 exit2 : Node) :
  wf_graph g ->
  _node_to_frame_names g = None ->
  bfs_order g = Some (pre ++ exit1 :: mid ++ exit2 :: post) ->
  (forall n, In n pre -> plain n = true) ->
  (forall n, In n mid -> plain n = true) ->
  exits exit1 ->
  exits exit2 ->
  _generate_node_to_frame_name g = (Raise IndexError, g) /\
  (forall n, node_to_frame_names n g = (Raise IndexError, g)).
Proof.
  intros W C B P1 P2 X1 X2.
  destruct (frame_search_walk g W) as [order' [B' [_ [_ S]]]].
  rewrite B in B'. inversion B'; subst order'. clear B'.
  rewrite process_app in S.
  destruct (process_plain pre tables_init P1 eq_refl)
    as [tb [E [St _]]].
  { cbn. constructor; [intros []|constructor]. }
  rewrite E in S. cbn [process] in S.
  destruct (step_tables_exit exit1 tb [] None X1 St eq_refl (NoDup_nil _))
    as [f2n [E1 _]].
  rewrite E1 in S. rewrite process_app in S.
  match type of S with
  | context [process mid ?tb1] =>
      destruct (process_plain mid tb1 P2 eq_refl (NoDup_nil _))
        as [tb2 [E2 [St2 _]]]
  end.
  rewrite E2 in S. cbn [process] in S. cbn in St2.
  destruct X2 as [X2a X2b].
  unfold step_tables, update_stack in S. rewrite X2a, X2b, St2 in S.
  assert (G : _generate_node_to_frame_name g = (Raise IndexError, g))
    by (unfold _generate_node_to_frame_name; rewrite S; reflexivity).
  split; [exact G|].
  intros n. unfold node_to_frame_names, ensure_frame_tables, bind, gets.
  cbv beta iota. rewrite C. cbv beta iota. now rewrite G.
Qed.

Lemma second_exit_without_enter_raises_witness :
  wf_graph FrameExamples.g_two_exits /\
  bfs_order FrameExamples.g_two_exits
  = Some ([Examples.n_c] ++ FrameExamples.n_exit1
            :: [] ++ FrameExamples.n_exit2 :: []) /\
  _generate_node_to_frame_name FrameExamples.g_two_exits
  = (Raise IndexError, FrameExamples.g_two_exits) /\
  (forall n, node_to_frame_names n FrameExamples.g_two_exits
             = (Raise IndexError, FrameExamples.g_two_exits)).
Proof.
  assert (W : wf_graph FrameExamples.g_two_exits)
    by (unfold wf_graph; cbn; solve_nodup).
  split; [exact W|]. split; [vm_compute; reflexivity|].
  apply (second_exit_without_enter_raises FrameExamples.g_two_exits
           [Examples.n_c] [] [] FrameExamples.n_exit1 FrameExamples.n_exit2 W).
  - reflexivity.
  - vm_compute. reflexivity.
  - intros n I. cbn in I. destruct I as [<-|[]]. reflexivity.
  - intros n [].
  - split; reflexivity.
  - split; reflexivity.
Defined.

(* ------------------------------------------------------------------ *)
(** * Further properties of the transformer *)

(** ** Flattening a tree *)

Lemma leaves_mapping_values (l : list (string * Tree)) :
  flat_map (fun kv : string * Tree => match kv with (_, c) => leaves c end) l
  = flat_map leaves (map snd l).
Proof.
  induction l as [|[k c] l IH]; cbn; [reflexivity|]. now rewrite IH.
Qed.

(** X28. [_flatten_tree] appends the leaves of the tree, left to right, to the
    list it is given and keeps what that list held; the leaves of a sequence
    are those of its first child followed by those of the rest, and a mapping
    flattens as the sequence of its values, its keys playing no part. *)
Theorem flatten_tree_order :
  (forall tree acc, _flatten_tree tree acc = acc ++ _flatten_tree tree []) /\
  (forall v, _flatten_tree (Leaf v) [] = [v]) /\
  (forall c l,
      _flatten_tree (Seq (c :: l)) []
      = _flatten_tree c [] ++ _flatten_tree (Seq l) []) /\
  (forall a b,
      _flatten_tree (Seq (a ++ b)) []
      = _flatten_tree (Seq a) [] ++ _flatten_tree (Seq b) []) /\
  (forall l, _flatten_tree (Mapping l) [] = _flatten_tree (Seq (map snd l)) []).
Proof.
  split; [|split; [|split; [|split]]].
  - intros tree acc. now rewrite !flatten_tree_leaves.
  - reflexivity.
  - intros c l. now rewrite !flatten_tree_leaves.
  - intros a b. rewrite !flatten_tree_leaves. cbn [leaves app].
    apply flat_map_app.
  - intros l. rewrite !flatten_tree_leaves. cbn [leaves app].
    apply leaves_mapping_values.
Qed.

(** ** Scope translation *)

Lemma prefix_append (p r : string) : String.prefix p (p ++ r) = true.
Proof.
  induction p as [|c p IH]; cbn; [now destruct r|].
  destruct (Ascii.ascii_dec c c); [exact IH | congruence].
Qed.

Lemma drop_append (p r : string) : Str.drop (String.length p) (p ++ r) = r.
Proof. induction p as [|c p IH]; cbn; [reflexivity | exact IH]. Qed.

Lemma prefix_drop (p s : string) :
  String.prefix p s = true -> (p ++ Str.drop (String.length p) s)%string = s.
Proof.
  revert s. induction p as [|c p IH]; intros s H; cbn; [reflexivity|].
  destruct s as [|d s]; cbn in H; [discriminate|].
  destruct (Ascii.ascii_dec c d) as [->|]; [|discriminate].
  cbn. now rewrite IH.
Qed.

(** X16. [new_name] is undone by [new_name] with the two scopes exchanged: the
    name it returns lies under the destination scope, and translating it back
    gives the name it came from. *)
Theorem new_name_round_trip (info back : TmpInfo) (name r : string) :
  scope back = scope_ info ->
  scope_ back = scope info ->
  new_name info name = Return r ->
  Str.startswith r (scope_ info) = true /\
  new_name back r = Return name.
Proof.
  intros S1 S2 H. apply new_name_returns in H. destruct H as [-> P].
  unfold translate, Str.startswith in *.
  split; [apply prefix_append|].
  unfold new_name, Str.startswith. rewrite S1, S2, prefix_append. cbn [negb].
  now rewrite drop_append, prefix_drop.
Qed.

Lemma new_name_round_trip_witness :
  new_name Examples.info_coloc "peer" = Return "dst/peer" /\
  Str.startswith "dst/peer" (scope_ Examples.info_coloc) = true /\
  new_name
    (mkTmpInfo (sgv Examples.info_coloc) [] [] [] 0 "dst/" 0 "" [] [] [] [] [])
    "dst/peer"
  = Return "peer".
Proof.
  split; [reflexivity|].
  apply (new_name_round_trip Examples.info_coloc
           (mkTmpInfo (sgv Examples.info_coloc) [] [] [] 0 "dst/" 0 ""
                      [] [] [] [] [])
           "peer" "dst/peer"); reflexivity.
Defined.

(** ** The record of a transformation, read both ways *)

Lemma scan_for_original_found (d : dict Val Val) (x y : Val) :
  NoDup (dict_values d) ->
  dict_get Val_eqb d x = Some y ->
  scan_for_original d false y = Some x.
Proof.
  induction d as [|[k v] d IH]; cbn; intros N G; [discriminate|].
  inversion N as [|? ? Hv Nd]; subst.
  destruct (Val_eqb k x) eqn:E.
  - apply Val_eqb_eq in E. inversion G; subst.
    now rewrite (eqb_refl_of Val_eqb Val_eqb_eq).
  - destruct (Val_eqb v y) eqn:F.
    + apply Val_eqb_eq in F. subst v. exfalso. apply Hv.
      clear - G. induction d as [|[k' v'] d IH]; cbn in *; [discriminate|].
      destruct (Val_eqb k' x); [inversion G; auto | auto].
    + now apply IH.
Qed.

Lemma scan_for_original_sound (d : dict Val Val) (x y : Val) :
  NoDup (dict_keys d) ->
  scan_for_original d false y = Some x ->
  dict_get Val_eqb d x = Some y.
Proof.
  induction d as [|[k v] d IH]; cbn; intros N G; [discriminate|].
  inversion N as [|? ? Hk Nd]; subst.
  destruct (Val_eqb v y) eqn:F.
  - apply Val_eqb_eq in F. inversion G; subst.
    now rewrite (eqb_refl_of Val_eqb Val_eqb_eq).
  - specialize (IH Nd G).
    destruct (Val_eqb k x) eqn:E; [|exact IH].
    apply Val_eqb_eq in E. subst k. exfalso. apply Hk.
    exact (dict_get_Some_In Val_eqb Val_eqb_eq _ _ _ IH).
Qed.

Lemma ops_as_vals_values (d : dict NodeRef NodeRef) :
  NoDup (dict_values d) -> NoDup (dict_values (ops_as_vals d)).
Proof.
  intros N. unfold dict_values, ops_as_vals. rewrite map_map. cbn.
  rewrite <- (map_map snd VNode). apply Injective_map_NoDup; [|exact N].
  intros a b E. now inversion E.
Qed.

Lemma ts_as_vals_values (d : dict Tensor Tensor) :
  NoDup (dict_values d) -> NoDup (dict_values (ts_as_vals d)).
Proof.
  intros N. unfold dict_values, ts_as_vals. rewrite map_map. cbn.
  rewrite <- (map_map snd VTensor). apply Injective_map_NoDup; [|exact N].
  intros a b E. now inversion E.
Qed.

Lemma ops_as_vals_keys (d : dict NodeRef NodeRef) :
  NoDup (dict_keys d) -> NoDup (dict_keys (ops_as_vals d)).
Proof.
  intros N. unfold dict_keys, ops_as_vals. rewrite map_map. cbn.
  rewrite <- (map_map fst VNode). apply Injective_map_NoDup; [|exact N].
  intros a b E. now inversion E.
Qed.

Lemma ts_as_vals_keys (d : dict Tensor Tensor) :
  NoDup (dict_keys d) -> NoDup (dict_keys (ts_as_vals d)).
Proof.
  intros N. unfold dict_keys, ts_as_vals. rewrite map_map. cbn.
  rewrite <- (map_map fst VTensor). apply Injective_map_NoDup; [|exact N].
  intros a b E. now inversion E.
Qed.

Lemma transformed_map_cases (self : TransformerInfo) (x : Val)
  (d : dict Val Val) :
  _get_transformed_map self x = Return d ->
  is_string x = false /\
  (d = ops_as_vals (_transformed_ops self)
   \/ d = ts_as_vals (_transformed_ts self)).
Proof.
  destruct x; cbn; intros H; inversion H; auto.
Qed.

Lemma vals_in_map (self : TransformerInfo) (d : dict Val Val) (x y : Val) :
  d = ops_as_vals (_transformed_ops self)
  \/ d = ts_as_vals (_transformed_ts self) ->
  In (x, y) d ->
  _get_transformed_map self x = _get_transformed_map self y /\
  (_get_transformed_map self x = Return d \/
   exists d', _get_transformed_map self x = Return d') /\
  is_string x = false /\ is_string y = false.
Proof.
  intros [->| ->] I; unfold ops_as_vals, ts_as_vals in I;
    apply in_map_iff in I; destruct I as [[a b] [E _]]; inversion E; subst;
    cbn; repeat split; eauto.
Qed.

Lemma dict_get_In_pair (d : dict Val Val) (x y : Val) :
  dict_get Val_eqb d x = Some y -> In (x, y) d.
Proof.
  induction d as [|[k v] d IH]; cbn; [discriminate|].
  destruct (Val_eqb k x) eqn:E.
  - apply Val_eqb_eq in E. intros H. inversion H; subst. now left.
  - intros H. right. now apply IH.
Qed.

Lemma scan_for_original_In_pair (d : dict Val Val) (x y : Val) :
  scan_for_original d false y = Some x -> In (x, y) d.
Proof.
  induction d as [|[k v] d IH]; cbn; [discriminate|].
  destruct (Val_eqb v y) eqn:E.
  - apply Val_eqb_eq in E. intros H. inversion H; subst. now left.
  - intros H. right. now apply IH.
Qed.

(** X21. When no two originals share a transformed counterpart, [original]
    undoes [transformed]: the counterpart that the record gives for a node or
    a tensor is mapped back to that node or tensor. *)
Theorem original_inverts_transformed (self : TransformerInfo) (x y : Val) :
  NoDup (dict_values (_transformed_ops self)) ->
  NoDup (dict_values (_transformed_ts self)) ->
  _transformed_elem self x None = Return y ->
  y <> VNone ->
  _original_elem self y None = Return x /\
  original self (Leaf y) None = Return (Leaf x).
Proof.
  intros N1 N2 H Hy.
  assert (K : _original_elem self y None = Return x).
  { unfold _transformed_elem in H.
    destruct (_get_transformed_map self x) as [d| |] eqn:M; try discriminate.
    destruct (transformed_map_cases self x d M) as [S D]. rewrite S in H.
    destruct (dict_mem Val_eqb d x); cbn in H;
      [|inversion H; congruence].
    destruct (dict_get Val_eqb d x) as [y'|] eqn:G; inversion H; subst y'.
    pose proof (vals_in_map self d x y D (dict_get_In_pair d x y G))
      as [Q [_ [_ Sy]]].
    unfold _original_elem. rewrite <- Q, M, Sy.
    rewrite (scan_for_original_found d x y); [reflexivity| |exact G].
    destruct D as [->| ->];
      [now apply ops_as_vals_values | now apply ts_as_vals_values]. }
  split; [exact K|]. unfold original. cbn. now rewrite K.
Qed.

Lemma original_inverts_transformed_witness :
  NoDup (dict_values (_transformed_ops Examples.info_ab)) /\
  NoDup (dict_values (_transformed_ts Examples.info_ab)) /\
  _transformed_elem Examples.info_ab (VNode (mkNodeRef 0 "b")) None
  = Return (VNode (mkNodeRef 0 "b_1")) /\
  _original_elem Examples.info_ab (VNode (mkNodeRef 0 "b_1")) None
  = Return (VNode (mkNodeRef 0 "b")) /\
  original Examples.info_ab (Leaf (VNode (mkNodeRef 0 "b_1"))) None
  = Return (Leaf (VNode (mkNodeRef 0 "b"))).
Proof.
  assert (N1 : NoDup (dict_values (_transformed_ops Examples.info_ab)))
    by (cbn; solve_nodup).
  assert (N2 : NoDup (dict_values (_transformed_ts Examples.info_ab)))
    by (cbn; solve_nodup).
  split; [exact N1|]. split; [exact N2|]. split; [reflexivity|].
  apply (original_inverts_transformed Examples.info_ab
           (VNode (mkNodeRef 0 "b")) (VNode (mkNodeRef 0 "b_1")) N1 N2);
    [reflexivity | discriminate].
Defined.

(** X22. With the keys of the two mappings distinct, as the keys of a
    dictionary are, [transformed] undoes [original]: the original that the
    record gives for a transformed node or tensor is mapped to it again. *)
Theorem transformed_inverts_original (self : TransformerInfo) (x y : Val) :
  NoDup (dict_keys (_transformed_ops self)) ->
  NoDup (dict_keys (_transformed_ts self)) ->
  _original_elem self y None = Return x ->
  x <> VNone ->
  _transformed_elem self x None = Return y /\
  transformed self (Leaf x) None = Return (Leaf y).
Proof.
  intros N1 N2 H Hx.
  assert (K : _transformed_elem self x None = Return y).
  { unfold _original_elem in H.
    destruct (_get_transformed_map self y) as [d| |] eqn:M; try discriminate.
    destruct (transformed_map_cases self y d M) as [S D]. rewrite S in H.
    destruct (scan_for_original d false y) as [x'|] eqn:G;
      cbn in H; inversion H; [subst x'|congruence].
    pose proof (vals_in_map self d x y D (scan_for_original_In_pair d x y G))
      as [Q [_ [Sx _]]].
    assert (G' : dict_get Val_eqb d x = Some y).
    { apply scan_for_original_sound; [|exact G].
      destruct D as [->| ->];
        [now apply ops_as_vals_keys | now apply ts_as_vals_keys]. }
    unfold _transformed_elem. rewrite Q, M, Sx.
    assert (I : dict_mem Val_eqb d x = true)
      by (apply (dict_mem_In Val_eqb Val_eqb_eq);
          exact (dict_get_Some_In Val_eqb Val_eqb_eq _ _ _ G')).
    rewrite I. cbn. now rewrite G'. }
  split; [exact K|]. unfold transformed. cbn. now rewrite K.
Qed.

Lemma transformed_inverts_original_witness :
  NoDup (dict_keys (_transformed_ops Examples.info_ab)) /\
  NoDup (dict_keys (_transformed_ts Examples.info_ab)) /\
  _original_elem Examples.info_ab (VTensor (Examples.T 0 "a_1" 0)) None
  = Return (VTensor (Examples.T 0 "a" 0)) /\
  _transformed_elem Examples.info_ab (VTensor (Examples.T 0 "a" 0)) None
  = Return (VTensor (Examples.T 0 "a_1" 0)) /\
  transformed Examples.info_ab (Leaf (VTensor (Examples.T 0 "a" 0))) None
  = Return (Leaf (VTensor (Examples.T 0 "a_1" 0))).
Proof.
  assert (N1 : NoDup (dict_keys (_transformed_ops Examples.info_ab)))
    by (cbn; solve_nodup).
  assert (N2 : NoDup (dict_keys (_transformed_ts Examples.info_ab)))
    by (cbn; solve_nodup).
  split; [exact N1|]. split; [exact N2|]. split; [reflexivity|].
  apply (transformed_inverts_original Examples.info_ab
           (VTensor (Examples.T 0 "a" 0)) (VTensor (Examples.T 0 "a_1" 0))
           N1 N2);
    [reflexivity | discriminate].
Defined.

(** ** Failures of the node copy before anything is added *)

Lemma new_name_outside (info : TmpInfo) (name : string) :
  Str.startswith name (scope info) = false ->
  new_name info name
  = Raise (ValueError (name ++ " does not belong to source scope: "
                            ++ scope info ++ ".")%string).
Proof. intros H. unfold new_name. now rewrite H. Qed.

Lemma rewrite_colocation_outside (info : TmpInfo) (cg : list string)
  (entry : string) :
  In entry cg ->
  Str.startswith (Str.drop (String.length _COLOCATION_PREFIX) entry)
                 (scope info) = false ->
  exists msg, rewrite_colocation info cg = Raise (ValueError msg).
Proof.
  induction cg as [|e cg IH]; intros I O; [destruct I|].
  cbn [rewrite_colocation].
  destruct (Str.startswith (Str.drop (String.length _COLOCATION_PREFIX) e)
                           (scope info)) eqn:E.
  - destruct I as [->|I]; [congruence|].
    destruct (IH I O) as [msg R]. rewrite R.
    unfold new_name. rewrite E. cbn [negb]. eauto.
  - rewrite (new_name_outside info _ E). eauto.
Qed.

(** X17. The default node copy checks the names before it touches the
    destination graph: when the name of the node, or the node named by one
    entry of its co-location list, does not lie under the source scope, the
    call fails with a [ValueError] and every graph is as it was. *)
Theorem copy_op_handler_outside_scope (X : Externals) (info : TmpInfo)
  (op : Node) (new_inputs : list Tensor) (copy_shape_and_dtype : bool)
  (nodedef_fn : option (NodeDef -> NodeDef)) (w : World) :
  Str.startswith (node_name op) (scope info) = false
  \/ (exists cg entry,
         get_attr op _COLOCATION_ATTR_NAME = Some (AttrListS cg) /\
         In entry cg /\
         Str.startswith (Str.drop (String.length _COLOCATION_PREFIX) entry)
                        (scope info) = false) ->
  exists msg w',
    copy_op_handler X info op new_inputs copy_shape_and_dtype nodedef_fn w
    = (Raise (ValueError msg), w') /\
    forall gid, w' gid = w gid.
Proof.
  intros H.
  destruct (Str.startswith (node_name op) (scope info)) eqn:P.
  - destruct H as [H|[cg [entry [A [I O]]]]]; [discriminate|].
    unfold copy_op_handler, bind, lift.
    unfold new_name at 1. rewrite P. cbn [negb].
    unfold on_graph, unique_name.
    destruct (unique_name_of_returns (w (graph_ info))
                (scope_ info
                 ++ Str.drop (String.length (scope info)) (node_name op)))
      as [r [E _]].
    rewrite E. cbn [fst snd].
    destruct (rewrite_colocation_outside info cg entry I O) as [msg R].
    assert (T : transform_colocation info (nd_with_name r (to_node_def op))
                = Raise (ValueError msg)).
    { unfold transform_colocation. cbn [nd_attr nd_with_name to_node_def].
      unfold get_attr in A. rewrite A.
      assert (M : Str.mem _COLOCATION_ATTR_NAME (dict_keys (attrs op)) = true)
        by (apply mem_In;
            exact (dict_get_Some_In String.eqb String.eqb_eq _ _ _ A)).
      now rewrite M, R. }
    rewrite T. eexists. eexists. split; [reflexivity|].
    intros gid. unfold world_set.
    destruct (gid =? graph_ info) eqn:G; [|reflexivity].
    apply Nat.eqb_eq in G. now subst.
  - unfold copy_op_handler, bind, lift.
    rewrite (new_name_outside info _ P). eexists. exists w. split; reflexivity.
Qed.

Lemma copy_op_handler_outside_scope_witness :
  let info :=
    mkTmpInfo (sgv Examples.info_coloc) [] [] [] 0 "n" 0 "dst/" [] [] [] [] [] in
  (exists cg entry,
      get_attr Examples.n_coloc _COLOCATION_ATTR_NAME = Some (AttrListS cg) /\
      In entry cg /\
      Str.startswith (Str.drop (String.length _COLOCATION_PREFIX) entry)
                     (scope info) = false) /\
  exists msg w',
    copy_op_handler Examples.ex_externals info Examples.n_coloc [] false None
                    Examples.w_coloc
    = (Raise (ValueError msg), w') /\
    forall gid, w' gid = Examples.w_coloc gid.
Proof.
  cbv zeta.
  assert (H : exists cg entry,
             get_attr Examples.n_coloc _COLOCATION_ATTR_NAME
             = Some (AttrListS cg) /\
             In entry cg /\
             Str.startswith
               (Str.drop (String.length _COLOCATION_PREFIX) entry) "n" = false).
  { exists ["loc:@peer"], "loc:@peer".
    split; [reflexivity|]. split; [cbn; auto | reflexivity]. }
  split; [exact H|].
  apply (copy_op_handler_outside_scope Examples.ex_externals
           (mkTmpInfo (sgv Examples.info_coloc) [] [] [] 0 "n" 0 "dst/"
                      [] [] [] [] [])
           Examples.n_coloc [] false None Examples.w_coloc).
  right. exact H.
Defined.

(** ** Collections *)

(** X19. An element that is a member of no collection of the source graph is
    added to none: the default collection handler returns at once and leaves
    every graph as it was. *)
Theorem assign_collections_skips_non_members (X : Externals) (info : TmpInfo)
  (elem elem_ : Val) (w : World) :
  (forall name c, In (name, c) (collections info) ->
                  existsb (Val_eqb elem) c = false) ->
  assign_renamed_collections_handler X info elem elem_ w = (Return tt, w).
Proof.
  unfold assign_renamed_collections_handler.
  induction (collections info) as [|[name c] l IH]; intros H; [reflexivity|].
  cbn [forM_]. unfold bind at 1. cbv beta zeta. cbn [fst snd].
  rewrite (H name c) by now left. cbn [negb]. unfold ret at 1.
  apply IH. intros nm c' I. apply (H nm c'). now right.
Qed.

Lemma assign_collections_skips_non_members_witness :
  let info :=
    mkTmpInfo (sgv Examples.info_coloc) [] [] [] 0 "" 0 "dst/" [] []
              [("losses", [VNode (mkNodeRef 0 "peer")])] [] [] in
  assign_renamed_collections_handler Examples.ex_externals info
    (VNode (mkNodeRef 0 "n")) (VNode (mkNodeRef 0 "dst/n")) Examples.w_coloc
  = (Return tt, Examples.w_coloc).
Proof.
  cbv zeta.
  apply (assign_collections_skips_non_members Examples.ex_externals
           (mkTmpInfo (sgv Examples.info_coloc) [] [] [] 0 "" 0 "dst/" [] []
                      [("losses", [VNode (mkNodeRef 0 "peer")])] [] [])).
  intros name c I. cbn in I. destruct I as [E|[]]. inversion E; subst.
  reflexivity.
Defined.

(** X20. A collection whose name is not one of the predefined keys is renamed by
    the scope translation, so the first collection that holds the element
    makes the handler fail with a [ValueError], before anything is added,
    when its name is none of the predefined keys and does not lie under the
    source scope. *)
Theorem assign_collections_outside_scope (X : Externals) (info : TmpInfo)
  (elem elem_ : Val) (w : World) (pre post : dict string (list Val))
  (name : string) (c : list Val) :
  collections info = pre ++ (name, c) :: post ->
  (forall nm c', In (nm, c') pre -> existsb (Val_eqb elem) c' = false) ->
  existsb (Val_eqb elem) c = true ->
  Str.mem name (get_predefined_collection_names X) = false ->
  Str.startswith name (scope info) = false ->
  exists msg,
    assign_renamed_collections_handler X info elem elem_ w
    = (Raise (ValueError msg), w).
Proof.
  unfold assign_renamed_collections_handler. intros -> H I K O.
  induction pre as [|[nm c'] pre IH].
  - rewrite app_nil_l. cbn [forM_]. unfold bind at 1. cbv beta zeta.
    cbn [fst snd]. rewrite I, K.
    cbn [negb]. unfold bind at 1, lift.
    rewrite (new_name_outside info _ O). eauto.
  - rewrite <- app_comm_cons. cbn [forM_]. unfold bind at 1. cbv beta zeta.
    cbn [fst snd]. rewrite (H nm c') by now left. cbn [negb]. unfold ret at 1.
    apply IH. intros nm' c'' J. apply (H nm' c''). now right.
Qed.

Lemma assign_collections_outside_scope_witness :
  let info :=
    mkTmpInfo (sgv Examples.info_coloc) [] [] [] 0 "src/" 0 "dst/" [] []
              [("variables", [VNode (mkNodeRef 0 "peer")]);
               ("losses", [VNode (mkNodeRef 0 "src/n")])] [] [] in
  exists msg,
    assign_renamed_collections_handler Examples.ex_externals info
      (VNode (mkNodeRef 0 "src/n")) (VNode (mkNodeRef 0 "dst/n"))
      Examples.w_coloc
    = (Raise (ValueError msg), Examples.w_coloc).
Proof.
  cbv zeta.
  apply (assign_collections_outside_scope Examples.ex_externals
           (mkTmpInfo (sgv Examples.info_coloc) [] [] [] 0 "src/" 0 "dst/"
                      [] []
                      [("variables", [VNode (mkNodeRef 0 "peer")]);
                       ("losses", [VNode (mkNodeRef 0 "src/n")])] [] [])
           (VNode (mkNodeRef 0 "src/n")) (VNode (mkNodeRef 0 "dst/n"))
           Examples.w_coloc
           [("variables", [VNode (mkNodeRef 0 "peer")])] []
           "losses" [VNode (mkNodeRef 0 "src/n")]).
  - reflexivity.
  - intros nm c' I. cbn in I. destruct I as [E|[]]. inversion E; subst.
    reflexivity.
  - reflexivity.
  - reflexivity.
  - reflexivity.
Defined.

(** ** Which pass writes the mappings *)


(** ** The boundary of the transformed view *)







(** ** Completing a list of nodes with co-located nodes *)

Lemma node_mem_app (x : Node) (a b : list Node) :
  node_mem x (a ++ b) = node_mem x a || node_mem x b.
Proof. unfold node_mem. apply existsb_app. Qed.

Lemma node_mem_In (x : Node) (l : list Node) : In x l -> node_mem x l = true.
Proof.
  intros I. unfold node_mem. apply existsb_exists. exists x.
  split; [exact I | now apply NodeRef_eqb_eq].
Qed.


Lemma node_set_update_ext (l : list Node) :
  forall acc,
    exists e,
      node_set_update acc l = acc ++ e /\
      (forall x, In x e -> In x l /\ node_mem x acc = false) /\
      (forall x, In x l -> node_mem x (acc ++ e) = true).
Proof.
  unfold node_set_update.
  induction l as [|m l IH]; intros acc; cbn [fold_left].
  - exists []. rewrite app_nil_r. split; [reflexivity|]. split; intros x [].
  - unfold node_set_add at 2. destruct (node_mem m acc) eqn:E.
    + destruct (IH acc) as [e [H1 [H2 H3]]]. exists e.
      split; [exact H1|]. split.
      * intros x I. destruct (H2 x I). split; [now right | assumption].
      * intros x [<-|I]; [|now apply H3].
        rewrite node_mem_app, E. reflexivity.
    + destruct (IH (acc ++ [m])) as [e [H1 [H2 H3]]]. exists (m :: e).
      replace (acc ++ m :: e) with ((acc ++ [m]) ++ e)
        by (now rewrite <- app_assoc).
      split; [exact H1|]. split.
      * intros x [<-|I]; [split; [now left | exact E]|].
        destruct (H2 x I) as [I' N]. split; [now right|].
        rewrite node_mem_app in N. now apply orb_false_iff in N.
      * intros x [<-|I]; [|now apply H3].
        rewrite !node_mem_app.
        assert (T : node_mem m [m] = true) by (apply node_mem_In; now left).
        rewrite T. now rewrite orb_true_r.
Qed.

Lemma colocation_pass_ext (groups : list (list Node)) :
  forall acc,
    exists e,
      colocation_pass groups acc = acc ++ e /\
      forall x, In x e -> In x (List.concat groups) /\ node_mem x acc = false.
Proof.
  unfold colocation_pass.
  induction groups as [|gr groups IH]; intros acc; cbn [fold_left List.concat].
  - exists []. rewrite app_nil_r. split; [reflexivity | intros x []].
  - destruct (existsb (fun n => node_mem n acc) gr).
    + destruct (node_set_update_ext gr acc) as [e1 [H1 [H2 _]]]. rewrite H1.
      destruct (IH (acc ++ e1)) as [e2 [K1 K2]]. exists (e1 ++ e2).
      rewrite app_assoc. split; [exact K1|].
      intros x I. apply in_app_or in I. destruct I as [I|I].
      * destruct (H2 x I). split; [apply in_or_app; now left | assumption].
      * destruct (K2 x I) as [I' N]. split; [apply in_or_app; now right|].
        rewrite node_mem_app in N. now apply orb_false_iff in N.
    + destruct (IH acc) as [e2 [K1 K2]]. exists e2. split; [exact K1|].
      intros x I. destruct (K2 x I). split; [apply in_or_app; now right|].
      assumption.
Qed.

Lemma app_same_length {A} (a e : list A) :
  List.length (a ++ e) = List.length a -> e = [].
Proof.
  rewrite length_app. intros H. destruct e; [reflexivity | cbn in H; lia].
Qed.

Lemma app_fixed {A} (a e : list A) : a ++ e = a -> e = [].
Proof. intros H. apply app_same_length with (a := a). now rewrite H. Qed.

Lemma node_set_update_fixed (l acc : list Node) :
  node_set_update acc l = acc -> forall m, In m l -> node_mem m acc = true.
Proof.
  intros H m I. destruct (node_set_update_ext l acc) as [e [H1 [_ H3]]].
  rewrite H in H1. symmetry in H1. apply app_fixed in H1. subst e.
  specialize (H3 m I). now rewrite app_nil_r in H3.
Qed.

Lemma colocation_pass_cons (gr : list Node) (groups : list (list Node))
  (acc : list Node) :
  colocation_pass (gr :: groups) acc
  = colocation_pass groups
      (if existsb (fun n => node_mem n acc) gr
       then node_set_update acc gr else acc).
Proof. reflexivity. Qed.

Lemma colocation_pass_fixed (groups : list (list Node)) (r : list Node) :
  colocation_pass groups r = r -> closed_under groups r.
Proof.
  unfold closed_under.
  induction groups as [|gr groups IH]; intros H group n m I; [destruct I|].
  rewrite colocation_pass_cons in H.
  remember (if existsb (fun n => node_mem n r) gr
            then node_set_update r gr else r) as r1 eqn:R1.
  assert (S1 : exists e1, r1 = r ++ e1).
  { subst r1. destruct (existsb (fun n => node_mem n r) gr).
    - destruct (node_set_update_ext gr r) as [e [E _]]. eauto.
    - exists []. now rewrite app_nil_r. }
  destruct S1 as [e1 S1].
  destruct (colocation_pass_ext groups r1) as [e2 [S2 _]].
  rewrite S2 in H. rewrite S1, <- app_assoc in H. apply app_fixed in H.
  apply app_eq_nil in H. destruct H as [-> ->].
  rewrite app_nil_r in S1, S2. rewrite S1 in R1, S2. clear S1 r1.
  destruct I as [<-|I].
  - intros In_n Mn In_m.
    assert (T : existsb (fun n => node_mem n r) gr = true)
      by (apply existsb_exists; eauto).
    rewrite T in R1. symmetry in R1.
    exact (node_set_update_fixed gr r R1 m In_m).
  - now apply (IH S2 group n m I).
Qed.

Lemma colocation_closure_unfold (fuel : nat) (groups : list (list Node))
  (num_before : option nat) (all_ops : list Node) :
  colocation_closure (S fuel) groups num_before all_ops =
  if match num_before with
     | Some n => (n =? List.length all_ops)%nat
     | None => false
     end
  then Return all_ops
  else colocation_closure fuel groups (Some (List.length all_ops))
                          (colocation_pass groups all_ops).
Proof. reflexivity. Qed.

Lemma colocation_closure_result (groups : list (list Node)) (fuel : nat) :
  forall num_before all_ops r,
    colocation_closure fuel groups num_before all_ops = Return r ->
    (num_before = Some (List.length all_ops) /\ r = all_ops) \/
    (colocation_pass groups r = r /\
     exists e, r = all_ops ++ e /\
               forall x, In x e -> In x (List.concat groups)).
Proof.
  induction fuel as [|fuel IH]; intros nb all r H; [discriminate|].
  rewrite colocation_closure_unfold in H.
  destruct (match nb with
            | Some n => (n =? List.length all)%nat
            | None => false
            end) eqn:T.
  - left. inversion H; subst. destruct nb as [n|]; [|discriminate].
    apply Nat.eqb_eq in T. now subst.
  - right. destruct (colocation_pass_ext groups all) as [e [E1 E2]].
    apply IH in H. destruct H as [[L ->]|[F [e' [-> E']]]].
    + inversion L as [L']. rewrite E1 in L'. symmetry in L'.
      apply app_same_length in L'. subst e. rewrite app_nil_r in E1.
      rewrite E1. split; [exact E1|]. exists []. rewrite app_nil_r.
      split; [reflexivity | intros x []].
    + split; [exact F|]. rewrite E1, <- app_assoc. exists (e ++ e').
      split; [reflexivity|]. intros x I. apply in_app_or in I.
      destruct I as [I|I]; [now apply E2 | now apply E'].
Qed.

Lemma filter_length_strict {A} (p q : A -> bool) (l : list A) (x : A) :
  (forall y, p y = true -> q y = true) ->
  In x l -> p x = false -> q x = true ->
  List.length (filter p l) < List.length (filter q l).
Proof.
  intros PQ.
  assert (LE : forall l', List.length (filter p l')
                          <= List.length (filter q l')).
  { induction l' as [|y l' IH]; cbn; [lia|].
    destruct (p y) eqn:P; [rewrite (PQ y P); cbn; lia|].
    destruct (q y); cbn; lia. }
  induction l as [|y l IH]; intros I P Q; [destruct I|].
  cbn. destruct I as [->|I].
  - rewrite P, Q. cbn. specialize (LE l). lia.
  - specialize (IH I P Q). destruct (p y) eqn:Py.
    + rewrite (PQ y Py). cbn. lia.
    + destruct (q y); cbn; lia.
Qed.

Lemma missing_shrinks (groups : list (list Node)) (all_ops : list Node) :
  List.length (colocation_pass groups all_ops) <> List.length all_ops ->
  List.length (missing groups (colocation_pass groups all_ops))
  < List.length (missing groups all_ops).
Proof.
  intros N. destruct (colocation_pass_ext groups all_ops) as [e [E1 E2]].
  rewrite E1 in *. destruct e as [|x e]; [now rewrite app_nil_r in N|].
  destruct (E2 x (or_introl eq_refl)) as [I M].
  unfold missing. apply filter_length_strict with (x := x).
  - intros y. rewrite node_mem_app. destruct (node_mem y all_ops);
      [discriminate | reflexivity].
  - exact I.
  - rewrite node_mem_app.
    assert (T : node_mem x (x :: e) = true) by (apply node_mem_In; now left).
    rewrite T, orb_true_r. reflexivity.
  - now rewrite M.
Qed.

Lemma colocation_closure_enough (groups : list (list Node)) (fuel : nat) :
  forall num_before all_ops,
    List.length (missing groups all_ops) + 2 <= fuel
    \/ (num_before = Some (List.length all_ops) /\ 1 <= fuel) ->
    exists r, colocation_closure fuel groups num_before all_ops = Return r.
Proof.
  induction fuel as [|fuel IH]; intros nb all H; [lia|].
  rewrite colocation_closure_unfold.
  destruct (match nb with
            | Some n => (n =? List.length all)%nat
            | None => false
            end) eqn:T; [eauto|].
  destruct H as [H|[-> _]]; [|now rewrite Nat.eqb_refl in T].
  apply IH.
  destruct (Nat.eq_dec (List.length (colocation_pass groups all))
                       (List.length all)) as [E|N].
  - right. rewrite E. split; [reflexivity | lia].
  - left. pose proof (missing_shrinks groups all N). lia.
Qed.

Lemma missing_bound (groups : list (list Node)) (l : list Node) :
  List.length (missing groups l) <= List.length (List.concat groups).
Proof.
  unfold missing. induction (List.concat groups) as [|x c IH]; cbn; [lia|].
  destruct (negb (node_mem x l)); cbn; lia.
Qed.

(** X26. The fixed-point loop of [_add_control_flow_ops] ends within two more
    tests of its condition than the groups have members. What it returns
    extends the set it started from, by members of the groups only, and holds
    the whole of every group of which it holds one member. *)
Theorem colocation_closure_reaches_fixed_point (groups : list (list Node))
  (all_ops : list Node) :
  exists r e,
    colocation_closure (S (S (List.length (List.concat groups)))) groups None
                       all_ops = Return r /\
    r = all_ops ++ e /\
    (forall x, In x e -> In x (List.concat groups)) /\
    closed_under groups r.
Proof.
  destruct (colocation_closure_enough groups
              (S (S (List.length (List.concat groups)))) None all_ops)
    as [r H].
  { left. pose proof (missing_bound groups all_ops). lia. }
  destruct (colocation_closure_result groups _ _ _ _ H)
    as [[L _]|[F [e [E1 E2]]]]; [discriminate|].
  exists r, e. repeat split; try assumption.
  now apply colocation_pass_fixed.
Qed.





(* ------------------------------------------------------------------ *)
(** * The operations of the class, taken together *)

Section Keeps.

Context {B : Type} (f : Graph -> B).
Hypothesis f_tables : forall a b g, f (set_frame_tables a b g) = f g.

Lemma k_ret {A} (a : A) : keeps f (ret a).
Proof. intros g o g' H. inversion H. reflexivity. Qed.

Lemma k_raise {A} (e : Exn) : keeps f (@raise Graph A e).
Proof. intros g o g' H. inversion H. reflexivity. Qed.

Lemma k_gets {A} (r : Graph -> A) : keeps f (gets r).
Proof. intros g o g' H. inversion H. reflexivity. Qed.

Lemma k_modify (h : Graph -> Graph) :
  (forall g, f (h g) = f g) -> keeps f (modify h).
Proof. intros Hh g o g' H. inversion H. apply Hh. Qed.

Lemma k_bind {A C} (m : GM A) (k : A -> GM C) :
  keeps f m -> (forall a, keeps f (k a)) -> keeps f (bind m k).
Proof.
  intros Hm Hk g o g'. unfold bind.
  destruct (m g) as [[a| e |] g1] eqn:E; intros H.
  - apply Hk in H. apply Hm in E. congruence.
  - inversion H; subst. now apply Hm in E.
  - inversion H; subst. now apply Hm in E.
Qed.

Lemma k_generate : keeps f _generate_node_to_frame_name.
Proof.
  intros g o g'. unfold _generate_node_to_frame_name.
  destruct (frame_search g); intros H; inversion H;
    [apply f_tables | reflexivity | reflexivity].
Qed.

Lemma k_unique_name (name : string) : keeps f (unique_name name).
Proof. intros g o g' H. inversion H. reflexivity. Qed.

End Keeps.

Ltac keeps_tac T :=
  repeat first
    [ apply k_ret | apply k_raise | apply k_gets
    | apply (k_generate _ T) | apply k_unique_name
    | apply k_modify; intros; reflexivity
    | apply k_bind; [|intros]
    | match goal with
      | |- keeps _ (if ?b then _ else _) => destruct b
      | |- keeps _ (match ?x with _ => _ end) => destruct x
      end ].

Lemma core_tables a b g : core (set_frame_tables a b g) = core g.
Proof. reflexivity. Qed.

Lemma next_id_tables a b g : _next_id (set_frame_tables a b g) = _next_id g.
Proof. reflexivity. Qed.

Lemma other_ops_keep_core (op : GraphOp) :
  is_add_node op = false -> keeps core (run_op op).
Proof.
  destruct op; cbn [is_add_node]; intros S; try discriminate S;
    cbn [run_op];
    unfold discard, getitem, contains_node, _name_in_use, tensors, version,
      frozen, frozen_set, get_collection, get_all_collection_keys,
      _get_next_id, node_to_frame_names, frame_name_to_nodes, get_frame_names,
      increment_version_counter, ensure_frame_tables, frozen;
    keeps_tac core_tables.
Qed.

Lemma other_ops_next_id (op : GraphOp) (g g' : Graph) (o : outcome unit) :
  is_add_node op = false ->
  run_op op g = (o, g') ->
  _next_id g' = _next_id g \/ (op = Op_get_next_id /\ _next_id g' = _next_id g + 1).
Proof.
  intros S H.
  destruct (match op with Op_get_next_id => true | _ => false end) eqn:N.
  - destruct op; try discriminate N. right. split; [reflexivity|].
    cbn in H. inversion H; subst. reflexivity.
  - left. revert g o g' H.
    change (keeps _next_id (run_op op)).
    destruct op; try discriminate S; try discriminate N;
      cbn [run_op];
      unfold discard, getitem, contains_node, _name_in_use, tensors, version,
        frozen, frozen_set, get_collection, get_all_collection_keys,
        node_to_frame_names, frame_name_to_nodes, get_frame_names,
        increment_version_counter, ensure_frame_tables, frozen;
      keeps_tac next_id_tables.
Qed.

(** X7. [add_node] is the only operation of the class that writes the node
    table: every other one, whether it returns or raises, leaves the
    identity of the graph, the table and the collections as they were, and
    only [_get_next_id] moves the identity counter. *)
Theorem only_add_node_writes_the_table (op : GraphOp) (g g' : Graph)
  (o : outcome unit) :
  is_add_node op = false ->
  run_op op g = (o, g') ->
  graph_id g' = graph_id g /\
  _node_name_to_node g' = _node_name_to_node g /\
  _collections g' = _collections g /\
  (_next_id g' = _next_id g
   \/ (op = Op_get_next_id /\ _next_id g' = _next_id g + 1)).
Proof.
  intros S H.
  pose proof (other_ops_keep_core op S g o g' H) as C.
  unfold core in C. inversion C.
  repeat split; try assumption.
  exact (other_ops_next_id op g g' o S H).
Qed.

Lemma only_add_node_writes_the_table_witness :
  let g := Examples.loop_graph in
  let g' := snd (run_op (Op_node_to_frame_names Examples.n_merge) g) in
  graph_id g' = graph_id g /\
  _node_name_to_node g' = _node_name_to_node g /\
  _collections g' = _collections g /\
  (_next_id g' = _next_id g
   \/ (Op_node_to_frame_names Examples.n_merge = Op_get_next_id
       /\ _next_id g' = _next_id g + 1)).
Proof.
  cbv zeta.
  apply (only_add_node_writes_the_table
           (Op_node_to_frame_names Examples.n_merge) Examples.loop_graph _
           (Return tt));
    [reflexivity | vm_compute; reflexivity].
Defined.

(** X8. An operation of the class that raises leaves the version counter where
    it was. *)
Theorem failed_operation_keeps_version (op : GraphOp) (g g' : Graph)
  (e : Exn) :
  run_op op g = (Raise e, g') -> _version g' = _version g.
Proof.
  intros H.
  destruct (Nat.eq_dec (version_step op) 0) as [Z|NZ].
  - exact (other_ops_keep_version op Z g _ g' H).
  - destruct op; cbn [version_step] in *; try congruence; cbn [run_op] in H.
    + unfold discard, bind in H. rewrite add_node_unfold in H.
      destruct (add_node_name g name uniquify_name);
        [|inversion H; reflexivity | discriminate H].
      destruct (_frozen g); inversion H; subst. reflexivity.
    + unfold increment_version_counter, frozen, bind, gets, modify, raise in H.
      destruct (_frozen g); inversion H; subst. reflexivity.
Qed.

Lemma failed_operation_keeps_version_witness :
  run_op (Op_add_node "a" "Const" true) (set_frozen true Examples.g_foo)
  = (Raise (RuntimeError "Detected a change to a frozen graph"),
     snd (run_op (Op_add_node "a" "Const" true)
                 (set_frozen true Examples.g_foo))) /\
  _version (snd (run_op (Op_add_node "a" "Const" true)
                        (set_frozen true Examples.g_foo)))
  = _version (set_frozen true Examples.g_foo).
Proof.
  split; [vm_compute; reflexivity|].
  apply (failed_operation_keeps_version (Op_add_node "a" "Const" true)
           (set_frozen true Examples.g_foo) _
           (RuntimeError "Detected a change to a frozen graph")).
  vm_compute. reflexivity.
Defined.

(** ** Graphs built by the operations of the class *)

Lemma keyed_wf (g : Graph) : keyed_by_name g -> names_distinct g -> wf_graph g.
Proof.
  unfold keyed_by_name, names_distinct, wf_graph, nodes, dict_values, dict_keys.
  intros K D. apply NoDup_map_inv in D.
  assert (E : map node_ref (map snd (_node_name_to_node g))
              = map (mkNodeRef (graph_id g)) (map fst (_node_name_to_node g))).
  { rewrite !map_map. apply map_ext_in. intros [k n] I.
    destruct (K k n I) as [-> <-]. reflexivity. }
  rewrite E. apply Injective_map_NoDup; [|exact D].
  intros a b H. now inversion H.
Qed.

Lemma built_invariants (g : Graph) :
  built g ->
  names_distinct g /\ ids_below_next g /\ keyed_by_name g /\
  _collections g = [] /\
  (forall n, In n (nodes g) -> inputs n = [] /\ control_inputs n = []).
Proof.
  induction 1 as [gid|op g g' o B [D [I [K [C E]]]] H].
  - split; [constructor|]. split; [intros ? []|]. split; [intros ? ? []|].
    split; [reflexivity | intros ? []].
  - destruct (is_add_node op) eqn:A.
    + destruct op; try discriminate A. cbn [run_op] in H.
      unfold discard, bind in H.
      destruct (add_node name op_name uniquify_name g) as [o1 g1] eqn:N.
      assert (G : g' = g1)
        by (destruct o1; unfold ret in H; now inversion H).
      subst g1. clear H. apply add_node_result in N.
      destruct N as [->|[nm [_ [U [T [N [Gi [Cl _]]]]]]]];
        [split; [exact D|]; split; [exact I|]; split; [exact K|];
         split; [exact C | exact E]|].
      split; [|split; [|split; [|split]]].
      * unfold names_distinct. eapply names_distinct_app; eauto.
      * unfold ids_below_next, nodes, dict_values. rewrite T, N, map_app.
        intros n J. apply in_app_or in J. destruct J as [J|J].
        -- specialize (I n J). lia.
        -- cbn in J. destruct J as [<-|[]]. cbn. lia.
      * unfold keyed_by_name. rewrite T, Gi. intros k n J.
        apply in_app_or in J. destruct J as [J|J]; [now apply K|].
        cbn in J. destruct J as [J|[]]. inversion J; subst. now split.
      * congruence.
      * unfold nodes, dict_values. rewrite T, map_app. intros n J.
        apply in_app_or in J. destruct J as [J|J]; [now apply E|].
        cbn in J. destruct J as [<-|[]]. now split.
    + pose proof (other_ops_keep_core op A g o g' H) as Co.
      unfold core in Co. inversion Co as [[G T Cl]].
      pose proof (other_ops_next_id op g g' o A H) as N.
      unfold names_distinct, ids_below_next, keyed_by_name, nodes in *.
      rewrite T, G, Cl. split; [exact D|]. split.
      * intros n J. specialize (I n J). destruct N as [N|[_ N]]; lia.
      * split; [exact K|]. split; [exact C | exact E].
Qed.

(** X9. A graph built from the empty graph by the operations of the class is
    well formed: its nodes are distinct objects, stored under their own
    names, which differ even up to case; their identities lie below the
    counter; it has no collection, so every collection lookup fails with the
    lookup error; and its nodes have no inputs, since only the methods of a
    node set them. *)
Theorem built_graphs_are_well_formed (g : Graph) :
  built g ->
  wf_graph g /\
  names_distinct g /\
  ids_below_next g /\
  keyed_by_name g /\
  (forall name, get_collection name g = (Raise KeyError, g)) /\
  get_all_collection_keys g = (Return [], g) /\
  (forall n, In n (nodes g) -> inputs n = [] /\ control_inputs n = []).
Proof.
  intros B. destruct (built_invariants g B) as [D [I [K [C E]]]].
  split; [now apply keyed_wf|]. split; [exact D|]. split; [exact I|].
  split; [exact K|]. split; [|split; [|exact E]].
  - intros name. unfold get_collection, bind, gets. cbv beta iota.
    rewrite C. reflexivity.
  - unfold get_all_collection_keys, gets. rewrite C. reflexivity.
Qed.

Lemma built_graphs_are_well_formed_witness :
  let g := snd (run_op (Op_add_node "foo" "Const" true)
                  (snd (run_op (Op_add_node "Foo" "Const" true)
                               (Graph_init 0)))) in
  built g /\
  wf_graph g /\
  names_distinct g /\
  ids_below_next g /\
  keyed_by_name g /\
  (forall name, get_collection name g = (Raise KeyError, g)) /\
  get_all_collection_keys g = (Return [], g) /\
  (forall n, In n (nodes g) -> inputs n = [] /\ control_inputs n = []).
Proof.
  cbv zeta.
  assert (B : built (snd (run_op (Op_add_node "foo" "Const" true)
                            (snd (run_op (Op_add_node "Foo" "Const" true)
                                         (Graph_init 0)))))).
  { eapply built_step with (op := Op_add_node "foo" "Const" true)
                           (o := Return tt).
    - eapply built_step with (op := Op_add_node "Foo" "Const" true)
                             (o := Return tt).
      + apply (built_init 0).
      + vm_compute. reflexivity.
    - vm_compute. reflexivity. }
  split; [exact B|].
  exact (built_graphs_are_well_formed _ B).
Defined.

(* ------------------------------------------------------------------ *)
(** * Building a node from its wire record, and the default node copy *)

Lemma update_last_entry (tbl : dict string Node) (name : string) (r : Node)
  (f : Node -> Node) :
  ~ In name (dict_keys tbl) ->
  map (fun kv : string * Node =>
         if (fst kv =? name)%string then (fst kv, f (snd kv)) else kv)
      (tbl ++ [(name, r)])
  = tbl ++ [(name, f r)].
Proof.
  induction tbl as [|[k v] tbl IH]; cbn; intros N.
  - now rewrite String.eqb_refl.
  - destruct (String.eqb_spec k name); [tauto|]. rewrite IH; tauto.
Qed.

Lemma update_node_last (name : string) (f : Node -> Node) (g : Graph)
  (tbl : dict string Node) (r : Node) :
  _node_name_to_node g = tbl ++ [(name, r)] ->
  ~ In name (dict_keys tbl) ->
  update_node name f g
  = (Return tt, set_node_name_to_node (tbl ++ [(name, f r)]) g).
Proof.
  intros T N. unfold update_node, modify.
  now rewrite T, update_last_entry by exact N.
Qed.

Lemma get_last_entry (tbl : dict string Node) (name : string) (r : Node) :
  ~ In name (dict_keys tbl) ->
  dict_get String.eqb (tbl ++ [(name, r)]) name = Some r.
Proof.
  intros N. rewrite (dict_get_app String.eqb).
  apply (dict_get_None String.eqb String.eqb_eq) in N. rewrite N. cbn.
  now rewrite String.eqb_refl.
Qed.

Lemma get_old_entry (tbl : dict string Node) (name k : string) (r n0 : Node) :
  dict_get String.eqb tbl k = Some n0 ->
  dict_get String.eqb (tbl ++ [(name, r)]) k = Some n0.
Proof. intros G. now rewrite (dict_get_app String.eqb), G. Qed.

(** The state of a graph whose last entry has been rewritten. *)
Lemma add_attrs_last (name : string) (l : dict string AttrValue) :
  forall (g : Graph) (tbl : dict string Node) (r : Node),
    _node_name_to_node g = tbl ++ [(name, r)] ->
    ~ In name (dict_keys tbl) ->
    exists g',
      forM_ l (fun kv => Node_add_attr name (fst kv) (snd kv)) g
      = (Return tt, g') /\
      _node_name_to_node g'
      = tbl ++ [(name,
                 with_attrs
                   (fold_left
                      (fun a kv => dict_set String.eqb a (fst kv) (snd kv))
                      l (attrs r)) r)] /\
      graph_id g' = graph_id g /\ _version g' = _version g /\
      _frozen g' = _frozen g /\ _next_id g' = _next_id g /\
      _collections g' = _collections g.
Proof.
  induction l as [|[k v] l IH]; intros g tbl r T N.
  - exists g. split; [reflexivity|]. split; [|repeat split].
    rewrite T. now destruct r.
  - cbn [forM_ fst snd]. unfold bind at 1. unfold Node_add_attr at 1.
    rewrite (update_node_last name _ g tbl r T N).
    destruct (IH (set_node_name_to_node
                    (tbl ++ [(name,
                              with_attrs (dict_set String.eqb (attrs r) k v) r)])
                    g)
                 tbl (with_attrs (dict_set String.eqb (attrs r) k v) r)
                 eq_refl N)
      as [g' [E [T' [I1 [I2 [I3 [I4 I5]]]]]]].
    exists g'. split; [exact E|]. split; [exact T'|].
    repeat split; assumption.
Qed.

Lemma add_node_from_node_def_node
  (f : string -> list string -> bool -> GM unit) (nd : NodeDef) (g : Graph)
  (nm : string) :
  _frozen g = false ->
  NoDup (dict_keys (nd_attr nd)) ->
  unique_name_of g (nd_name nd) = Return nm ->
  exists g',
    add_node_from_node_def f nd false false g
    = (Return (mkNode (graph_id g) (_next_id g) nm (nd_op nd) (nd_device nd)
                      (nd_attr nd) [] [] []), g') /\
    _node_name_to_node g'
    = _node_name_to_node g
        ++ [(nm, mkNode (graph_id g) (_next_id g) nm (nd_op nd) (nd_device nd)
                        (nd_attr nd) [] [] [])] /\
    ~ In nm (dict_keys (_node_name_to_node g)) /\
    graph_id g' = graph_id g /\ _version g' = _version g + 1 /\
    _frozen g' = false /\ _next_id g' = _next_id g + 1 /\
    _collections g' = _collections g.
Proof.
  intros F N U. unfold add_node_from_node_def. cbn [andb negb].
  unfold bind at 1. rewrite add_node_unfold.
  unfold add_node_name. rewrite U, F.
  assert (Free : ~ In nm (dict_keys (_node_name_to_node g))).
  { apply name_not_in_use_fresh.
    destruct (unique_name_of_returns g (nd_name nd)) as [r [E Fr]].
    rewrite U in E. now inversion E; subst. }
  set (r0 := Node_init (graph_id g) (_next_id g) nm (nd_op nd)).
  set (g1 := set_frame_tables None None
               (set_version (_version g + 1) (registered g nm (nd_op nd)))).
  assert (T1 : _node_name_to_node g1 = _node_name_to_node g ++ [(nm, r0)]).
  { unfold g1, registered. cbn. now apply dict_set_fresh. }
  change (node_name r0) with nm.
  unfold bind at 1. unfold ret at 1.
  unfold bind at 1. unfold Node_set_device.
  rewrite (update_node_last nm _ g1 _ r0 T1 Free).
  unfold bind at 1. unfold Node_clear_attrs.
  rewrite (update_node_last nm (with_attrs [])
             (set_node_name_to_node
                (_node_name_to_node g ++ [(nm, with_device (nd_device nd) r0)])
                g1)
             (_node_name_to_node g)
             (with_device (nd_device nd) r0) eq_refl Free).
  unfold bind at 1.
  match goal with
  | |- context [forM_ _ _ ?g3] =>
      destruct (add_attrs_last nm (nd_attr nd) g3 (_node_name_to_node g)
                  (with_attrs [] (with_device (nd_device nd) r0)) eq_refl Free)
        as [g4 [E4 [T4 [I1 [I2 [I3 [I4 I5]]]]]]]
  end.
  rewrite E4. cbn [attrs with_attrs] in T4.
  rewrite (refill_attrs (nd_attr nd) []) in T4 by exact N.
  cbn [app with_attrs with_device r0 Node_init node_graph id_in_graph
       node_name op_type inputs control_inputs output_types device] in T4.
  unfold lookup_node, bind, gets. cbv beta iota.
  rewrite T4, (get_last_entry _ _ _ Free). unfold ret.
  exists g4. split; [reflexivity|]. split; [exact T4|]. split; [exact Free|].
  rewrite I1, I2, I3, I4, I5. cbn. rewrite F. repeat split; reflexivity.
Qed.

(** X10. [add_node_from_node_def] without inputs, on a graph that is not frozen,
    cannot fail: it adds after the entries already there a node with the
    operation type, the device and the attributes of the record, with no
    input yet, under the name that [unique_name] makes of the name of the
    record, and moves the version counter by one; asking for control inputs
    without inputs is refused with a [ValueError] before anything is done. *)
Theorem add_node_from_node_def_builds_node
  (f : string -> list string -> bool -> GM unit) (nd : NodeDef) (g : Graph) :
  _frozen g = false ->
  NoDup (dict_keys (nd_attr nd)) ->
  (exists msg,
      add_node_from_node_def f nd false true g = (Raise (ValueError msg), g)) /\
  exists r g',
    add_node_from_node_def f nd false false g = (Return r, g') /\
    unique_name_of g (nd_name nd) = Return (node_name r) /\
    op_type r = nd_op nd /\ device r = nd_device nd /\
    attrs r = nd_attr nd /\
    inputs r = [] /\ control_inputs r = [] /\ output_types r = [] /\
    id_in_graph r = _next_id g /\ node_graph r = graph_id g /\
    _node_name_to_node g' = _node_name_to_node g ++ [(node_name r, r)] /\
    _version g' = _version g + 1.
Proof.
  intros F N. split; [eexists; reflexivity|].
  destruct (unique_name_of_returns g (nd_name nd)) as [nm [U _]].
  destruct (add_node_from_node_def_node f nd g nm F N U)
    as [g' [E [T [_ [_ [V _]]]]]].
  eexists. exists g'. split; [exact E|]. cbn.
  repeat split; assumption || reflexivity.
Qed.

Lemma add_node_from_node_def_builds_node_witness :
  let nd := mkNodeDef "foo" "Identity" "/cpu:0"
                      [("T", AttrS "float"); ("_class", AttrListS ["loc:@foo"])]
                      ["foo:0"] in
  (exists msg,
      add_node_from_node_def (fun _ _ _ => ret tt) nd false true Examples.g_foo
      = (Raise (ValueError msg), Examples.g_foo)) /\
  exists r g',
    add_node_from_node_def (fun _ _ _ => ret tt) nd false false Examples.g_foo
    = (Return r, g') /\
    unique_name_of Examples.g_foo (nd_name nd) = Return (node_name r) /\
    op_type r = nd_op nd /\ device r = nd_device nd /\
    attrs r = nd_attr nd /\
    inputs r = [] /\ control_inputs r = [] /\ output_types r = [] /\
    id_in_graph r = _next_id Examples.g_foo /\
    node_graph r = graph_id Examples.g_foo /\
    _node_name_to_node g'
    = _node_name_to_node Examples.g_foo ++ [(node_name r, r)] /\
    _version g' = _version Examples.g_foo + 1.
Proof.
  cbv zeta.
  apply (add_node_from_node_def_builds_node (fun _ _ _ => ret tt)
           (mkNodeDef "foo" "Identity" "/cpu:0"
                      [("T", AttrS "float"); ("_class", AttrListS ["loc:@foo"])]
                      ["foo:0"])
           Examples.g_foo).
  - reflexivity.
  - cbn. solve_nodup.
Defined.

Lemma transform_colocation_attrs (info : TmpInfo) (nd nd' : NodeDef) :
  transform_colocation info nd = Return nd' ->
  nd_name nd' = nd_name nd /\
  nd_op nd' = nd_op nd /\
  nd_device nd' = nd_device nd /\
  dict_keys (nd_attr nd') = dict_keys (nd_attr nd) /\
  forall k, k <> _COLOCATION_ATTR_NAME ->
            dict_get String.eqb (nd_attr nd') k
            = dict_get String.eqb (nd_attr nd) k.
Proof.
  unfold transform_colocation.
  destruct (Str.mem _COLOCATION_ATTR_NAME (dict_keys (nd_attr nd))) eqn:M;
    [|intros H; inversion H; subst; repeat split; intros; reflexivity].
  destruct (dict_get String.eqb (nd_attr nd) _COLOCATION_ATTR_NAME)
    as [[s|l|m]|]; try discriminate;
    try (intros H; inversion H; subst; repeat split; intros; reflexivity).
  destruct (rewrite_colocation info l) as [l'| |]; try discriminate.
  intros H. inversion H; subst. cbn.
  split; [reflexivity|]. split; [reflexivity|]. split; [reflexivity|].
  split.
  - apply dict_set_keys_present. now apply mem_In.
  - intros k Hk. now apply (dict_get_set_other String.eqb String.eqb_eq).
Qed.

Lemma add_node_from_node_def_frozen
  (f : string -> list string -> bool -> GM unit) (nd : NodeDef) (g g' : Graph)
  (r : Node) :
  add_node_from_node_def f nd false false g = (Return r, g') ->
  _frozen g = false.
Proof.
  destruct (_frozen g) eqn:F; [|reflexivity].
  unfold add_node_from_node_def. cbn [andb negb]. unfold bind at 1.
  rewrite add_node_unfold. unfold add_node_name.
  destruct (unique_name_of g (nd_name nd)); try discriminate.
  rewrite F. discriminate.
Qed.

Lemma set_inputs_last (name : string) (ins : list Tensor) (g : Graph)
  (tbl : dict string Node) (r : Node) :
  _node_name_to_node g = tbl ++ [(name, r)] ->
  ~ In name (dict_keys tbl) ->
  _frozen g = false ->
  exists g',
    Node_set_inputs name ins g = (Return tt, g') /\
    _node_name_to_node g' = tbl ++ [(name, with_inputs ins r)] /\
    graph_id g' = graph_id g /\ _frozen g' = false.
Proof.
  intros T N F. unfold Node_set_inputs, bind.
  rewrite (update_node_last name _ g tbl r T N).
  unfold increment_version_counter, bind, frozen, gets, modify. cbn.
  rewrite F. cbn. eexists. split; [reflexivity|]. cbn.
  rewrite F. repeat split; reflexivity.
Qed.

(** X18. With the shapes and types copied, the default node copy returns a node
    of the destination graph that has the operation type, the device, the
    output types and the attribute keys of the original, the attribute
    values too except for the co-location list, the inputs it was handed and
    no control input yet; its name is what [unique_name] makes of the scope
    translation of the original name; it is added after the nodes already in
    the destination graph, which stay as they were, and no other graph is
    touched. *)
Theorem copy_op_handler_copies_node (X : Externals) (info : TmpInfo)
  (op : Node) (new_inputs : list Tensor) (w w' : World) (op_ : NodeRef)
  (outs : list Tensor) :
  graph_id (w (graph_ info)) = graph_ info ->
  NoDup (dict_keys (attrs op)) ->
  copy_op_handler X info op new_inputs true None w = (Return (op_, outs), w') ->
  exists n_,
    deref op_ w' = (Return n_, w') /\
    op_ = node_ref n_ /\
    outs = outputs n_ /\
    node_graph n_ = graph_ info /\
    unique_name_of (w (graph_ info)) (translate info (node_name op))
    = Return (node_name n_) /\
    id_in_graph n_ = _next_id (w (graph_ info)) /\
    op_type n_ = op_type op /\
    device n_ = device op /\
    inputs n_ = new_inputs /\
    control_inputs n_ = [] /\
    output_types n_ = output_types op /\
    dict_keys (attrs n_) = dict_keys (attrs op) /\
    (forall k, k <> _COLOCATION_ATTR_NAME -> get_attr n_ k = get_attr op k) /\
    _node_name_to_node (w' (graph_ info))
    = _node_name_to_node (w (graph_ info)) ++ [(node_name n_, n_)] /\
    (forall gid, gid <> graph_ info -> w' gid = w gid).
Proof.
  intros Wf N H. unfold copy_op_handler in H.
  set (gid := graph_ info) in *.
  apply bind_returns in H. destruct H as [nm0 [w0 [E0 H]]].
  unfold lift in E0.
  assert (Hw0 : w0 = w) by (inversion E0; reflexivity).
  assert (Hn0 : new_name info (node_name op) = Return nm0)
    by (inversion E0; reflexivity).
  subst w0. clear E0. apply new_name_returns in Hn0. destruct Hn0 as [-> _].
  apply bind_returns in H. destruct H as [nm1 [w1 [E1 H]]].
  apply on_graph_returns in E1. destruct E1 as [g1 [E1 ->]].
  unfold unique_name in E1.
  assert (Hu : unique_name_of (w gid) (translate info (node_name op)) = Return nm1)
    by (inversion E1; reflexivity).
  assert (Hg1 : g1 = w gid) by (inversion E1; reflexivity).
  subst g1. clear E1.
  assert (Free : name_in_use (w gid) nm1 = false).
  { destruct (unique_name_of_returns (w gid) (translate info (node_name op)))
      as [r [Er Fr]]. rewrite Hu in Er. now inversion Er; subst. }
  apply bind_returns in H. destruct H as [nd [w2 [E2 H]]].
  unfold lift in E2.
  assert (Hw2 : w2 = world_set w gid (w gid)) by (inversion E2; reflexivity).
  assert (Hnd : transform_colocation info (nd_with_name nm1 (to_node_def op))
                = Return nd) by (inversion E2; reflexivity).
  subst w2. clear E2.
  destruct (transform_colocation_attrs _ _ _ Hnd) as [Nn [No [Nd [Nk Na]]]].
  cbn [nd_with_name to_node_def nd_name nd_op nd_device nd_attr]
    in Nn, No, Nd, Nk, Na.
  apply bind_returns in H. destruct H as [r [w3 [E3 H]]].
  apply on_graph_returns in E3. destruct E3 as [g3 [E3 ->]].
  rewrite world_set_same in E3.
  pose proof (add_node_from_node_def_frozen _ _ _ _ _ E3) as F.
  assert (U3 : unique_name_of (w gid) (nd_name nd) = Return nm1)
    by (rewrite Nn; unfold unique_name_of; now rewrite Free).
  destruct (add_node_from_node_def_node (set_inputs_from_strings X) nd (w gid)
              nm1 F ltac:(now rewrite Nk) U3)
    as [g3' [E3' [T3 [Fr3 [I3 [_ [F3 _]]]]]]].
  rewrite E3' in E3.
  assert (Hr : r = mkNode (graph_id (w gid)) (_next_id (w gid)) nm1 (nd_op nd)
                          (nd_device nd) (nd_attr nd) [] [] [])
    by (inversion E3; reflexivity).
  assert (Hg3 : g3 = g3') by (inversion E3; reflexivity).
  subst g3'. clear E3 E3'.
  rewrite Hr in H. unfold node_ref at 1 in H.
  cbn [node_name node_graph] in H. rewrite Wf in H.
  apply bind_returns in H. destruct H as [[] [w4 [E4 H]]].
  apply on_graph_returns in E4. destruct E4 as [g4 [E4 ->]].
  rewrite world_set_same in E4.
  destruct (set_inputs_last nm1 new_inputs g3 _ _ T3 Fr3 F3)
    as [g4' [E4' [T4 [I4 F4]]]].
  rewrite E4' in E4.
  assert (Hg4 : g4 = g4') by (inversion E4; reflexivity).
  subst g4'. clear E4 E4'.
  apply bind_returns in H. destruct H as [[] [w5 [E5 H]]].
  apply on_graph_returns in E5. destruct E5 as [g5 [E5 ->]].
  rewrite world_set_same in E5. unfold Node_set_outputs_from_pairs in E5.
  rewrite (update_node_last nm1 _ g4 _ _ T4 Fr3) in E5.
  assert (Hg5 : _node_name_to_node g5
                = _node_name_to_node (w gid)
                    ++ [(nm1,
                         with_output_types (output_types op)
                           (with_inputs new_inputs r))])
    by (rewrite Hr; inversion E5; reflexivity).
  clear E5.
  set (n5 := with_output_types (output_types op) (with_inputs new_inputs r))
    in *.
  set (wf := world_set (world_set (world_set (world_set w gid (w gid)) gid g3)
                                  gid g4) gid g5) in *.
  assert (D : deref (mkNodeRef gid nm1) wf = (Return n5, wf)).
  { unfold deref, read_graph, bind, gets. cbn [ref_graph ref_name].
    unfold wf at 1. rewrite world_set_same, Hg5.
    now rewrite (get_last_entry _ _ _ Fr3). }
  apply bind_returns in H. destruct H as [n_ [w6 [E6 H]]].
  rewrite D in E6.
  assert (Hn : n_ = n5) by (inversion E6; reflexivity).
  assert (Hw6 : w6 = wf) by (inversion E6; reflexivity).
  subst n_ w6. clear E6. unfold ret in H.
  assert (Ho : op_ = node_ref n5) by (inversion H; reflexivity).
  assert (Hout : outs = outputs n5) by (inversion H; reflexivity).
  assert (Hw : w' = wf) by (inversion H; reflexivity).
  clear H. subst op_ outs w'.
  assert (Ref5 : node_ref n5 = mkNodeRef gid nm1).
  { unfold n5. rewrite Hr. unfold node_ref. cbn. now rewrite Wf. }
  exists n5. rewrite Ref5. split; [exact D|].
  split; [reflexivity|]. split; [reflexivity|].
  unfold n5. rewrite Hr. cbn.
  split; [exact Wf|]. split; [exact Hu|]. split; [reflexivity|].
  split; [exact No|]. split; [exact Nd|]. split; [reflexivity|].
  split; [reflexivity|]. split; [reflexivity|]. split; [exact Nk|].
  split; [intros k Hk; unfold get_attr; cbn; now apply Na|].
  split.
  - unfold wf. rewrite world_set_same. rewrite Hg5. unfold n5.
    rewrite Hr. reflexivity.
  - intros gid' Hne. unfold wf, world_set.
    apply Nat.eqb_neq in Hne. now rewrite Hne.
Qed.

Lemma copy_op_handler_copies_node_witness :
  let r := copy_op_handler Examples.ex_externals Examples.info_coloc
             Examples.n_coloc [Examples.T 0 "peer" 0] true None
             Examples.w_coloc in
  let n_ := mkNode 0 3 "dst/n" "Identity" ""
                   [("_class", AttrListS ["loc:@dst/peer"])]
                   [Examples.T 0 "peer" 0] [] [(0, None)] in
  r = (Return (mkNodeRef 0 "dst/n", [Examples.T 0 "dst/n" 0]), snd r) /\
  deref (mkNodeRef 0 "dst/n") (snd r) = (Return n_, snd r) /\
  inputs n_ = [Examples.T 0 "peer" 0] /\
  _node_name_to_node (snd r 0)
  = _node_name_to_node (Examples.w_coloc 0) ++ [("dst/n", n_)].
Proof.
  cbv zeta.
  assert (E : copy_op_handler Examples.ex_externals Examples.info_coloc
                Examples.n_coloc [Examples.T 0 "peer" 0] true None
                Examples.w_coloc
              = (Return (mkNodeRef 0 "dst/n", [Examples.T 0 "dst/n" 0]),
                 snd (copy_op_handler Examples.ex_externals Examples.info_coloc
                        Examples.n_coloc [Examples.T 0 "peer" 0] true None
                        Examples.w_coloc)))
    by (vm_compute; reflexivity).
  split; [exact E|].
  destruct (copy_op_handler_copies_node Examples.ex_externals
              Examples.info_coloc Examples.n_coloc [Examples.T 0 "peer" 0]
              Examples.w_coloc _ _ _ eq_refl
              ltac:(cbn; solve_nodup) E)
    as [n_ [D [_ [_ [_ [_ [_ [_ [_ [I [_ [_ [_ [_ [T _]]]]]]]]]]]]]]].
  rewrite D in *.
  assert (Hn : n_ = mkNode 0 3 "dst/n" "Identity" ""
                           [("_class", AttrListS ["loc:@dst/peer"])]
                           [Examples.T 0 "peer" 0] [] [(0, None)]).
  { assert (D' : deref (mkNodeRef 0 "dst/n")
                   (snd (copy_op_handler Examples.ex_externals
                           Examples.info_coloc Examples.n_coloc
                           [Examples.T 0 "peer" 0] true None Examples.w_coloc))
                 = (Return (mkNode 0 3 "dst/n" "Identity" ""
                              [("_class", AttrListS ["loc:@dst/peer"])]
                              [Examples.T 0 "peer" 0] [] [(0, None)]),
                    snd (copy_op_handler Examples.ex_externals
                           Examples.info_coloc Examples.n_coloc
                           [Examples.T 0 "peer" 0] true None Examples.w_coloc)))
      by (vm_compute; reflexivity).
    rewrite D' in D. now inversion D. }
  subst n_. split; [reflexivity|]. split; [reflexivity|]. exact T.
Defined.

(** ** Which tensors a copy with replacements replaces *)

Lemma transformed_t_input (X : Externals) (self : Transformer) (fuel : nat)
  (t : Tensor) (c : Node) (info : TmpInfo) (w : World) :
  dict_get Tensor_eqb (transformed_ts info) t = None ->
  existsb (Tensor_eqb t) (sgv_inputs_set info) = true ->
  _transformed_t X self (S fuel) t c (info, w)
  = run_handler (fun info => transform_external_input_handler self info t)
                (info, w).
Proof.
  intros G I. cbn [_transformed_t]. unfold bind at 1. unfold get_info, gets.
  cbv beta iota. cbn [fst]. now rewrite G, I.
Qed.

Lemma transformed_t_hidden (X : Externals) (self : Transformer) (fuel : nat)
  (t : Tensor) (c : Node) (info : TmpInfo) (w : World) :
  dict_get Tensor_eqb (transformed_ts info) t = None ->
  existsb (Tensor_eqb t) (sgv_inputs_set info) = false ->
  find (fun n => NodeRef_eqb (node_ref n) (t_node t)) (sgv_ops (sgv info))
  = None ->
  _transformed_t X self (S fuel) t c (info, w)
  = run_handler
      (fun info => transform_external_hidden_input_handler self info t)
      (info, w).
Proof.
  intros G I Fd. cbn [_transformed_t]. unfold bind at 1. unfold get_info, gets.
  cbv beta iota. cbn [fst]. now rewrite G, I, Fd.
Qed.

(** X24. In a copy with input replacements, a tensor is replaced only where it
    is an input of the view: there its replacement is used, or the tensor
    itself when it has none and the copy stays within one graph; a tensor
    that enters the view without being listed among its inputs is kept as it
    is within one graph, whether or not a replacement is given for it. In
    none of these cases is a node added or the working state changed. *)
Theorem replacement_applies_to_view_inputs_only (X : Externals)
  (replacement_ts : dict Tensor Tensor) (info : TmpInfo) (t : Tensor)
  (consumer_op : Node) (fuel : nat) (w : World) :
  dict_get Tensor_eqb (transformed_ts info) t = None ->
  (forall r,
      existsb (Tensor_eqb t) (sgv_inputs_set info) = true ->
      dict_get Tensor_eqb replacement_ts t = Some r ->
      _transformed_t X
        (with_external_input_handler
           (replace_t_with_replacement_handler X replacement_ts)
           (Transformer_init X))
        (S fuel) t consumer_op (info, w)
      = (Return r, (info, w))) /\
  (existsb (Tensor_eqb t) (sgv_inputs_set info) = true ->
   dict_get Tensor_eqb replacement_ts t = None ->
   graph info = graph_ info ->
   _transformed_t X
     (with_external_input_handler
        (replace_t_with_replacement_handler X replacement_ts)
        (Transformer_init X))
     (S fuel) t consumer_op (info, w)
   = (Return t, (info, w))) /\
  (existsb (Tensor_eqb t) (sgv_inputs_set info) = false ->
   find (fun n => NodeRef_eqb (node_ref n) (t_node t)) (sgv_ops (sgv info))
   = None ->
   graph info = graph_ info ->
   _transformed_t X
     (with_external_input_handler
        (replace_t_with_replacement_handler X replacement_ts)
        (Transformer_init X))
     (S fuel) t consumer_op (info, w)
   = (Return t, (info, w))).
Proof.
  intros G. split; [|split].
  - intros r I R. rewrite (transformed_t_input _ _ _ _ _ _ _ G I).
    unfold run_handler. cbn [fst snd transform_external_input_handler
                             with_external_input_handler].
    unfold replace_t_with_replacement_handler.
    assert (M : dict_mem Tensor_eqb replacement_ts t = true)
      by (apply (dict_mem_In Tensor_eqb Tensor_eqb_eq);
          exact (dict_get_Some_In Tensor_eqb Tensor_eqb_eq _ _ _ R)).
    now rewrite M, R.
  - intros I R E. rewrite (transformed_t_input _ _ _ _ _ _ _ G I).
    unfold run_handler. cbn [fst snd transform_external_input_handler
                             with_external_input_handler].
    unfold replace_t_with_replacement_handler.
    assert (M : dict_mem Tensor_eqb replacement_ts t = false).
    { destruct (dict_mem Tensor_eqb replacement_ts t) eqn:M; [|reflexivity].
      apply (dict_mem_In Tensor_eqb Tensor_eqb_eq) in M.
      apply (dict_get_None Tensor_eqb Tensor_eqb_eq) in R. contradiction. }
    rewrite M. unfold keep_t_if_possible_handler. rewrite E, Nat.eqb_refl.
    reflexivity.
  - intros I Fd E. rewrite (transformed_t_hidden _ _ _ _ _ _ _ G I Fd).
    unfold run_handler. cbn [fst snd transform_external_hidden_input_handler
                             with_external_input_handler Transformer_init].
    unfold keep_t_if_possible_handler. rewrite E, Nat.eqb_refl. reflexivity.
Qed.

Lemma replacement_applies_to_view_inputs_only_witness :
  dict_get Tensor_eqb (transformed_ts Examples.info_fy) (Examples.T 0 "x" 0)
  = None /\
  existsb (Tensor_eqb (Examples.T 0 "x" 0)) (sgv_inputs_set Examples.info_fy)
  = true /\
  _transformed_t Examples.ex_externals
    (with_external_input_handler
       (replace_t_with_replacement_handler Examples.ex_externals
          Examples.replace_x)
       (Transformer_init Examples.ex_externals))
    1 (Examples.T 0 "x" 0) Examples.n_f (Examples.info_fy, Examples.w_xyz)
  = (Return (Examples.T 0 "x2" 0), (Examples.info_fy, Examples.w_xyz)).
Proof.
  split; [reflexivity|]. split; [reflexivity|].
  apply (replacement_applies_to_view_inputs_only Examples.ex_externals
           Examples.replace_x Examples.info_fy (Examples.T 0 "x" 0)
           Examples.n_f 0 Examples.w_xyz eq_refl);
    reflexivity.
Defined.

(** ** The walk of the frame analysis ends *)

Lemma record_frames_total (stack : list FrameName) (n : Node) :
  forall d, record_frames stack n d <> OutOfFuel.
Proof.
  induction stack as [|f stack IH]; intros d; cbn; [discriminate|].
  destruct (hashable f); [apply IH | discriminate].
Qed.

Lemma step_tables_total (n : Node) (tb : Tables) :
  step_tables n tb <> OutOfFuel.
Proof.
  unfold step_tables, update_stack.
  destruct (Str.mem (op_type n) ["Enter"; "RefEnter"]).
  - destruct (negb (Str.mem _FRAME_NAME_ATTR (get_attr_keys n)));
      [discriminate|].
    destruct (get_attr n _FRAME_NAME_ATTR); [|discriminate].
    destruct (record_frames _ n (tb_f2n tb)) eqn:R; try discriminate.
    now apply record_frames_total in R.
  - destruct (Str.mem (op_type n) ["Exit"; "RefExit"]).
    + destruct (tb_stack tb); [discriminate|].
      destruct (record_frames _ n (tb_f2n tb)) eqn:R; try discriminate.
      now apply record_frames_total in R.
    + destruct (record_frames _ n (tb_f2n tb)) eqn:R; try discriminate.
      now apply record_frames_total in R.
Qed.

Lemma process_total (order : list Node) :
  forall tb, process order tb <> OutOfFuel.
Proof.
  induction order as [|n order IH]; intros tb; cbn; [discriminate|].
  destruct (step_tables n tb) eqn:S; [apply IH | discriminate|].
  now apply step_tables_total in S.
Qed.

(** X12. On a graph whose nodes are distinct objects, the loop of the frame
    analysis ends within one more test of its condition than the graph has
    nodes: the analysis and the readers built on it return or raise, and
    never exhaust that budget. *)
Theorem frame_analysis_terminates (g : Graph) :
  wf_graph g ->
  frame_search g <> OutOfFuel /\
  fst (_generate_node_to_frame_name g) <> OutOfFuel /\
  (forall n, fst (node_to_frame_names n g) <> OutOfFuel) /\
  (forall f, fst (frame_name_to_nodes f g) <> OutOfFuel) /\
  fst (get_frame_names g) <> OutOfFuel.
Proof.
  intros W.
  assert (S : frame_search g <> OutOfFuel).
  { destruct (frame_search_walk g W) as [order [_ [_ [_ S]]]]. rewrite S.
    destruct (process order tables_init) eqn:P; try discriminate.
    now apply process_total in P. }
  assert (G : forall o g', _generate_node_to_frame_name g = (o, g') ->
                           o <> OutOfFuel /\
                           (o = Return tt -> _node_to_frame_names g' <> None /\
                                             _frame_name_to_nodes g' <> None)).
  { intros o g'. unfold _generate_node_to_frame_name.
    destruct (frame_search g) eqn:Fs; intros H; inversion H; subst.
    - split; [discriminate|]. intros _. cbn. split; discriminate.
    - split; discriminate.
    - exfalso. now apply S. }
  split; [exact S|]. split; [|split; [|split]].
  - destruct (_generate_node_to_frame_name g) as [o g'] eqn:E.
    exact (proj1 (G _ _ eq_refl)).
  - intros n. unfold node_to_frame_names, ensure_frame_tables, bind, gets, ret.
    cbv beta iota. destruct (_node_to_frame_names g) as [d|] eqn:C;
      cbv beta iota.
    + rewrite C. destruct (dict_get NodeRef_eqb d (node_ref n)); discriminate.
    + destruct (_generate_node_to_frame_name g) as [[[]| |] g'] eqn:E;
        cbn [fst];
        [|discriminate|exfalso; exact (proj1 (G _ _ eq_refl) eq_refl)].
      destruct (G _ _ eq_refl) as [_ T]. destruct (T eq_refl) as [T1 _].
      destruct (_node_to_frame_names g') as [d|]; [|congruence].
      destruct (dict_get NodeRef_eqb d (node_ref n)); discriminate.
  - intros f. unfold frame_name_to_nodes, ensure_frame_tables, bind, gets, ret.
    cbv beta iota. destruct (_node_to_frame_names g) as [d|] eqn:C;
      cbv beta iota.
    + destruct (_frame_name_to_nodes g) as [d'|]; [|discriminate].
      destruct (hashable f); [|discriminate].
      destruct (dict_get FrameName_eqb d' f); discriminate.
    + destruct (_generate_node_to_frame_name g) as [[[]| |] g'] eqn:E;
        cbn [fst];
        [|discriminate|exfalso; exact (proj1 (G _ _ eq_refl) eq_refl)].
      destruct (_frame_name_to_nodes g') as [d'|]; [|discriminate].
      destruct (hashable f); [|discriminate].
      destruct (dict_get FrameName_eqb d' f); discriminate.
  - unfold get_frame_names, ensure_frame_tables, bind, gets, ret.
    cbv beta iota. destruct (_node_to_frame_names g) as [d|] eqn:C;
      cbv beta iota.
    + destruct (_frame_name_to_nodes g) as [d'|]; discriminate.
    + destruct (_generate_node_to_frame_name g) as [[[]| |] g'] eqn:E;
        cbn [fst];
        [|discriminate|exfalso; exact (proj1 (G _ _ eq_refl) eq_refl)].
      destruct (_frame_name_to_nodes g') as [d'|]; discriminate.
Qed.

Lemma frame_analysis_terminates_witness :
  wf_graph Examples.loop_graph_aside /\
  frame_search Examples.loop_graph_aside <> OutOfFuel /\
  fst (_generate_node_to_frame_name Examples.loop_graph_aside) <> OutOfFuel /\
  (forall n, fst (node_to_frame_names n Examples.loop_graph_aside)
             <> OutOfFuel) /\
  (forall f, fst (frame_name_to_nodes f Examples.loop_graph_aside)
             <> OutOfFuel) /\
  fst (get_frame_names Examples.loop_graph_aside) <> OutOfFuel.
Proof.
  assert (W : wf_graph Examples.loop_graph_aside)
    by (unfold wf_graph; cbn; solve_nodup).
  split; [exact W|].
  exact (frame_analysis_terminates Examples.loop_graph_aside W).
Defined.

(* ------------------------------------------------------------------ *)
(** * A whole transformer call *)













Section CallRecord.

Variable X : Externals.
Variable self : Transformer.





End CallRecord.


